(** * Espruino Graphics wrapper: a shallow embedding of
      [libs/graphics/jswrap_graphics.c] and the properties of its
      colour quantizer, transform flags, custom font decoder, image
      blitter and polygon vertex collector. *)

From Stdlib Require Import ZArith List Bool Lia QArith String.
Import ListNotations.
Open Scope Z_scope.

(** ** C integer types

    Values of the C integer types are integers of [Z]; a cast to a
    [w]-bit type is written out as the reduction modulo [2^w]. *)

Definition to_unsigned (w z : Z) : Z := z mod 2 ^ w.

Definition to_signed (w z : Z) : Z :=
  let u := z mod 2 ^ w in
  if u <? 2 ^ (w - 1) then u else u - 2 ^ w.

(** [(int)], [(short)], [(unsigned int)] and [(unsigned char)]. *)
Definition to_int : Z -> Z := to_signed 32.
Definition to_short : Z -> Z := to_signed 16.
Definition to_uint : Z -> Z := to_unsigned 32.
Definition to_uchar : Z -> Z := to_unsigned 8.

Definition is_int (z : Z) : Prop := - 2 ^ 31 <= z < 2 ^ 31.
Definition is_short (z : Z) : Prop := - 2 ^ 15 <= z < 2 ^ 15.
Definition is_byte (z : Z) : Prop := 0 <= z < 256.

(** ** JavaScript arguments *)

(** Modelled from the spec: the variables of the interpreter and
    their accessors ([jsvIsUndefined], [jsvGetInteger],
    [jsvGetFloat]) are declared outside this file.  A numeric
    argument is the null pointer of an argument that was left out, or
    a number; [jsvGetFloat] of a missing argument is NaN, written
    [None], and [jsvGetInteger] of it is 0. *)

Inductive JsVar : Type :=
| JsUndefined
| JsNumber (q : Q).

Definition jsvIsUndefined (v : JsVar) : bool :=
  match v with JsUndefined => true | JsNumber _ => false end.

(** Conversion of a number to an integer drops the fraction. *)
Definition truncate (q : Q) : Z := Z.quot (Qnum q) (Zpos (Qden q)).

Definition jsvGetInteger (v : JsVar) : Z :=
  match v with JsUndefined => 0 | JsNumber q => truncate q end.

Definition jsvGetFloat (v : JsVar) : option Q :=
  match v with JsUndefined => None | JsNumber q => Some q end.

(** [(int)(f*256)]: C leaves the conversion undefined for NaN and for
    values outside [int]. *)
Definition scale_to_int (f : option Q) : option Z :=
  match f with
  | None => None
  | Some q =>
      let z := truncate (q * 256) in
      if (- 2 ^ 31 <=? z) && (z <? 2 ^ 31) then Some z else None
  end.

(** ** Surface state

    [JsGraphicsData] is the [data] member of the [JsGraphics] struct,
    the part of a surface that [graphicsSetVar] persists in the
    Graphics object and [graphicsGetFromVar] reads back. *)

Record JsGraphicsData : Type := mkData {
  data_width : Z;
  data_height : Z;
  data_bpp : Z;
  data_flags : Z;
  data_fgColor : Z;
  data_bgColor : Z;
  data_cursorX : Z;
  data_cursorY : Z;
  data_fontSize : Z
}.

Definition set_flags (d : JsGraphicsData) (v : Z) : JsGraphicsData :=
  mkData (data_width d) (data_height d) (data_bpp d) v (data_fgColor d)
         (data_bgColor d) (data_cursorX d) (data_cursorY d) (data_fontSize d).

Definition set_fgColor (d : JsGraphicsData) (v : Z) : JsGraphicsData :=
  mkData (data_width d) (data_height d) (data_bpp d) (data_flags d) v
         (data_bgColor d) (data_cursorX d) (data_cursorY d) (data_fontSize d).

Definition set_bgColor (d : JsGraphicsData) (v : Z) : JsGraphicsData :=
  mkData (data_width d) (data_height d) (data_bpp d) (data_flags d)
         (data_fgColor d) v (data_cursorX d) (data_cursorY d) (data_fontSize d).

Definition set_cursorX (d : JsGraphicsData) (v : Z) : JsGraphicsData :=
  mkData (data_width d) (data_height d) (data_bpp d) (data_flags d)
         (data_fgColor d) (data_bgColor d) v (data_cursorY d) (data_fontSize d).

Definition set_cursorY (d : JsGraphicsData) (v : Z) : JsGraphicsData :=
  mkData (data_width d) (data_height d) (data_bpp d) (data_flags d)
         (data_fgColor d) (data_bgColor d) (data_cursorX d) v (data_fontSize d).

Definition set_fontSize (d : JsGraphicsData) (v : Z) : JsGraphicsData :=
  mkData (data_width d) (data_height d) (data_bpp d) (data_flags d)
         (data_fgColor d) (data_bgColor d) (data_cursorX d) (data_cursorY d) v.

(** The width source of a custom font, as [setFontCustom] stores it:
    an integer, or a string holding one width per glyph. *)
Inductive WidthSource : Type :=
| WidthInt (n : Z)
| WidthString (s : list Z).

(** The children of the Graphics object that describe a custom font.
    A string is the list of its bytes. *)
Record CustomFont : Type := mkFont {
  customBitmap : list Z;
  customWidth : WidthSource;
  customHeight : Z;
  customFirstChar : Z
}.

(** Calls that leave this file: the drawing primitives of graphics.c,
    [jsWarn] and [jsExceptionHere]. *)
Inductive Call : Type :=
| SetPixel (x y col : Z)
| FillVectorChar (x y size ch : Z)
| DrawChar4x6 (x y ch : Z)
| DrawLine (x1 y1 x2 y2 : Z)
| FillPoly (points : Z) (verts : list Z)
| Warn (msg : string) (arg : Z)
| Exception (msg : string).

(** What a call of this file can read and change: the data persisted
    in the Graphics object ([None] when the object does not resolve to
    a surface), its custom font children, the calls made so far (the
    oldest first) and the number of times [jspIsInterrupted] was
    asked. *)
Record World : Type := mkWorld {
  graphicsVar : option JsGraphicsData;
  fontVars : CustomFont;
  calls : list Call;
  polls : nat
}.

(** Modelled from the spec: [graphicsGetFromVar] and [graphicsSetVar]
    of graphics.c are not in this file; a call receives a snapshot of
    the persisted surface state and what it writes back replaces that
    state. *)
Definition graphicsGetFromVar (w : World) : option JsGraphicsData :=
  graphicsVar w.

Definition graphicsSetVar (gfx : JsGraphicsData) (w : World) : World :=
  mkWorld (Some gfx) (fontVars w) (calls w) (polls w).

Definition emit (c : Call) (w : World) : World :=
  mkWorld (graphicsVar w) (fontVars w) (calls w ++ [c]) (polls w).

(** Modelled from the spec: the pixel and line primitives of
    graphics.c are not in this file; they draw through the back end
    and leave [gfx.data] alone. *)
Definition graphicsSetPixel (x y col : Z) (w : World) : World :=
  emit (SetPixel x y col) w.

Definition graphicsDrawLine (x1 y1 x2 y2 : Z) (w : World) : World :=
  emit (DrawLine x1 y1 x2 y2) w.

(** ** setPixel, moveTo, lineTo *)

Definition jswrap_graphics_setPixel (x y : Z) (color : JsVar) (w : World) : World :=
  match graphicsGetFromVar w with
  | None => w
  | Some gfx =>
      let col := data_fgColor gfx in
      let col := if negb (jsvIsUndefined color)
                 then to_uint (jsvGetInteger color) else col in
      let w := graphicsSetPixel (to_short x) (to_short y) col w in
      let gfx := set_cursorX gfx (to_short x) in
      let gfx := set_cursorY gfx (to_short y) in
      (* the function ends here: [gfx] is a local and is dropped *)
      w
  end.

Definition jswrap_graphics_lineTo (x y : Z) (w : World) : World :=
  match graphicsGetFromVar w with
  | None => w
  | Some gfx =>
      let w := graphicsDrawLine (data_cursorX gfx) (data_cursorY gfx)
                                (to_short x) (to_short y) w in
      let gfx := set_cursorX gfx (to_short x) in
      let gfx := set_cursorY gfx (to_short y) in
      graphicsSetVar gfx w
  end.

Definition jswrap_graphics_moveTo (x y : Z) (w : World) : World :=
  match graphicsGetFromVar w with
  | None => w
  | Some gfx =>
      let gfx := set_cursorX gfx (to_short x) in
      let gfx := set_cursorY gfx (to_short y) in
      graphicsSetVar gfx w
  end.

(** ** setColor, setBgColor *)

(** The colour word of three scaled channels at depth [bpp]. *)
Definition setColorX_pack (bpp ri gi bi : Z) : Z :=
  let ri := if ri >? 255 then 255 else ri in
  let gi := if gi >? 255 then 255 else gi in
  let bi := if bi >? 255 then 255 else bi in
  let ri := if ri <? 0 then 0 else ri in
  let gi := if gi <? 0 then 0 else gi in
  let bi := if bi <? 0 then 0 else bi in
  if bpp =? 16 then
    to_uint (Z.lor (Z.lor (Z.shiftr bi 3) (Z.shiftl (Z.shiftr gi 2) 5))
                   (Z.shiftl (Z.shiftr ri 3) 11))
  else if bpp =? 32 then
    Z.lor 0xFF000000 (to_uint (Z.lor (Z.lor bi (Z.shiftl gi 8)) (Z.shiftl ri 16)))
  else if bpp =? 24 then
    to_uint (Z.lor (Z.lor bi (Z.shiftl gi 8)) (Z.shiftl ri 16))
  else
    to_uint (if ri + gi + bi >=? 384 then 0xFFFFFFFF else 0).

(** The colour [setColorX] stores; [None] when a conversion of a
    channel to [int] is undefined. *)
Definition setColorX_color (bpp : Z) (r g b : JsVar) : option Z :=
  if negb (jsvIsUndefined g) && negb (jsvIsUndefined b) then
    match scale_to_int (jsvGetFloat r),
          scale_to_int (jsvGetFloat g),
          scale_to_int (jsvGetFloat b) with
    | Some ri, Some gi, Some bi => Some (setColorX_pack bpp ri gi bi)
    | _, _, _ => None
    end
  else
    (* just rgb *)
    Some (to_uint (jsvGetInteger r)).

Definition jswrap_graphics_setColorX
    (r g b : JsVar) (isForeground : bool) (w : World) : option World :=
  match graphicsGetFromVar w with
  | None => Some w
  | Some gfx =>
      match setColorX_color (data_bpp gfx) r g b with
      | None => None
      | Some color =>
          let gfx := if isForeground then set_fgColor gfx color
                     else set_bgColor gfx color in
          Some (graphicsSetVar gfx w)
      end
  end.

(** ** fillPoly *)

Definition maxVerts : Z := 128.

(** The loop over the children of the array: [items] are the integer
    values of the elements not yet visited, [verts] the entries of
    the buffer written so far. *)
Fixpoint fillPoly_collect (items : list Z) (idx : Z) (verts : list Z) : Z * list Z :=
  match items with
  | [] => (idx, verts)
  | val :: rest =>
      if idx <? maxVerts
      then fillPoly_collect rest (idx + 1) (verts ++ [to_short val])
      else (idx, verts)
  end.

(** [poly] is [None] when the argument is not an array. *)
Definition jswrap_graphics_fillPoly (poly : option (list Z)) (w : World) : World :=
  match graphicsGetFromVar w with
  | None => w
  | Some gfx =>
      match poly with
      | None => w
      | Some items =>
          let '(idx, verts) := fillPoly_collect items 0 [] in
          let w := if idx =? maxVerts
                   then emit (Warn "Maximum number of points (%d) exceeded for fillPoly"
                                   (Z.quot maxVerts 2)) w
                   else w in
          emit (FillPoly (Z.quot idx 2) verts) w
      end
  end.

(** ** String iterators *)

(** Modelled from the spec: the string iterator of the interpreter is
    declared outside this file.  A [JsvStringIterator] is its
    position and the bytes it has not passed; reading at the end
    gives 0 and stepping at the end stays there, so that a read past
    a table gives 0 and not a byte out of bounds. *)

Definition iterator_at (s : list Z) (startIdx : Z) : list Z :=
  if startIdx <? Z.of_nat (List.length s)
  then skipn (Z.to_nat startIdx) s else [].

Definition iterator_has_char (it : list Z) : bool :=
  match it with [] => false | _ :: _ => true end.

Section Graphics.

(** *** What the headers and the build decide

    The transform bits of [JsGraphicsFlags] and the font size codes
    are declared in graphics.h; whether [char] is signed, the widths
    of [long] and [size_t] and [SAVE_ON_FLASH] belong to the build;
    the vector font lives in graphics.c.  [interrupted n] is what the
    [n]-th call of [jspIsInterrupted] answers. *)
Variables swap_xy_bit invert_x_bit invert_y_bit : Z.
Variables JSGRAPHICS_FONTSIZE_4X6 JSGRAPHICS_FONTSIZE_CUSTOM : Z.
Variable char_is_signed : bool.
Variables LONG_BITS SIZE_T_BITS : Z.
Variable SAVE_ON_FLASH : bool.
Variable graphicsFillVectorChar : JsGraphicsData -> Z -> Z -> Z -> Z -> Z.
Variable graphicsVectorCharWidth : JsGraphicsData -> Z -> Z -> Z.
Variable interrupted : nat -> bool.

(** The value of a [char] that holds byte [b]. *)
Definition to_char (b : Z) : Z :=
  if char_is_signed then to_signed 8 b else to_unsigned 8 b.

Definition to_size_t (z : Z) : Z := to_unsigned SIZE_T_BITS z.

Definition jsvStringIteratorGetChar (it : list Z) : Z := to_char (hd 0 it).

Definition jspIsInterrupted (w : World) : bool * World :=
  (interrupted (polls w),
   mkWorld (graphicsVar w) (fontVars w) (calls w) (S (polls w))).

(** ** setRotation *)

Definition JSGRAPHICSFLAGS_SWAP_XY : Z := Z.shiftl 1 swap_xy_bit.
Definition JSGRAPHICSFLAGS_INVERT_X : Z := Z.shiftl 1 invert_x_bit.
Definition JSGRAPHICSFLAGS_INVERT_Y : Z := Z.shiftl 1 invert_y_bit.

Definition setRotation_flags (flags rotation : Z) (reflect : bool) : Z :=
  (* clear flags *)
  let flags :=
    Z.land flags
      (Z.lnot (Z.lor (Z.lor JSGRAPHICSFLAGS_SWAP_XY JSGRAPHICSFLAGS_INVERT_X)
                     JSGRAPHICSFLAGS_INVERT_Y)) in
  (* set flags *)
  let flags :=
    if rotation =? 0 then flags
    else if rotation =? 1 then
      Z.lor flags (Z.lor JSGRAPHICSFLAGS_SWAP_XY JSGRAPHICSFLAGS_INVERT_X)
    else if rotation =? 2 then
      Z.lor flags (Z.lor JSGRAPHICSFLAGS_INVERT_X JSGRAPHICSFLAGS_INVERT_Y)
    else if rotation =? 3 then
      Z.lor flags (Z.lor JSGRAPHICSFLAGS_SWAP_XY JSGRAPHICSFLAGS_INVERT_Y)
    else flags in
  if reflect then
    if negb (Z.land flags JSGRAPHICSFLAGS_SWAP_XY =? 0)
    then Z.lxor flags JSGRAPHICSFLAGS_INVERT_Y
    else Z.lxor flags JSGRAPHICSFLAGS_INVERT_X
  else flags.

Definition jswrap_graphics_setRotation
    (rotation : Z) (reflect : bool) (w : World) : World :=
  match graphicsGetFromVar w with
  | None => w
  | Some gfx =>
      let gfx := set_flags gfx (setRotation_flags (data_flags gfx) rotation reflect) in
      graphicsSetVar gfx w
  end.

(** [getWidth] and [getHeight]. *)
Definition jswrap_graphics_getWidthOrHeight (height : bool) (w : World) : Z :=
  match graphicsGetFromVar w with
  | None => 0
  | Some gfx =>
      let height :=
        if negb (Z.land (data_flags gfx) JSGRAPHICSFLAGS_SWAP_XY =? 0)
        then negb height else height in
      if height then data_height gfx else data_width gfx
  end.

(** The table of the specification: swap-xy, invert-x and invert-y of
    each rotation, before reflection. *)
Definition table_swap_xy (rotation : Z) : bool :=
  (rotation =? 1) || (rotation =? 3).
Definition table_invert_x (rotation : Z) : bool :=
  (rotation =? 1) || (rotation =? 2).
Definition table_invert_y (rotation : Z) : bool :=
  (rotation =? 2) || (rotation =? 3).

Definition flag_bits_distinct : Prop :=
  0 <= swap_xy_bit /\ 0 <= invert_x_bit /\ 0 <= invert_y_bit /\
  swap_xy_bit <> invert_x_bit /\ swap_xy_bit <> invert_y_bit /\
  invert_x_bit <> invert_y_bit.

(** ** setFontCustom *)

(** The [bitmap] and [width] arguments of [setFontCustom] as its
    checks see them: a string, an integer, or neither. *)
Inductive FontArg : Type :=
| ArgString (s : list Z)
| ArgInt (n : Z)
| ArgOther.

Definition jswrap_graphics_setFontCustom
    (bitmap : FontArg) (firstChar : Z) (width : FontArg) (height : Z)
    (w : World) : World :=
  match graphicsGetFromVar w with
  | None => w
  | Some gfx =>
      match bitmap with
      | ArgString bmp =>
          if (firstChar <? 0) || (firstChar >? 255) then
            emit (Exception "First character out of range") w
          else
            match (match width with
                   | ArgString s => Some (WidthString s)
                   | ArgInt n => Some (WidthInt n)
                   | ArgOther => None
                   end) with
            | None => emit (Exception "Font width must be a String or an integer") w
            | Some widthSource =>
                if (height <=? 0) || (height >? 255) then
                  emit (Exception "Invalid height") w
                else
                  let w := mkWorld (graphicsVar w)
                                   (mkFont bmp widthSource height firstChar)
                                   (calls w) (polls w) in
                  let gfx := set_fontSize gfx JSGRAPHICS_FONTSIZE_CUSTOM in
                  graphicsSetVar gfx w
            end
      | _ => emit (Exception "Font bitmap must be a String") w
      end
  end.

(** ** drawString and stringWidth with a custom font *)

(** The scan of the width string: [wit] are the widths the iterator
    has not passed and [index] its position.  The result is the
    iterator where the scan stops and the widths summed. *)
Fixpoint width_scan (wit : list Z) (index limit bmpOffset : Z) : list Z * Z :=
  match wit with
  | [] => (wit, bmpOffset)
  | c :: rest =>
      if index <? limit
      then width_scan rest (index + 1) limit
                      (to_int (bmpOffset + to_uchar (to_char c)))
      else (wit, bmpOffset)
  end.

(** "get char width and offset in string": the width of the glyph of
    [ch] and the offset of its first column, in columns. *)
Definition custom_width_offset (font : CustomFont) (ch : Z) : Z * Z :=
  let customFirstChar := to_int (customFirstChar font) in
  let width := 0 in
  let bmpOffset := 0 in
  match customWidth font with
  | WidthString s =>
      if ch >=? customFirstChar then
        let '(wit, bmpOffset) := width_scan s 0 (ch - customFirstChar) bmpOffset in
        (to_uchar (jsvStringIteratorGetChar wit), bmpOffset)
      else (width, bmpOffset)
  | WidthInt n =>
      let width := to_int n in
      (width, to_int (width * (ch - customFirstChar)))
  end.

(** Where the bits of the glyph start: [bmpOffset] after
    [bmpOffset *= customHeight], the byte the iterator [cit] starts at
    and [bmpOffset] after [bmpOffset &= 7]. *)
Definition glyph_bit_offset (font : CustomFont) (ch : Z) : Z :=
  to_int (snd (custom_width_offset font ch) * to_int (customHeight font)).

Definition glyph_start_byte (font : CustomFont) (ch : Z) : Z :=
  Z.shiftr (to_size_t (glyph_bit_offset font ch)) 3.

Definition glyph_start_bit (font : CustomFont) (ch : Z) : Z :=
  Z.land (glyph_bit_offset font ch) 7.

(** The body of the loop over [cy]: one bit of the glyph. *)
Definition glyph_bit (gfx : JsGraphicsData) (x y cx cy : Z)
    (st : list Z * Z * World) : list Z * Z * World :=
  let '(cit, bmpOffset, w) := st in
  let w :=
    if negb (Z.land (Z.shiftl (jsvStringIteratorGetChar cit) bmpOffset) 128 =? 0)
    then graphicsSetPixel (to_short (cx + x)) (to_short (cy + y)) (data_fgColor gfx) w
    else w in
  let bmpOffset := bmpOffset + 1 in
  if bmpOffset =? 8 then (tl cit, 0, w) else (cit, bmpOffset, w).

(** [for (cy=..;cy<customHeight;cy++)] with [n] rounds left. *)
Fixpoint glyph_column (gfx : JsGraphicsData) (x y cx : Z) (n : nat) (cy : Z)
    (st : list Z * Z * World) : list Z * Z * World :=
  match n with
  | O => st
  | S n' => glyph_column gfx x y cx n' (cy + 1) (glyph_bit gfx x y cx cy st)
  end.

(** [for (cx=..;cx<width;cx++)] with [n] rounds left. *)
Fixpoint glyph_columns (gfx : JsGraphicsData) (x y customHeight : Z) (n : nat) (cx : Z)
    (st : list Z * Z * World) : list Z * Z * World :=
  match n with
  | O => st
  | S n' =>
      glyph_columns gfx x y customHeight n' (cx + 1)
        (glyph_column gfx x y cx (Z.to_nat customHeight) 0 st)
  end.

(** The custom font branch of the loop of [drawString]. *)
Definition drawString_custom (gfx : JsGraphicsData) (font : CustomFont)
    (ch x y : Z) (w : World) : Z * World :=
  let customHeight := to_int (customHeight font) in
  let customFirstChar := to_int (customFirstChar font) in
  let '(width, bmpOffset) := custom_width_offset font ch in
  let w :=
    if ch >=? customFirstChar then
      let bmpOffset := to_int (bmpOffset * customHeight) in
      (* now render character *)
      let cit := iterator_at (customBitmap font) (Z.shiftr (to_size_t bmpOffset) 3) in
      let bmpOffset := Z.land bmpOffset 7 in
      let '(_, _, w) :=
        glyph_columns gfx x y customHeight (Z.to_nat width) 0 (cit, bmpOffset, w) in
      w
    else w in
  (to_int (x + width), w).

(** One round of the loop of [drawString], up to the interrupt check:
    the new [x] and the calls made. *)
Definition drawString_char (gfx : JsGraphicsData) (font : CustomFont)
    (ch x y : Z) (w : World) : Z * World :=
  if data_fontSize gfx >? 0 then
    if SAVE_ON_FLASH then (x, w)
    else
      let w' := emit (FillVectorChar (to_short x) (to_short y) (data_fontSize gfx) ch) w in
      let wd := to_int (graphicsFillVectorChar gfx (to_short x) (to_short y)
                                               (data_fontSize gfx) ch) in
      (to_int (x + wd), w')
  else if data_fontSize gfx =? JSGRAPHICS_FONTSIZE_4X6 then
    (to_int (x + 4), emit (DrawChar4x6 (to_short x) (to_short y) ch) w)
  else if data_fontSize gfx =? JSGRAPHICS_FONTSIZE_CUSTOM then
    drawString_custom gfx font ch x y w
  else (x, w).

(** [while (jsvStringIteratorHasChar(&it))]: [it] are the bytes of the
    string not yet drawn. *)
Fixpoint drawString_loop (gfx : JsGraphicsData) (font : CustomFont) (y : Z)
    (it : list Z) (x : Z) (w : World) : Z * World :=
  match it with
  | [] => (x, w)
  | c :: rest =>
      let ch := to_char c in
      let '(x, w) := drawString_char gfx font ch x y w in
      let '(stop, w) := jspIsInterrupted w in
      if stop then (x, w) else drawString_loop gfx font y rest x w
  end.

Definition jswrap_graphics_drawString (str : list Z) (x y : Z) (w : World) : World :=
  match graphicsGetFromVar w with
  | None => w
  | Some gfx => snd (drawString_loop gfx (fontVars w) y str x w)
  end.

(** The glyphs of [str] drawn one after the other with no interrupt
    check in between: what an undisturbed [drawString] of [str]
    draws. *)
Fixpoint draw_glyphs (gfx : JsGraphicsData) (font : CustomFont) (y : Z)
    (str : list Z) (x : Z) (w : World) : Z * World :=
  match str with
  | [] => (x, w)
  | c :: rest =>
      let '(x, w) := drawString_char gfx font (to_char c) x y w in
      draw_glyphs gfx font y rest x w
  end.

(** [w] after [n] more interrupt checks. *)
Definition add_polls (n : nat) (w : World) : World :=
  mkWorld (graphicsVar w) (fontVars w) (calls w) (n + polls w).

(** Modelled from the spec: [jsvGetCharInString] is declared outside
    this file; it is the character at [idx], 0 past the end. *)
Definition jsvGetCharInString (s : list Z) (idx : Z) : Z :=
  jsvStringIteratorGetChar (iterator_at s idx).

(** One round of the loop of [stringWidth]: the new [width]. *)
Definition stringWidth_char (gfx : JsGraphicsData) (font : CustomFont)
    (ch width : Z) : Z :=
  let customFirstChar := to_int (customFirstChar font) in
  if data_fontSize gfx >? 0 then
    if SAVE_ON_FLASH then width
    else to_int (width + to_int (graphicsVectorCharWidth gfx (data_fontSize gfx) ch))
  else if data_fontSize gfx =? JSGRAPHICS_FONTSIZE_4X6 then
    to_int (width + 4)
  else if data_fontSize gfx =? JSGRAPHICS_FONTSIZE_CUSTOM then
    match customWidth font with
    | WidthString s =>
        if ch >=? customFirstChar
        then to_int (width + to_uchar (jsvGetCharInString s (to_size_t (ch - customFirstChar))))
        else width
    | WidthInt n => to_int (width + to_int n)
    end
  else width.

Fixpoint stringWidth_loop (gfx : JsGraphicsData) (font : CustomFont)
    (it : list Z) (width : Z) : Z :=
  match it with
  | [] => width
  | c :: rest => stringWidth_loop gfx font rest (stringWidth_char gfx font (to_char c) width)
  end.

Definition jswrap_graphics_stringWidth (str : list Z) (w : World) : Z :=
  match graphicsGetFromVar w with
  | None => 0
  | Some gfx => stringWidth_loop gfx (fontVars w) str 0
  end.

(** ** drawImage *)

(** The image object: [image_transparent] is [None] when the field is
    absent and [image_buffer] is [None] when the field is not an
    ArrayBuffer; a buffer is the list of its bytes. *)
Record Image : Type := mkImage {
  image_width : Z;
  image_height : Z;
  image_bpp : Z;
  image_transparent : option Z;
  image_buffer : option (list Z)
}.

(** [a << n] in [long].  C leaves a shift by a negative count, or by
    the width of the type or more, undefined: [None]. *)
Definition long_shl (a n : Z) : option Z :=
  if (0 <=? n) && (n <? LONG_BITS)
  then Some (to_signed LONG_BITS (a * 2 ^ n))
  else None.

(** [(unsigned int)((1L<<imageBpp)-1L)]. *)
Definition imageBitMask (imageBpp : Z) : option Z :=
  match long_shl 1 imageBpp with
  | None => None
  | Some v => Some (to_uint (to_signed LONG_BITS (v - 1)))
  end.

(** "Get the data we need": [while (bits < imageBpp)], with [n] rounds
    left. *)
Fixpoint drawImage_fill (n : nat) (imageBpp : Z) (st : list Z * Z * Z) : list Z * Z * Z :=
  match n with
  | O => st
  | S n' =>
      let '(it, bits, colData) := st in
      if bits <? imageBpp then
        let colData := Z.lor (to_uint (Z.shiftl colData 8))
                             (to_uchar (jsvStringIteratorGetChar it)) in
        drawImage_fill n' imageBpp (tl it, bits + 8, colData)
      else st
  end.

(** The loop over the pixels, with [fuel] rounds left; [None] when
    the rounds run out before the loop ends. *)
Fixpoint drawImage_loop (fuel : nat) (gfx : JsGraphicsData)
    (imageWidth imageHeight imageBpp imageBitMask : Z)
    (imageIsTransparent : bool) (imageTransparentCol xPos yPos : Z)
    (it : list Z) (x y bits colData : Z) (w : World) : option World :=
  if ((bits >=? imageBpp) || iterator_has_char it) && (y <? imageHeight) then
    match fuel with
    | O => None
    | S fuel' =>
        (* Get the data we need... *)
        let '(it, bits, colData) :=
          drawImage_fill (Z.to_nat imageBpp) imageBpp (it, bits, colData) in
        (* extract just the bits we want *)
        let col := Z.land (Z.shiftr colData (bits - imageBpp)) imageBitMask in
        let bits := bits - imageBpp in
        (* Try and write pixel! *)
        let w :=
          if negb imageIsTransparent || negb (imageTransparentCol =? col) then
            let col :=
              if imageBpp =? 1
              then (if negb (col =? 0) then data_fgColor gfx else data_bgColor gfx)
              else col in
            graphicsSetPixel (to_short (x + xPos)) (to_short (y + yPos)) col w
          else w in
        (* Go to next pixel *)
        let x := x + 1 in
        let '(x, y) := if x >=? imageWidth then (0, y + 1) else (x, y) in
        drawImage_loop fuel' gfx imageWidth imageHeight imageBpp imageBitMask
                       imageIsTransparent imageTransparentCol xPos yPos
                       it x y bits colData w
    end
  else Some w.

(** [image] is [None] when the argument is not an object.  The result
    is [None] when the call runs into undefined behaviour. *)
Definition jswrap_graphics_drawImage
    (image : option Image) (xPos yPos : Z) (w : World) : option World :=
  match graphicsGetFromVar w with
  | None => Some w
  | Some gfx =>
      match image with
      | None => Some (emit (Exception "Expecting first argument to be an object") w)
      | Some img =>
          let imageWidth := to_int (image_width img) in
          let imageHeight := to_int (image_height img) in
          let imageBpp := to_int (image_bpp img) in
          let imageBitMask := imageBitMask imageBpp in
          let imageIsTransparent :=
            match image_transparent img with Some _ => true | None => false end in
          let imageTransparentCol :=
            to_uint (match image_transparent img with Some c => c | None => 0 end) in
          match image_buffer img with
          | Some imageBufferString =>
              if (imageWidth >? 0) && (imageHeight >? 0) &&
                 (imageBpp >? 0) && (imageBpp <=? 32)
              then
                match imageBitMask with
                | None => None
                | Some imageBitMask =>
                    drawImage_loop (Z.to_nat (imageWidth * imageHeight)) gfx
                      imageWidth imageHeight imageBpp imageBitMask
                      imageIsTransparent imageTransparentCol xPos yPos
                      imageBufferString 0 0 0 0 w
                end
              else Some (emit (Exception "Expecting first argument to a valid Image") w)
          | None => Some (emit (Exception "Expecting first argument to a valid Image") w)
          end
      end
  end.

(** ** Definitions of the specification *)



(** The sum of a list of glyph widths. *)
Definition sum_widths (l : list Z) : Z := fold_right Z.add 0 l.

(** [w'] is [w] with calls added at the end and nothing else
    changed. *)
Definition extends (w w' : World) : Prop :=
  graphicsVar w' = graphicsVar w /\ fontVars w' = fontVars w /\
  polls w' = polls w /\ exists l, calls w' = calls w ++ l.

(** The state of the glyph loops after [n] more interrupt checks. *)
Definition lift_polls (n : nat) (st : list Z * Z * World) : list Z * Z * World :=
  let '(cit, bmpOffset, w) := st in (cit, bmpOffset, add_polls n w).

(** ** drawLine *)

Definition jswrap_graphics_drawLine (x1 y1 x2 y2 : Z) (w : World) : World :=
  match graphicsGetFromVar w with
  | None => w
  | Some gfx =>
      graphicsDrawLine (to_short x1) (to_short y1) (to_short x2) (to_short y2) w
  end.

(** [lineTo] called for each point of [pts] in turn. *)
Fixpoint lineTo_each (pts : list (Z * Z)) (w : World) : World :=
  match pts with
  | [] => w
  | (x, y) :: rest => lineTo_each rest (jswrap_graphics_lineTo x y w)
  end.

(** [drawLine] called for each segment of the path from [(x0, y0)]
    through [pts]. *)
Fixpoint drawLine_each (x0 y0 : Z) (pts : list (Z * Z)) (w : World) : World :=
  match pts with
  | [] => w
  | (x, y) :: rest => drawLine_each x y rest (jswrap_graphics_drawLine x0 y0 x y w)
  end.

(** ** getColor, getBgColor *)

(** The width of [JsVarInt], which the headers decide. *)
Variable JSVARINT_BITS : Z.

(** [(JsVarInt)(colour & ((1L<<bpp)-1))]: the colour is an
    [unsigned int] and the mask a [long]; where [long] is no wider
    than [unsigned int] both become [unsigned long], otherwise the
    colour becomes a [long].  [None] when the shift is undefined. *)
Definition jswrap_graphics_getColorX (isForeground : bool) (w : World) : option Z :=
  match graphicsGetFromVar w with
  | None => Some 0
  | Some gfx =>
      match long_shl 1 (data_bpp gfx) with
      | None => None
      | Some v =>
          let mask := to_signed LONG_BITS (v - 1) in
          let color := if isForeground then data_fgColor gfx else data_bgColor gfx in
          let masked :=
            if LONG_BITS <=? 32
            then Z.land (to_unsigned LONG_BITS color) (to_unsigned LONG_BITS mask)
            else Z.land color mask in
          Some (to_signed JSVARINT_BITS masked)
      end
  end.

(** ** setFontBitmap, setFontVector *)

(** Modelled from the spec: the children of the Graphics object are
    stored outside this file.  When the custom font children are
    removed, a later read of them finds no bitmap bytes, no width
    string and the integer 0 for the width, the height and the first
    character. *)
Definition no_custom_font : CustomFont := mkFont [] (WidthInt 0) 0 0.

Definition jswrap_graphics_setFontSizeX (size : Z) (checkValid : bool) (w : World) : World :=
  match graphicsGetFromVar w with
  | None => w
  | Some gfx =>
      let size :=
        if checkValid then
          let size := if size <? 1 then 1 else size in
          if size >? 1023 then 1023 else size
        else size in
      let w :=
        if data_fontSize gfx =? JSGRAPHICS_FONTSIZE_CUSTOM
        then mkWorld (graphicsVar w) no_custom_font (calls w) (polls w)
        else w in
      let gfx := set_fontSize gfx (to_short size) in
      graphicsSetVar gfx w
  end.

Definition jswrap_graphics_setFontBitmap (w : World) : World :=
  jswrap_graphics_setFontSizeX JSGRAPHICS_FONTSIZE_4X6 false w.

Definition jswrap_graphics_setFontVector (size : Z) (w : World) : World :=
  jswrap_graphics_setFontSizeX size true w.

(** ** createArrayBuffer, createCallback, createSDL *)

Definition isValidBPP (bpp : Z) : bool :=
  (bpp =? 1) || (bpp =? 2) || (bpp =? 4) || (bpp =? 8) ||
  (bpp =? 16) || (bpp =? 24) || (bpp =? 32).

(** What the headers and graphics.c decide for a new surface: the
    data after [graphicsStructInit] and the flags of array
    buffers. *)
Variable graphicsStructInit : JsGraphicsData.
Variables JSGRAPHICSFLAGS_NONE JSGRAPHICSFLAGS_ARRAYBUFFER_ZIGZAG
          JSGRAPHICSFLAGS_ARRAYBUFFER_VERTICAL_BYTE : Z.

(** How a creation ends: with a warning or an exception and no
    object, with no object for lack of memory, or with an object
    whose persisted data is [data], after the warnings given. *)
Inductive Created : Type :=
| CreateWarned (msg : string)
| CreateThrew (msg : string)
| CreateNoMemory
| CreateOk (warnings : list string) (data : JsGraphicsData).

Definition set_geometry (d : JsGraphicsData) (width height bpp : Z) : JsGraphicsData :=
  mkData (to_unsigned 16 width) (to_unsigned 16 height) (to_uchar bpp) (data_flags d)
         (data_fgColor d) (data_bgColor d) (data_cursorX d) (data_cursorY d)
         (data_fontSize d).

(** [options] is [None] when the argument is not an object, and
    otherwise the truth of its [zigzag] and [vertical_byte] fields;
    [memory] tells whether [jspNewObject] gives an object. *)
Definition jswrap_graphics_createArrayBuffer
    (width height bpp : Z) (options : option (bool * bool)) (memory : bool) : Created :=
  if (width <=? 0) || (height <=? 0) || (width >? 1023) || (height >? 1023) then
    CreateWarned "Invalid Size"
  else if negb (isValidBPP bpp) then
    CreateWarned "Invalid BPP"
  else if negb memory then CreateNoMemory (* low memory *)
  else
    let gfx := graphicsStructInit in
    let gfx := set_flags gfx JSGRAPHICSFLAGS_NONE in
    let gfx := set_geometry gfx width height bpp in
    match options with
    | Some (zigzag, vertical_byte) =>
        let gfx :=
          if zigzag
          then set_flags gfx (Z.lor (data_flags gfx) JSGRAPHICSFLAGS_ARRAYBUFFER_ZIGZAG)
          else gfx in
        if vertical_byte then
          if data_bpp gfx =? 1 then
            CreateOk [] (set_flags gfx (Z.lor (data_flags gfx)
                                              JSGRAPHICSFLAGS_ARRAYBUFFER_VERTICAL_BYTE))
          else
            CreateOk ["vertical_byte only works for 1bpp ArrayBuffers
"%string] gfx
        else CreateOk [] gfx
    | None => CreateOk [] gfx
    end.

(** What [jsvIsFunction] and [jsvIsUndefined] see of a value. *)
Inductive JsKind : Type :=
| KindUndefined
| KindFunction
| KindOther.

(** The [callback] argument: an object with its [setPixel] and
    [fillRect] fields, or another value. *)
Inductive CallbackArg : Type :=
| CallbackObject (setPixel fillRect : JsKind)
| CallbackValue (value : JsKind).

Definition jsvIsFunction (k : JsKind) : bool :=
  match k with KindFunction => true | _ => false end.

Definition jswrap_graphics_createCallback
    (width height bpp : Z) (callback : CallbackArg) (memory : bool) : Created :=
  if (width <=? 0) || (height <=? 0) || (width >? 1023) || (height >? 1023) then
    CreateWarned "Invalid Size"
  else if negb (isValidBPP bpp) then
    CreateWarned "Invalid BPP"
  else
    let '(callbackSetPixel, callbackFillRect) :=
      match callback with
      | CallbackObject setPixel fillRect => (setPixel, fillRect)
      | CallbackValue value => (value, KindUndefined)
      end in
    if negb (jsvIsFunction callbackSetPixel) then
      CreateThrew "Expecting Callback Function or an Object but got %t"
    else if negb (match callbackFillRect with KindUndefined => true | _ => false end) &&
            negb (jsvIsFunction callbackFillRect) then
      CreateThrew "Expecting Callback Function or an Object but got %t"
    else if negb memory then CreateNoMemory (* low memory *)
    else CreateOk [] (set_geometry graphicsStructInit width height bpp).

Definition jswrap_graphics_createSDL (width height : Z) (memory : bool) : Created :=
  if (width <=? 0) || (height <=? 0) || (width >? 1023) || (height >? 1023) then
    CreateWarned "Invalid Size"
  else if negb memory then CreateNoMemory (* low memory *)
  else
    let gfx := set_geometry graphicsStructInit width height 0 in
    CreateOk [] (mkData (data_width gfx) (data_height gfx) 32 (data_flags gfx)
                        (data_fgColor gfx) (data_bgColor gfx) (data_cursorX gfx)
                        (data_cursorY gfx) (data_fontSize gfx)).

(** ** Definitions of the specification, continued *)

(** The line segments of the path from [(x0, y0)] through [pts], the
    points cast to [short]. *)
Fixpoint path_segments (x0 y0 : Z) (pts : list (Z * Z)) : list Call :=
  match pts with
  | [] => []
  | (x, y) :: rest =>
      DrawLine x0 y0 (to_short x) (to_short y) ::
      path_segments (to_short x) (to_short y) rest
  end.

(** The width, the height and the depth a surface was created
    with. *)
Definition surface_geometry (w : World) : option (Z * Z * Z) :=
  option_map (fun gfx => (data_width gfx, data_height gfx, data_bpp gfx))
             (graphicsVar w).


(** ** Packed streams, as lists *)

(** [w] with the calls [l] added at the end. *)
Definition add_calls (l : list Call) (w : World) : World :=
  mkWorld (graphicsVar w) (fontVars w) (calls w ++ l) (polls w).

(** The [m] lowest fields of [bpp] bits of [c], the highest first. *)
Fixpoint low_samples (bpp : Z) (m : nat) (c : Z) : list Z :=
  match m with
  | O => []
  | S m' => (c / 2 ^ (bpp * Z.of_nat m')) mod 2 ^ bpp :: low_samples bpp m' c
  end.

(** The samples of a byte stream whose depth divides 8: each byte
    gives [8 / bpp] samples, the most significant first. *)
Definition unpack_samples (bpp : Z) (buf : list Z) : list Z :=
  flat_map (low_samples bpp (Z.to_nat (8 / bpp))) buf.

(** The pixels of a [w] by [h] image, row after row. *)
Definition row_major (w h : nat) : list (Z * Z) :=
  flat_map (fun y => map (fun x => (Z.of_nat x, Z.of_nat y)) (seq 0 w)) (seq 0 h).

(** The pixels of a [w] by [h] glyph, column after column. *)
Definition column_major (w h : nat) : list (Z * Z) :=
  flat_map (fun x => map (fun y => (Z.of_nat x, Z.of_nat y)) (seq 0 h)) (seq 0 w).

(** What [drawImage] writes for the sample [s] at [(x, y)]: nothing
    for the transparent colour, the foreground or background colour
    at depth 1, the sample itself otherwise. *)
Definition image_calls (gfx : JsGraphicsData) (bpp : Z) (transparent : option Z)
    (xPos yPos : Z) (pixels : list (Z * Z * Z)) : list Call :=
  map (fun p : Z * Z * Z =>
         let '(x, y, s) := p in
         SetPixel (to_short (x + xPos)) (to_short (y + yPos))
                  (if bpp =? 1
                   then (if s =? 0 then data_bgColor gfx else data_fgColor gfx)
                   else s))
      (filter (fun p : Z * Z * Z =>
                 match transparent with
                 | Some c => negb (to_uint c =? snd p)
                 | None => true
                 end)
              pixels).

(** [imageIsTransparent] and [imageTransparentCol] of an image whose
    [transparent] field is [transparent]. *)
Definition image_is_transparent (transparent : option Z) : bool :=
  match transparent with Some _ => true | None => false end.

Definition image_transparent_col (transparent : option Z) : Z :=
  to_uint (match transparent with Some c => c | None => 0 end).

(** The pixels the loop of [drawImage] has still to visit from
    [(x, y)] on. *)
Inductive pixels_from (imageWidth imageHeight : Z) : Z -> Z -> list (Z * Z) -> Prop :=
| pixels_done (x y : Z) :
    imageHeight <= y -> pixels_from imageWidth imageHeight x y []
| pixels_same_row (x y : Z) (l : list (Z * Z)) :
    y < imageHeight -> x + 1 < imageWidth ->
    pixels_from imageWidth imageHeight (x + 1) y l ->
    pixels_from imageWidth imageHeight x y ((x, y) :: l)
| pixels_next_row (x y : Z) (l : list (Z * Z)) :
    y < imageHeight -> imageWidth <= x + 1 ->
    pixels_from imageWidth imageHeight 0 (y + 1) l ->
    pixels_from imageWidth imageHeight x y ((x, y) :: l).

(** The bits of a byte, the most significant first, and of a byte
    stream. *)
Definition byte_bits (b : Z) : list bool :=
  map (fun j => Z.testbit b (7 - Z.of_nat j)) (seq 0 8).

Definition stream_bits (buf : list Z) : list bool := flat_map byte_bits buf.

(** The bits an iterator at [cit] has still to give when [bmpOffset]
    bits of its current byte are used. *)
Definition rest_bits (cit : list Z) (bmpOffset : Z) : list bool :=
  match cit with
  | [] => []
  | b :: t => skipn (Z.to_nat bmpOffset) (byte_bits b) ++ stream_bits t
  end.

(** What the custom font decoder writes for a glyph at [(x, y)]: the
    pixels whose bit is set. *)
Definition glyph_calls (gfx : JsGraphicsData) (x y : Z)
    (pixels : list (Z * Z * bool)) : list Call :=
  map (fun p : Z * Z * bool =>
         let '(cx, cy, _) := p in
         SetPixel (to_short (cx + x)) (to_short (cy + y)) (data_fgColor gfx))
      (filter (fun p : Z * Z * bool => snd p) pixels).

(** How far one character moves [x] with a bitmap font: 4 with the
    4x6 font, the width of its glyph with a custom font. *)
Definition char_advance (gfx : JsGraphicsData) (font : CustomFont) (ch : Z) : Z :=
  if data_fontSize gfx =? JSGRAPHICS_FONTSIZE_4X6 then 4
  else if data_fontSize gfx =? JSGRAPHICS_FONTSIZE_CUSTOM
       then fst (custom_width_offset font ch)
       else 0.

(** The width of the glyph of [ch] in a width string [s] of a font
    whose first character is [firstChar]: nothing before the first
    character and past the end of the string. *)
Definition table_width (s : list Z) (firstChar ch : Z) : Z :=
  if ch <? firstChar then 0 else nth (Z.to_nat (ch - firstChar)) s 0.

(** The value of a list of bytes, the first the most significant,
    after the value [acc]. *)
Definition be_value_from (acc : Z) (l : list Z) : Z :=
  fold_left (fun a b => a * 256 + b) l acc.

(** The samples of a byte stream whose depth is [k] whole bytes, by
    [n] rounds: each sample is the next [k] bytes, the first the
    most significant; when fewer than [k] bytes are left the sample
    is completed with zero bytes. *)
Fixpoint wide_samples (n k : nat) (buf : list Z) : list Z :=
  match n with
  | O => []
  | S n' =>
      match buf with
      | [] => []
      | _ :: _ =>
          be_value_from 0 (firstn k (buf ++ repeat 0 k)) ::
          wide_samples n' k (skipn k buf)
      end
  end.

(** One byte shifted into the accumulator of [drawImage]. *)
Definition shift_in (colData b : Z) : Z := Z.lor (to_uint (Z.shiftl colData 8)) b.

(** ** Sample data *)

(** A 128 by 64 surface of depth 1 with the cursor at the origin and
    the custom font selected, when the font size codes are -1 for the
    4x6 font and -2 for a custom font. *)
Definition sample_gfx : JsGraphicsData := mkData 128 64 1 0 1 0 0 0 (-2).

(** A custom font of uniform width 5 and height 7 that starts at the
    space character, with an empty bitmap. *)
Definition sample_font : CustomFont := mkFont [] (WidthInt 5) 7 32.

(** A custom font with the glyphs of the characters 32, 33 and 34, of
    widths 3, 4 and 5 and of height 2. *)
Definition sample_font_widths : CustomFont :=
  mkFont [0xF0; 0xFF; 0x03; 0xFF] (WidthString [3; 4; 5]) 2 32.

Definition sample_world : World := mkWorld (Some sample_gfx) sample_font [] 0.

(** The same surface at depth 32. *)
Definition sample_gfx32 : JsGraphicsData := mkData 128 64 32 0 1 0 0 0 (-2).

Definition sample_world32 : World := mkWorld (Some sample_gfx32) sample_font [] 0.

(** The same surface with the 4x6 font selected. *)
Definition sample_gfx_4x6 : JsGraphicsData := mkData 128 64 1 0 1 0 0 0 (-1).

Definition sample_world_4x6 : World := mkWorld (Some sample_gfx_4x6) sample_font [] 0.

(** A custom font of one glyph, 'A', one pixel wide and high, set. *)
Definition sample_font_A : CustomFont := mkFont [0x80] (WidthInt 1) 1 65.

Definition sample_world_A : World := mkWorld (Some sample_gfx) sample_font_A [] 0.

(** A 1 by 1 image of depth 32. *)
Definition sample_image32 : Image := mkImage 1 1 32 None (Some [1; 2; 3; 4]).

(** No vector font, and an interrupt raised before the second
    check. *)
Definition no_vector_char : JsGraphicsData -> Z -> Z -> Z -> Z -> Z :=
  fun _ _ _ _ _ => 0.
Definition no_vector_width : JsGraphicsData -> Z -> Z -> Z := fun _ _ _ => 0.
Definition interrupt_at_second_check : nat -> bool := fun n => Nat.eqb n 1.

(** A 4 by 1 image of depth 2 whose colour 0 is transparent, and a
    2 by 1 image of depth 16. *)
Definition sample_image2 : Image := mkImage 4 1 2 (Some 0) (Some [0x1B]).

Definition sample_image16 : Image :=
  mkImage 2 1 16 None (Some [0x12; 0x34; 0x56; 0x78]).

(** The sample surface with the font of three glyphs, at depth 16,
    and an object that holds no surface. *)
Definition sample_world_widths : World :=
  mkWorld (Some sample_gfx) sample_font_widths [] 0.

Definition sample_gfx16 : JsGraphicsData := mkData 128 64 16 0 1 0 0 0 (-2).

Definition sample_world16 : World := mkWorld (Some sample_gfx16) sample_font [] 0.

Definition sample_world_none : World := mkWorld None sample_font [] 0.

(** No interrupt is ever raised. *)
Definition never_interrupted : nat -> bool := fun _ => false.

(** * Properties *)

(** ** Casts *)

Lemma to_signed_small (w z : Z) :
  0 < w -> - 2 ^ (w - 1) <= z < 2 ^ (w - 1) -> to_signed w z = z.
Proof.
  intros Hw Hz. unfold to_signed.
  assert (E : 2 ^ w = 2 * 2 ^ (w - 1)).
  { replace w with (Z.succ (w - 1)) at 1 by lia. apply Z.pow_succ_r. lia. }
  assert (P : 0 < 2 ^ (w - 1)) by (apply Z.pow_pos_nonneg; lia).
  destruct (Z_lt_le_dec z 0) as [Hneg | Hpos].
  - replace (z mod 2 ^ w) with (z + 2 ^ w).
    + destruct (Z.ltb_spec (z + 2 ^ w) (2 ^ (w - 1))); lia.
    + apply Z.mod_unique with (q := -1); lia.
  - rewrite Z.mod_small by lia.
    destruct (Z.ltb_spec z (2 ^ (w - 1))); lia.
Qed.

Lemma to_int_small (z : Z) : is_int z -> to_int z = z.
Proof. intros H. apply to_signed_small; [lia | exact H]. Qed.

Lemma to_short_small (z : Z) : is_short z -> to_short z = z.
Proof. intros H. apply to_signed_small; [lia | exact H]. Qed.

Lemma to_uint_small (z : Z) : 0 <= z < 2 ^ 32 -> to_uint z = z.
Proof. intros H. apply Z.mod_small. exact H. Qed.

Lemma to_uchar_small (z : Z) : is_byte z -> to_uchar z = z.
Proof. intros H. apply Z.mod_small. exact H. Qed.

Lemma to_uchar_range (z : Z) : is_byte (to_uchar z).
Proof. unfold to_uchar, to_unsigned. apply Z.mod_pos_bound. reflexivity. Qed.

(** A byte read as a [char] and cast to [unsigned char] is the byte,
    whether [char] is signed or not. *)
Lemma to_uchar_to_char (b : Z) : is_byte b -> to_uchar (to_char b) = b.
Proof.
  intros Hb. unfold to_char, is_byte in *.
  unfold to_uchar, to_unsigned, to_signed.
  change (2 ^ 8) with 256. change (2 ^ (8 - 1)) with 128.
  destruct char_is_signed.
  - rewrite (Z.mod_small b) by lia.
    destruct (Z.ltb_spec b 128).
    + apply Z.mod_small. lia.
    + symmetry. apply Z.mod_unique with (q := -1); lia.
  - rewrite Z.mod_mod by lia. apply Z.mod_small. lia.
Qed.

(** Arithmetic with the powers of two evaluated. *)
Ltac pow_lia :=
  repeat match goal with
         | |- context [2 ^ Z.pos ?p] =>
             let v := eval compute in (2 ^ Z.pos p) in change (2 ^ Z.pos p) with v
         | H : context [2 ^ Z.pos ?p] |- _ =>
             let v := eval compute in (2 ^ Z.pos p) in change (2 ^ Z.pos p) with v in H
         end;
  lia.

(** ** Transform flags *)

Lemma flag_testbit (b i : Z) :
  0 <= b -> Z.testbit (Z.shiftl 1 b) i = (b =? i).
Proof.
  intros Hb. rewrite Z.shiftl_1_l. apply Z.pow2_bits_eqb. exact Hb.
Qed.

Lemma land_flag_eq0 (f b : Z) :
  0 <= b -> (Z.land f (Z.shiftl 1 b) =? 0) = negb (Z.testbit f b).
Proof.
  intros Hb. destruct (Z.testbit f b) eqn:E; simpl.
  - apply Z.eqb_neq. intros H.
    assert (T : Z.testbit (Z.land f (Z.shiftl 1 b)) b = false)
      by (rewrite H; apply Z.bits_0).
    rewrite Z.land_spec, flag_testbit, E, Z.eqb_refl in T by exact Hb.
    discriminate.
  - apply Z.eqb_eq. apply Z.bits_inj'. intros i Hi.
    rewrite Z.land_spec, flag_testbit, Z.bits_0 by exact Hb.
    destruct (Z.eqb_spec b i) as [-> | _].
    + rewrite E. reflexivity.
    + apply andb_false_r.
Qed.

Ltac flag_bits :=
  repeat first
    [ rewrite Z.lxor_spec | rewrite Z.lor_spec | rewrite Z.land_spec
    | rewrite Z.lnot_spec by lia | rewrite flag_testbit by lia ].

Ltac eqb_cases :=
  repeat match goal with
         | |- context [?a =? ?b] => destruct (Z.eqb_spec a b); try lia
         end.

Ltac bool_simpl :=
  simpl; rewrite ?andb_true_r, ?andb_false_r, ?orb_true_r, ?orb_false_r; simpl.

Ltac flags_solve :=
  rewrite ?land_flag_eq0 by lia;
  repeat (flag_bits; eqb_cases; bool_simpl);
  try reflexivity;
  repeat match goal with
         | |- context [Z.testbit ?f ?j] => destruct (Z.testbit f j); bool_simpl
         end;
  try reflexivity.

(** Every bit of the flags after [setRotation], for every rotation
    value (a value outside 0..3 sets no flag). *)
Lemma setRotation_flags_testbit (flags rotation : Z) (reflect : bool) (i : Z) :
  flag_bits_distinct ->
  Z.testbit (setRotation_flags flags rotation reflect) i =
  if i =? swap_xy_bit then table_swap_xy rotation
  else if i =? invert_x_bit then
    xorb (table_invert_x rotation) (reflect && negb (table_swap_xy rotation))
  else if i =? invert_y_bit then
    xorb (table_invert_y rotation) (reflect && table_swap_xy rotation)
  else Z.testbit flags i.
Proof.
  intros (Hs & Hx & Hy & Hsx & Hsy & Hxy).
  destruct (Z_lt_le_dec i 0) as [Hneg | Hpos].
  { rewrite !Z.testbit_neg_r by exact Hneg. eqb_cases; reflexivity. }
  unfold setRotation_flags, table_swap_xy, table_invert_x, table_invert_y,
    JSGRAPHICSFLAGS_SWAP_XY, JSGRAPHICSFLAGS_INVERT_X, JSGRAPHICSFLAGS_INVERT_Y.
  destruct (Z.eqb_spec rotation 0) as [-> | N0];
    [ | destruct (Z.eqb_spec rotation 1) as [-> | N1];
        [ | destruct (Z.eqb_spec rotation 2) as [-> | N2];
            [ | destruct (Z.eqb_spec rotation 3) as [-> | N3] ] ] ];
    simpl; destruct reflect; flags_solve.
Qed.

Lemma setRotation_flags_idempotent (flags rotation : Z) (reflect : bool) :
  flag_bits_distinct ->
  setRotation_flags (setRotation_flags flags rotation reflect) rotation reflect =
  setRotation_flags flags rotation reflect.
Proof.
  intros Hd. apply Z.bits_inj. intros i.
  rewrite !setRotation_flags_testbit by exact Hd.
  eqb_cases; reflexivity.
Qed.

Lemma setRotation_flags_reflect_differs (flags rotation : Z) :
  flag_bits_distinct ->
  setRotation_flags flags rotation true <> setRotation_flags flags rotation false.
Proof.
  intros Hd E.
  assert (Ex := f_equal (fun f => Z.testbit f invert_x_bit) E).
  assert (Ey := f_equal (fun f => Z.testbit f invert_y_bit) E).
  cbv beta in Ex, Ey. rewrite !setRotation_flags_testbit in Ex, Ey by exact Hd.
  destruct Hd as (Hs & Hx & Hy & Hsx & Hsy & Hxy).
  rewrite Z.eqb_refl in Ex, Ey.
  destruct (Z.eqb_spec invert_x_bit swap_xy_bit); [lia | ].
  destruct (Z.eqb_spec invert_y_bit swap_xy_bit); [lia | ].
  destruct (Z.eqb_spec invert_y_bit invert_x_bit); [lia | ].
  destruct (table_swap_xy rotation), (table_invert_x rotation),
    (table_invert_y rotation); discriminate.
Qed.

(** C3: [setRotation] leaves in the persisted flags exactly the
    swap-xy, invert-x and invert-y bits of the table (rotation 0:
    none; 1: swap-xy and invert-x; 2: invert-x and invert-y; 3:
    swap-xy and invert-y), with invert-y toggled by [reflect] when
    swap-xy is set and invert-x toggled otherwise; every other bit of
    the flags, and every other field of the surface, is as before.
    The flags are read back from the surface the object holds after
    the call. *)
Theorem setRotation_sets_table_flags
    (w : World) (gfx : JsGraphicsData) (rotation : Z) (reflect : bool) :
  flag_bits_distinct ->
  graphicsVar w = Some gfx ->
  0 <= rotation <= 3 ->
  (map (fun r => (table_swap_xy r, table_invert_x r, table_invert_y r)) [0; 1; 2; 3] =
    [(false, false, false); (true, true, false);
     (false, true, true); (true, false, true)]) /\
  exists flags',
    jswrap_graphics_setRotation rotation reflect w =
      graphicsSetVar (set_flags gfx flags') w /\
    Z.testbit flags' swap_xy_bit = table_swap_xy rotation /\
    Z.testbit flags' invert_x_bit =
      xorb (table_invert_x rotation) (reflect && negb (table_swap_xy rotation)) /\
    Z.testbit flags' invert_y_bit =
      xorb (table_invert_y rotation) (reflect && table_swap_xy rotation) /\
    (forall i, i <> swap_xy_bit -> i <> invert_x_bit -> i <> invert_y_bit ->
               Z.testbit flags' i = Z.testbit (data_flags gfx) i) /\
    exists gfx',
      graphicsVar (jswrap_graphics_setRotation rotation reflect w) = Some gfx' /\
      data_flags gfx' = flags' /\
      Z.testbit (data_flags gfx') swap_xy_bit = table_swap_xy rotation /\
      Z.testbit (data_flags gfx') invert_x_bit =
        xorb (table_invert_x rotation) (reflect && negb (table_swap_xy rotation)) /\
      Z.testbit (data_flags gfx') invert_y_bit =
        xorb (table_invert_y rotation) (reflect && table_swap_xy rotation) /\
      (forall i, i <> swap_xy_bit -> i <> invert_x_bit -> i <> invert_y_bit ->
                 Z.testbit (data_flags gfx') i = Z.testbit (data_flags gfx) i) /\
      data_width gfx' = data_width gfx /\
      data_height gfx' = data_height gfx /\
      data_bpp gfx' = data_bpp gfx /\
      data_fgColor gfx' = data_fgColor gfx /\
      data_bgColor gfx' = data_bgColor gfx /\
      data_cursorX gfx' = data_cursorX gfx /\
      data_cursorY gfx' = data_cursorY gfx /\
      data_fontSize gfx' = data_fontSize gfx.
Proof.
  intros Hd Hw _. split; [reflexivity | ].
  exists (setRotation_flags (data_flags gfx) rotation reflect).
  unfold jswrap_graphics_setRotation, graphicsGetFromVar. rewrite Hw.
  assert (Hd' := Hd). destruct Hd' as (Hs & Hx & Hy & Hsx & Hsy & Hxy).
  assert (Bs : Z.testbit (setRotation_flags (data_flags gfx) rotation reflect)
                 swap_xy_bit = table_swap_xy rotation).
  { rewrite setRotation_flags_testbit by exact Hd. eqb_cases; reflexivity. }
  assert (Bx : Z.testbit (setRotation_flags (data_flags gfx) rotation reflect)
                 invert_x_bit =
               xorb (table_invert_x rotation) (reflect && negb (table_swap_xy rotation))).
  { rewrite setRotation_flags_testbit by exact Hd. eqb_cases; reflexivity. }
  assert (By : Z.testbit (setRotation_flags (data_flags gfx) rotation reflect)
                 invert_y_bit =
               xorb (table_invert_y rotation) (reflect && table_swap_xy rotation)).
  { rewrite setRotation_flags_testbit by exact Hd. eqb_cases; reflexivity. }
  assert (Bo : forall i, i <> swap_xy_bit -> i <> invert_x_bit -> i <> invert_y_bit ->
                 Z.testbit (setRotation_flags (data_flags gfx) rotation reflect) i =
                 Z.testbit (data_flags gfx) i).
  { intros i H1 H2 H3.
    rewrite setRotation_flags_testbit by exact Hd. eqb_cases; reflexivity. }
  split; [reflexivity | ].
  split; [exact Bs | ]. split; [exact Bx | ]. split; [exact By | ].
  split; [exact Bo | ].
  exists (set_flags gfx (setRotation_flags (data_flags gfx) rotation reflect)).
  split; [reflexivity | ].
  cbn [set_flags data_flags data_width data_height data_bpp data_fgColor
       data_bgColor data_cursorX data_cursorY data_fontSize].
  split; [reflexivity | ].
  split; [exact Bs | ]. split; [exact Bx | ]. split; [exact By | ].
  split; [exact Bo | ].
  repeat split.
Qed.

(** C4, as amended: for every rotation and either value of [reflect],
    a second [setRotation] with the same arguments changes nothing,
    because every call first clears the three transform flags; the
    flags after [setRotation(r, true)], called once or twice, differ
    from those after [setRotation(r, false)]. *)
Theorem setRotation_twice_is_once
    (w : World) (gfx : JsGraphicsData) (rotation : Z) (reflect : bool) :
  flag_bits_distinct ->
  graphicsVar w = Some gfx ->
  jswrap_graphics_setRotation rotation reflect
    (jswrap_graphics_setRotation rotation reflect w) =
  jswrap_graphics_setRotation rotation reflect w /\
  jswrap_graphics_setRotation rotation true
    (jswrap_graphics_setRotation rotation true w) <>
  jswrap_graphics_setRotation rotation false w.
Proof.
  intros Hd Hw.
  assert (Idem : forall b,
    jswrap_graphics_setRotation rotation b (jswrap_graphics_setRotation rotation b w) =
    jswrap_graphics_setRotation rotation b w).
  { intros b. unfold jswrap_graphics_setRotation, graphicsGetFromVar. rewrite Hw.
    simpl. rewrite setRotation_flags_idempotent by exact Hd. reflexivity. }
  split; [apply Idem | ].
  rewrite Idem. unfold jswrap_graphics_setRotation, graphicsGetFromVar. rewrite Hw.
  intros E. apply (setRotation_flags_reflect_differs (data_flags gfx) rotation Hd).
  unfold graphicsSetVar in E. injection E as E. exact E.
Qed.

(** After [setRotation(1, false)] or [setRotation(3, false)],
    [getWidth] reports the stored height and [getHeight] the stored
    width; after rotation 0 or 2 they report the stored ones. *)
Lemma getWidthOrHeight_after_setRotation
    (w : World) (gfx : JsGraphicsData) (rotation : Z) (reflect height : bool) :
  flag_bits_distinct ->
  graphicsVar w = Some gfx ->
  jswrap_graphics_getWidthOrHeight height
    (jswrap_graphics_setRotation rotation reflect w) =
  if xorb height (table_swap_xy rotation) then data_height gfx else data_width gfx.
Proof.
  intros Hd Hw.
  unfold jswrap_graphics_getWidthOrHeight, jswrap_graphics_setRotation,
    graphicsGetFromVar.
  rewrite Hw. cbn [graphicsSetVar graphicsVar set_flags data_flags data_height data_width].
  unfold JSGRAPHICSFLAGS_SWAP_XY.
  rewrite land_flag_eq0 by (destruct Hd; assumption).
  rewrite setRotation_flags_testbit by exact Hd.
  rewrite Z.eqb_refl.
  destruct (table_swap_xy rotation), height; reflexivity.
Qed.

(** ** Colour quantizer *)

Lemma lor_shiftl_add (a b n : Z) :
  0 <= n -> 0 <= a < 2 ^ n -> Z.lor a (Z.shiftl b n) = a + b * 2 ^ n.
Proof.
  intros Hn Ha.
  assert (D : Z.land a (Z.shiftl b n) = 0).
  { apply Z.bits_inj'. intros i Hi. rewrite Z.land_spec, Z.bits_0.
    destruct (Z_lt_le_dec i n) as [Lt | Ge].
    - rewrite Z.shiftl_spec_low by exact Lt. apply andb_false_r.
    - rewrite <- (Z.mod_small a (2 ^ n)) by exact Ha.
      rewrite Z.mod_pow2_bits_high by lia. reflexivity. }
  rewrite <- Z.lxor_lor by exact D.
  rewrite <- Z.add_nocarry_lxor by exact D.
  rewrite Z.shiftl_mul_pow2 by exact Hn. reflexivity.
Qed.






(** ** What the calls persist *)

Lemma moveTo_persists_cursor (w : World) (gfx : JsGraphicsData) (x y : Z) :
  graphicsVar w = Some gfx ->
  graphicsVar (jswrap_graphics_moveTo x y w) =
    Some (set_cursorY (set_cursorX gfx (to_short x)) (to_short y)).
Proof.
  intros Hw. unfold jswrap_graphics_moveTo, graphicsGetFromVar. rewrite Hw.
  reflexivity.
Qed.

Lemma lineTo_persists_cursor (w : World) (gfx : JsGraphicsData) (x y : Z) :
  graphicsVar w = Some gfx ->
  graphicsVar (jswrap_graphics_lineTo x y w) =
    Some (set_cursorY (set_cursorX gfx (to_short x)) (to_short y)).
Proof.
  intros Hw. unfold jswrap_graphics_lineTo, graphicsGetFromVar. rewrite Hw.
  reflexivity.
Qed.

Lemma setColorX_persists_color
    (w w' : World) (gfx : JsGraphicsData) (r g b : JsVar) (isForeground : bool) :
  graphicsVar w = Some gfx ->
  jswrap_graphics_setColorX r g b isForeground w = Some w' ->
  exists color,
    setColorX_color (data_bpp gfx) r g b = Some color /\
    graphicsVar w' =
      Some (if isForeground then set_fgColor gfx color else set_bgColor gfx color).
Proof.
  intros Hw. unfold jswrap_graphics_setColorX, graphicsGetFromVar. rewrite Hw.
  destruct (setColorX_color (data_bpp gfx) r g b) as [color | ]; [ | discriminate].
  intros E. injection E as <-. exists color. split; reflexivity.
Qed.

(** [setPixel] draws and returns: what the Graphics object holds is
    what it held before, whatever the arguments. *)
Lemma setPixel_leaves_graphicsVar (w : World) (x y : Z) (color : JsVar) :
  graphicsVar (jswrap_graphics_setPixel x y color w) = graphicsVar w.
Proof.
  unfold jswrap_graphics_setPixel, graphicsGetFromVar.
  destruct (graphicsVar w) eqn:E; simpl; exact E.
Qed.

(** ** Polygon vertex collector *)

Lemma fillPoly_collect_spec (items : list Z) (idx : Z) (verts : list Z) :
  0 <= idx <= maxVerts ->
  fillPoly_collect items idx verts =
    (Z.min maxVerts (idx + Z.of_nat (List.length items)),
     verts ++ map to_short (firstn (Z.to_nat (maxVerts - idx)) items)).
Proof.
  revert idx verts. unfold maxVerts.
  induction items as [ | val rest IH]; intros idx verts Hidx.
  - simpl. rewrite firstn_nil, app_nil_r. f_equal. lia.
  - cbn [fillPoly_collect]. unfold maxVerts.
    destruct (Z.ltb_spec idx 128) as [Lt | Ge].
    + rewrite IH by lia.
      replace (Z.to_nat (128 - idx)) with (S (Z.to_nat (128 - (idx + 1)))) by lia.
      cbn [firstn map List.length]. rewrite <- app_assoc. simpl app.
      f_equal. lia.
    + replace (128 - idx) with 0 by lia. simpl. rewrite app_nil_r.
      f_equal. lia.
Qed.

(** C9: [fillPoly] reads the elements of the array into the vertex
    buffer until the array ends or 128 values (64 vertices) are read,
    and draws the polygon of the pairs read; from 128 values on it
    warns first and still draws.  An array of 150 values gives the
    warning and then the polygon of the 64 vertices made of its first
    128 values. *)
Theorem fillPoly_truncates_and_draws
    (w : World) (gfx : JsGraphicsData) (items : list Z) :
  graphicsVar w = Some gfx ->
  let read := Z.min 128 (Z.of_nat (List.length items)) in
  let warning := Warn "Maximum number of points (%d) exceeded for fillPoly" 64 in
  let polygon := FillPoly (read / 2) (map to_short (firstn 128 items)) in
  List.length (firstn 128 items) = Z.to_nat read /\
  jswrap_graphics_fillPoly (Some items) w =
    emit polygon (if 128 <=? Z.of_nat (List.length items) then emit warning w else w) /\
  (List.length items = 150%nat ->
   read / 2 = 64 /\
   calls (jswrap_graphics_fillPoly (Some items) w) = calls w ++ [warning; polygon]).
Proof.
  intros Hw read warning polygon.
  assert (Run : jswrap_graphics_fillPoly (Some items) w =
    emit polygon (if 128 <=? Z.of_nat (List.length items) then emit warning w else w)).
  { unfold jswrap_graphics_fillPoly, graphicsGetFromVar. rewrite Hw.
    rewrite fillPoly_collect_spec by (unfold maxVerts; lia).
    unfold maxVerts. change (128 - 0) with 128. rewrite !Z.add_0_l.
    change (Z.to_nat 128) with 128%nat. change ([] ++ ?l) with l. fold read.
    rewrite (Z.quot_div_nonneg read 2) by (unfold read; lia).
    change (Z.quot 128 2) with 64.
    destruct (Z.eqb_spec read 128) as [E | N];
      destruct (Z.leb_spec 128 (Z.of_nat (List.length items))) as [L | L];
      unfold read in *; try lia; reflexivity. }
  split; [ | split].
  - rewrite length_firstn. unfold read. lia.
  - exact Run.
  - intros Hlen. split.
    + unfold read. rewrite Hlen. reflexivity.
    + rewrite Run. rewrite Hlen. simpl. rewrite <- app_assoc. reflexivity.
Qed.

(** ** Custom font decoder *)

Lemma sum_widths_range (l : list Z) :
  Forall is_byte l -> 0 <= sum_widths l <= 255 * Z.of_nat (List.length l).
Proof.
  induction 1 as [ | c l Hc _ IH]; simpl.
  - lia.
  - unfold is_byte in Hc. fold (sum_widths l). lia.
Qed.

Lemma firstn_is_byte (n : nat) (l : list Z) :
  Forall is_byte l -> Forall is_byte (firstn n l).
Proof.
  intros H. revert n. induction H as [ | c l Hc _ IH]; intros [ | n]; simpl;
    constructor; auto.
Qed.

Lemma hd_skipn_nth (n : nat) (l : list Z) : hd 0 (skipn n l) = nth n l 0.
Proof.
  revert l. induction n as [ | n IH]; intros [ | c l]; simpl; auto.
Qed.

Lemma width_scan_spec (wit : list Z) :
  forall index limit bmpOffset,
    Forall is_byte wit ->
    0 <= bmpOffset ->
    bmpOffset + 255 * Z.max 0 (limit - index) < 2 ^ 31 ->
    width_scan wit index limit bmpOffset =
      (skipn (Z.to_nat (limit - index)) wit,
       bmpOffset + sum_widths (firstn (Z.to_nat (limit - index)) wit)).
Proof.
  induction wit as [ | c rest IH]; intros index limit off Hb Hoff Hmax.
  - simpl. rewrite skipn_nil, firstn_nil. simpl. f_equal. lia.
  - cbn [width_scan]. inversion Hb as [ | ? ? Hc Hrest]; subst.
    destruct (Z.ltb_spec index limit) as [Lt | Ge].
    + rewrite to_uchar_to_char by exact Hc. unfold is_byte in Hc.
      rewrite to_int_small by (unfold is_int; lia).
      rewrite IH by (try assumption; lia).
      replace (Z.to_nat (limit - index)) with (S (Z.to_nat (limit - (index + 1)))) by lia.
      cbn [skipn firstn sum_widths fold_right]. f_equal.
      fold (sum_widths (firstn (Z.to_nat (limit - (index + 1))) rest)). lia.
    + replace (Z.to_nat (limit - index)) with 0%nat by lia. simpl. f_equal. lia.
Qed.

Lemma nth_is_byte (n : nat) (l : list Z) : Forall is_byte l -> is_byte (nth n l 0).
Proof.
  intros H. revert n. induction H as [ | c l Hc _ IH]; intros [ | n]; simpl; auto;
    unfold is_byte; lia.
Qed.

(** The width and the column offset of a glyph of a font with a width
    string. *)
Lemma custom_width_offset_string (font : CustomFont) (s : list Z) (ch : Z) :
  customWidth font = WidthString s ->
  Forall is_byte s ->
  0 <= customFirstChar font <= 255 ->
  customFirstChar font <= ch <= 255 ->
  custom_width_offset font ch =
    (nth (Z.to_nat (ch - customFirstChar font)) s 0,
     sum_widths (firstn (Z.to_nat (ch - customFirstChar font)) s)).
Proof.
  intros Hs Hb Hfc Hch. unfold custom_width_offset. rewrite Hs.
  rewrite to_int_small by (unfold is_int; lia).
  destruct (Z.geb_spec ch (customFirstChar font)) as [_ | Lt]; [ | lia].
  rewrite width_scan_spec by (try assumption; lia).
  rewrite Z.sub_0_r, Z.add_0_l.
  unfold jsvStringIteratorGetChar. rewrite hd_skipn_nth.
  rewrite to_uchar_to_char by (apply nth_is_byte; exact Hb). reflexivity.
Qed.

Lemma custom_width_offset_int (font : CustomFont) (n ch : Z) :
  customWidth font = WidthInt n ->
  custom_width_offset font ch =
    (to_int n, to_int (to_int n * (ch - to_int (customFirstChar font)))).
Proof.
  intros Hn. unfold custom_width_offset. rewrite Hn. reflexivity.
Qed.

Lemma shiftr3_land7 (z : Z) :
  0 <= z -> Z.shiftr z 3 = z / 8 /\ Z.land z 7 = z mod 8.
Proof.
  intros Hz. split.
  - apply Z.shiftr_div_pow2. lia.
  - change 7 with (Z.ones 3). rewrite Z.land_ones by lia. reflexivity.
Qed.

Lemma to_size_t_small (z : Z) : 32 <= SIZE_T_BITS -> 0 <= z < 2 ^ 31 -> to_size_t z = z.
Proof.
  intros Hs Hz. unfold to_size_t, to_unsigned. apply Z.mod_small.
  assert (2 ^ 31 <= 2 ^ SIZE_T_BITS) by (apply Z.pow_le_mono_r; lia). lia.
Qed.

Lemma to_int_range (z : Z) : is_int (to_int z).
Proof.
  unfold is_int, to_int, to_signed.
  assert (H := Z.mod_pos_bound z (2 ^ 32) eq_refl).
  change (2 ^ (32 - 1)) with (2 ^ 31).
  destruct (Z.ltb_spec (z mod 2 ^ 32) (2 ^ 31)); pow_lia.
Qed.

(** The custom branch of [drawString] starts its bitmap iterator at
    [glyph_start_byte] and its bit counter at [glyph_start_bit]. *)
Lemma drawString_custom_start
    (gfx : JsGraphicsData) (font : CustomFont) (ch x y : Z) (w : World) :
  to_int (customFirstChar font) <= ch ->
  drawString_custom gfx font ch x y w =
    (to_int (x + fst (custom_width_offset font ch)),
     snd (glyph_columns gfx x y (to_int (customHeight font))
            (Z.to_nat (fst (custom_width_offset font ch))) 0
            (iterator_at (customBitmap font) (glyph_start_byte font ch),
             glyph_start_bit font ch, w))).
Proof.
  intros Hch. unfold drawString_custom, glyph_start_byte, glyph_start_bit, glyph_bit_offset.
  destruct (custom_width_offset font ch) as [width bmpOffset]. cbn [fst snd].
  destruct (Z.geb_spec ch (to_int (customFirstChar font))) as [_ | Lt]; [ | lia].
  destruct (glyph_columns gfx x y (to_int (customHeight font)) (Z.to_nat width) 0 _)
    as [[cit off] w']. reflexivity.
Qed.

(** A font that [setFontCustom] stores has its first character in
    0..255 and its height in 1..255, and selects the custom font. *)
Lemma setFontCustom_stores_valid_font
    (bitmap : FontArg) (firstChar : Z) (width : FontArg) (height : Z) (w : World) :
  fontVars (jswrap_graphics_setFontCustom bitmap firstChar width height w) = fontVars w \/
  (0 <= firstChar <= 255 /\ 0 < height <= 255 /\
   exists bmp widthSource,
     bitmap = ArgString bmp /\
     fontVars (jswrap_graphics_setFontCustom bitmap firstChar width height w) =
       mkFont bmp widthSource height firstChar /\
     option_map data_fontSize
       (graphicsVar (jswrap_graphics_setFontCustom bitmap firstChar width height w)) =
       Some JSGRAPHICS_FONTSIZE_CUSTOM).
Proof.
  unfold jswrap_graphics_setFontCustom.
  destruct (graphicsGetFromVar w) as [gfx | ]; [ | left; reflexivity].
  destruct bitmap as [bmp | n | ]; try (left; reflexivity).
  destruct (Z.ltb_spec firstChar 0); [left; reflexivity | ].
  destruct (Z.gtb_spec firstChar 255); [left; reflexivity | ].
  cbn [orb].
  destruct width as [s | n | ]; [ | | left; reflexivity];
    (destruct (Z.leb_spec height 0); [left; reflexivity | ]);
    (destruct (Z.gtb_spec height 255); [left; reflexivity | ]);
    right; (split; [lia | split; [lia | ]]);
    eexists; eexists; repeat split; reflexivity.
Qed.

(** C6: for a glyph at or after the first character, the bits of the
    glyph start at bit [height * prefix] of the bitmap: with an
    integer width, [width * (ch - firstChar) * height]; with a width
    string, the sum of the widths before index [ch - firstChar] times
    the height, the width of the glyph being the entry at that index.
    The decoder starts at byte [offset / 8], bit [offset mod 8].
    With width 5, height 7 and first character 32, the glyph of 'A'
    (65) starts at bit [5 * 7 * 33]. *)
Theorem glyph_offset_is_height_times_width_prefix (font : CustomFont) (ch : Z) :
  0 <= customFirstChar font <= 255 ->
  0 < customHeight font <= 255 ->
  customFirstChar font <= ch <= 255 ->
  32 <= SIZE_T_BITS ->
  let index := ch - customFirstChar font in
  match customWidth font with
  | WidthInt width =>
      is_int width -> is_int (width * index) ->
      is_int (width * index * customHeight font) ->
      custom_width_offset font ch = (width, width * index) /\
      glyph_bit_offset font ch = width * index * customHeight font
  | WidthString s =>
      Forall is_byte s ->
      custom_width_offset font ch =
        (nth (Z.to_nat index) s 0, sum_widths (firstn (Z.to_nat index) s)) /\
      glyph_bit_offset font ch =
        sum_widths (firstn (Z.to_nat index) s) * customHeight font
  end /\
  (0 <= glyph_bit_offset font ch ->
   glyph_start_byte font ch = glyph_bit_offset font ch / 8 /\
   glyph_start_bit font ch = glyph_bit_offset font ch mod 8) /\
  (forall gfx x y w,
     drawString_custom gfx font ch x y w =
       (to_int (x + fst (custom_width_offset font ch)),
        snd (glyph_columns gfx x y (customHeight font)
               (Z.to_nat (fst (custom_width_offset font ch))) 0
               (iterator_at (customBitmap font) (glyph_start_byte font ch),
                glyph_start_bit font ch, w)))) /\
  glyph_bit_offset (mkFont (customBitmap font) (WidthInt 5) 7 32) 65 = 5 * 7 * (65 - 32).
Proof.
  intros Hfc Hh Hch Hsz index.
  assert (Ifc : to_int (customFirstChar font) = customFirstChar font)
    by (apply to_int_small; unfold is_int; lia).
  assert (Ih : to_int (customHeight font) = customHeight font)
    by (apply to_int_small; unfold is_int; lia).
  split; [ | split; [ | split ] ].
  - destruct (customWidth font) as [width | s] eqn:Hw.
    + intros Iw Iwi Iwih. unfold glyph_bit_offset.
      rewrite (custom_width_offset_int font width ch Hw).
      rewrite Ifc, Ih. fold index. cbn [snd].
      rewrite (to_int_small width) by exact Iw.
      rewrite (to_int_small (width * index)) by exact Iwi.
      rewrite to_int_small by exact Iwih. split; reflexivity.
    + intros Hb. unfold glyph_bit_offset.
      rewrite (custom_width_offset_string font s ch Hw Hb Hfc Hch).
      fold index. cbn [snd]. rewrite Ih. split; [reflexivity | ].
      apply to_int_small.
      assert (R := sum_widths_range (firstn (Z.to_nat index) s)
                     (firstn_is_byte _ _ Hb)).
      rewrite length_firstn in R. unfold is_int, index in *. nia.
  - intros Hpos. unfold glyph_start_byte, glyph_start_bit.
    rewrite to_size_t_small.
    + apply shiftr3_land7. exact Hpos.
    + exact Hsz.
    + split; [exact Hpos | ]. unfold glyph_bit_offset. apply to_int_range.
  - intros gfx x y w. rewrite drawString_custom_start by lia.
    rewrite Ih. reflexivity.
  - reflexivity.
Qed.

(** C1, as amended: with a custom font selected, a character below
    the first character of the font draws nothing.  With a width
    string it leaves [x] where it is and adds 0 to the width that
    [stringWidth] sums; with an integer width it moves [x] by that
    width, and [stringWidth] adds that width. *)
Theorem custom_char_below_first
    (gfx : JsGraphicsData) (font : CustomFont) (ch x y width : Z) (w : World) :
  data_fontSize gfx = JSGRAPHICS_FONTSIZE_CUSTOM ->
  JSGRAPHICS_FONTSIZE_CUSTOM <= 0 ->
  JSGRAPHICS_FONTSIZE_CUSTOM <> JSGRAPHICS_FONTSIZE_4X6 ->
  ch < to_int (customFirstChar font) ->
  is_int x ->
  is_int width ->
  match customWidth font with
  | WidthString _ =>
      drawString_char gfx font ch x y w = (x, w) /\
      stringWidth_char gfx font ch width = width
  | WidthInt n =>
      drawString_char gfx font ch x y w = (to_int (x + to_int n), w) /\
      stringWidth_char gfx font ch width = to_int (width + to_int n)
  end.
Proof.
  intros Hfont Hneg Hne Hch Hx Hwd.
  unfold drawString_char, stringWidth_char, drawString_custom, custom_width_offset.
  rewrite Hfont.
  destruct (Z.gtb_spec JSGRAPHICS_FONTSIZE_CUSTOM 0) as [Gt | _]; [lia | ].
  destruct (Z.eqb_spec JSGRAPHICS_FONTSIZE_CUSTOM JSGRAPHICS_FONTSIZE_4X6)
    as [Eq | _]; [contradiction | ].
  rewrite Z.eqb_refl.
  destruct (Z.geb_spec ch (to_int (customFirstChar font))) as [Ge | _]; [lia | ].
  destruct (customWidth font) as [n | s].
  - split; reflexivity.
  - rewrite Z.add_0_r. rewrite to_int_small by exact Hx. split; reflexivity.
Qed.

(** ** Drawing and the interrupt check *)

Lemma extends_refl (w : World) : extends w w.
Proof.
  unfold extends. repeat split. exists []. symmetry. apply app_nil_r.
Qed.

Lemma extends_trans (w1 w2 w3 : World) :
  extends w1 w2 -> extends w2 w3 -> extends w1 w3.
Proof.
  intros (G1 & F1 & P1 & l1 & C1) (G2 & F2 & P2 & l2 & C2).
  unfold extends. repeat split; try congruence.
  exists (l1 ++ l2). rewrite C2, C1. symmetry. apply app_assoc.
Qed.

Lemma extends_emit (c : Call) (w : World) : extends w (emit c w).
Proof. unfold extends. repeat split. exists [c]. reflexivity. Qed.

Lemma glyph_bit_extends (gfx : JsGraphicsData) (x y cx cy : Z)
    (st : list Z * Z * World) :
  extends (snd st) (snd (glyph_bit gfx x y cx cy st)).
Proof.
  destruct st as [[cit off] w]. unfold glyph_bit.
  destruct (negb _); destruct (off + 1 =? 8); cbn [snd];
    try apply extends_refl; apply extends_emit.
Qed.

Lemma glyph_column_extends (gfx : JsGraphicsData) (x y cx : Z) (n : nat) :
  forall cy st, extends (snd st) (snd (glyph_column gfx x y cx n cy st)).
Proof.
  induction n as [ | n IH]; intros cy st; simpl.
  - apply extends_refl.
  - eapply extends_trans; [apply glyph_bit_extends | apply IH].
Qed.

Lemma glyph_columns_extends (gfx : JsGraphicsData) (x y h : Z) (n : nat) :
  forall cx st, extends (snd st) (snd (glyph_columns gfx x y h n cx st)).
Proof.
  induction n as [ | n IH]; intros cx st; simpl.
  - apply extends_refl.
  - eapply extends_trans; [apply glyph_column_extends | apply IH].
Qed.

Lemma drawString_custom_extends
    (gfx : JsGraphicsData) (font : CustomFont) (ch x y : Z) (w : World) :
  extends w (snd (drawString_custom gfx font ch x y w)).
Proof.
  unfold drawString_custom.
  destruct (custom_width_offset font ch) as [width bmpOffset].
  destruct (ch >=? to_int (customFirstChar font)); cbn [snd].
  - match goal with
    | |- context [glyph_columns ?g ?a ?b ?h ?n ?c ?st] =>
        assert (E := glyph_columns_extends g a b h n c st);
        destruct (glyph_columns g a b h n c st) as [[cit off] w']
    end.
    exact E.
  - apply extends_refl.
Qed.

Lemma drawString_char_extends
    (gfx : JsGraphicsData) (font : CustomFont) (ch x y : Z) (w : World) :
  extends w (snd (drawString_char gfx font ch x y w)).
Proof.
  unfold drawString_char.
  destruct (data_fontSize gfx >? 0).
  { destruct SAVE_ON_FLASH; cbn [snd]; [apply extends_refl | apply extends_emit]. }
  destruct (data_fontSize gfx =? JSGRAPHICS_FONTSIZE_4X6).
  { apply extends_emit. }
  destruct (data_fontSize gfx =? JSGRAPHICS_FONTSIZE_CUSTOM).
  { apply drawString_custom_extends. }
  apply extends_refl.
Qed.

Lemma draw_glyphs_extends (gfx : JsGraphicsData) (font : CustomFont) (y : Z)
    (str : list Z) :
  forall x w, extends w (snd (draw_glyphs gfx font y str x w)).
Proof.
  induction str as [ | c rest IH]; intros x w; simpl.
  - apply extends_refl.
  - assert (E := drawString_char_extends gfx font (to_char c) x y w).
    destruct (drawString_char gfx font (to_char c) x y w) as [x1 w1].
    eapply extends_trans; [exact E | apply IH].
Qed.

Lemma draw_glyphs_app (gfx : JsGraphicsData) (font : CustomFont) (y : Z)
    (l1 l2 : list Z) :
  forall x w,
    draw_glyphs gfx font y (l1 ++ l2) x w =
    draw_glyphs gfx font y l2 (fst (draw_glyphs gfx font y l1 x w))
                              (snd (draw_glyphs gfx font y l1 x w)).
Proof.
  induction l1 as [ | c rest IH]; intros x w; simpl.
  - reflexivity.
  - destruct (drawString_char gfx font (to_char c) x y w) as [x1 w1]. apply IH.
Qed.

(** Drawing does not look at the number of interrupt checks. *)

Lemma glyph_bit_polls (gfx : JsGraphicsData) (x y cx cy : Z) (n : nat)
    (st : list Z * Z * World) :
  glyph_bit gfx x y cx cy (lift_polls n st) = lift_polls n (glyph_bit gfx x y cx cy st).
Proof.
  destruct st as [[cit off] w]. unfold glyph_bit, lift_polls.
  destruct (negb _); destruct (off + 1 =? 8); reflexivity.
Qed.

Lemma glyph_column_polls (gfx : JsGraphicsData) (x y cx : Z) (n : nat) (m : nat) :
  forall cy st,
    glyph_column gfx x y cx m cy (lift_polls n st) =
    lift_polls n (glyph_column gfx x y cx m cy st).
Proof.
  induction m as [ | m IH]; intros cy st; simpl.
  - reflexivity.
  - rewrite glyph_bit_polls. apply IH.
Qed.

Lemma glyph_columns_polls (gfx : JsGraphicsData) (x y h : Z) (n : nat) (m : nat) :
  forall cx st,
    glyph_columns gfx x y h m cx (lift_polls n st) =
    lift_polls n (glyph_columns gfx x y h m cx st).
Proof.
  induction m as [ | m IH]; intros cx st; simpl.
  - reflexivity.
  - rewrite glyph_column_polls. apply IH.
Qed.

Lemma drawString_char_polls
    (gfx : JsGraphicsData) (font : CustomFont) (ch x y : Z) (n : nat) (w : World) :
  drawString_char gfx font ch x y (add_polls n w) =
  (fst (drawString_char gfx font ch x y w),
   add_polls n (snd (drawString_char gfx font ch x y w))).
Proof.
  unfold drawString_char.
  destruct (data_fontSize gfx >? 0).
  { destruct SAVE_ON_FLASH; reflexivity. }
  destruct (data_fontSize gfx =? JSGRAPHICS_FONTSIZE_4X6); [reflexivity | ].
  destruct (data_fontSize gfx =? JSGRAPHICS_FONTSIZE_CUSTOM); [ | reflexivity].
  unfold drawString_custom.
  destruct (custom_width_offset font ch) as [width bmpOffset].
  destruct (ch >=? to_int (customFirstChar font)); [ | reflexivity].
  match goal with
  | |- context [glyph_columns ?g ?a ?b ?h ?m ?c (?i, ?o, add_polls n w)] =>
      change (i, o, add_polls n w) with (lift_polls n (i, o, w));
      rewrite (glyph_columns_polls g a b h n m c (i, o, w));
      destruct (glyph_columns g a b h m c (i, o, w)) as [[cit off] w']
  end.
  reflexivity.
Qed.

Lemma draw_glyphs_polls (gfx : JsGraphicsData) (font : CustomFont) (y : Z)
    (n : nat) (str : list Z) :
  forall x w,
    draw_glyphs gfx font y str x (add_polls n w) =
    (fst (draw_glyphs gfx font y str x w),
     add_polls n (snd (draw_glyphs gfx font y str x w))).
Proof.
  induction str as [ | c rest IH]; intros x w; simpl.
  - reflexivity.
  - rewrite drawString_char_polls.
    destruct (drawString_char gfx font (to_char c) x y w) as [x1 w1].
    cbn [fst snd]. apply IH.
Qed.

Lemma add_polls_add (n m : nat) (w : World) :
  add_polls n (add_polls m w) = add_polls (n + m) w.
Proof. unfold add_polls. simpl. f_equal. lia. Qed.

(** The loop when the [k]-th check from now is the first to answer
    yes: the glyphs 0..k are drawn, and nothing after them. *)
Lemma drawString_loop_interrupted (gfx : JsGraphicsData) (font : CustomFont) (y : Z)
    (str : list Z) :
  forall (k : nat) x w,
    (k < List.length str)%nat ->
    interrupted (polls w + k) = true ->
    (forall j, (j < k)%nat -> interrupted (polls w + j) = false) ->
    drawString_loop gfx font y str x w =
    (fst (draw_glyphs gfx font y (firstn (S k) str) x w),
     add_polls (S k) (snd (draw_glyphs gfx font y (firstn (S k) str) x w))).
Proof.
  induction str as [ | c rest IH]; intros k x w Hk Hyes Hno.
  - simpl in Hk. lia.
  - cbn [drawString_loop firstn draw_glyphs].
    assert (E := drawString_char_extends gfx font (to_char c) x y w).
    destruct (drawString_char gfx font (to_char c) x y w) as [x1 w1].
    destruct E as (_ & _ & Hp & _). cbn [snd] in Hp.
    unfold jspIsInterrupted. rewrite Hp.
    destruct k as [ | k].
    + rewrite Nat.add_0_r in Hyes. rewrite Hyes. simpl. unfold add_polls.
      rewrite Hp. reflexivity.
    + assert (H0 := Hno 0%nat ltac:(lia)). rewrite Nat.add_0_r in H0. rewrite H0.
      change (mkWorld (graphicsVar w1) (fontVars w1) (calls w1) (S (polls w)))
        with (mkWorld (graphicsVar w1) (fontVars w1) (calls w1) (1 + polls w)).
      rewrite <- Hp. fold (add_polls 1 w1).
      rewrite IH with (k := k).
      * rewrite draw_glyphs_polls. cbn [fst snd]. rewrite add_polls_add.
        replace (S k + 1)%nat with (S (S k)) by lia. reflexivity.
      * simpl in Hk. lia.
      * simpl. rewrite Hp. rewrite <- Hyes. f_equal. lia.
      * intros j Hj. simpl. rewrite Hp. rewrite <- (Hno (S j)) by lia. f_equal. lia.
Qed.

(** The loop when no check answers yes: every glyph is drawn. *)
Lemma drawString_loop_undisturbed (gfx : JsGraphicsData) (font : CustomFont) (y : Z)
    (str : list Z) :
  forall x w,
    (forall j, (j < List.length str)%nat -> interrupted (polls w + j) = false) ->
    drawString_loop gfx font y str x w =
    (fst (draw_glyphs gfx font y str x w),
     add_polls (List.length str) (snd (draw_glyphs gfx font y str x w))).
Proof.
  induction str as [ | c rest IH]; intros x w Hno.
  - simpl. unfold add_polls. destruct w; reflexivity.
  - cbn [drawString_loop draw_glyphs List.length].
    assert (E := drawString_char_extends gfx font (to_char c) x y w).
    destruct (drawString_char gfx font (to_char c) x y w) as [x1 w1].
    destruct E as (_ & _ & Hp & _). cbn [snd] in Hp.
    unfold jspIsInterrupted. rewrite Hp.
    assert (H0 := Hno 0%nat ltac:(simpl; lia)). rewrite Nat.add_0_r in H0. rewrite H0.
    change (mkWorld (graphicsVar w1) (fontVars w1) (calls w1) (S (polls w)))
      with (mkWorld (graphicsVar w1) (fontVars w1) (calls w1) (1 + polls w)).
    rewrite <- Hp. fold (add_polls 1 w1).
    rewrite IH.
    + rewrite draw_glyphs_polls. cbn [fst snd]. rewrite add_polls_add.
      replace (List.length rest + 1)%nat with (S (List.length rest)) by lia.
      reflexivity.
    + intros j Hj. simpl. rewrite Hp. rewrite <- (Hno (S j)) by (simpl; lia).
      f_equal. lia.
Qed.

(** C10: [drawString] asks [jspIsInterrupted] once after each glyph it
    draws.  When the check after the glyph at index [k] is the first
    to answer yes, the call returns having drawn the glyphs at
    indices 0..k and no glyph after them, with [k + 1] checks made;
    what the glyphs before the stop drew stays, as the start of the
    calls made.  When no check answers yes, every glyph is drawn and
    one check is made per character. *)
Theorem drawString_stops_at_interrupt
    (w : World) (gfx : JsGraphicsData) (str : list Z) (x y : Z) :
  graphicsVar w = Some gfx ->
  let drawn n := snd (draw_glyphs gfx (fontVars w) y (firstn n str) x w) in
  (forall k : nat,
     (k < List.length str)%nat ->
     interrupted (polls w + k) = true ->
     (forall j, (j < k)%nat -> interrupted (polls w + j) = false) ->
     jswrap_graphics_drawString str x y w = add_polls (S k) (drawn (S k)) /\
     polls (jswrap_graphics_drawString str x y w) = (S k + polls w)%nat /\
     forall j, (j <= S k)%nat ->
       exists l, calls (jswrap_graphics_drawString str x y w) = calls (drawn j) ++ l) /\
  ((forall j, (j < List.length str)%nat -> interrupted (polls w + j) = false) ->
   jswrap_graphics_drawString str x y w =
     add_polls (List.length str) (drawn (List.length str)) /\
   polls (jswrap_graphics_drawString str x y w) = (List.length str + polls w)%nat).
Proof.
  intros Hw drawn.
  assert (Hpolls : forall n, polls (drawn n) = polls w).
  { intros n. unfold drawn.
    destruct (draw_glyphs_extends gfx (fontVars w) y (firstn n str) x w)
      as (_ & _ & Hp & _). exact Hp. }
  split.
  - intros k Hk Hyes Hno.
    assert (Run : jswrap_graphics_drawString str x y w = add_polls (S k) (drawn (S k))).
    { unfold jswrap_graphics_drawString, graphicsGetFromVar. rewrite Hw.
      rewrite (drawString_loop_interrupted gfx (fontVars w) y str k x w Hk Hyes Hno).
      reflexivity. }
    split; [exact Run | ]. split.
    + rewrite Run. unfold add_polls. cbn [polls]. rewrite Hpolls. reflexivity.
    + intros j Hj. rewrite Run. unfold add_polls. cbn [calls]. unfold drawn.
      assert (E : firstn (S k) str = firstn j str ++ skipn j (firstn (S k) str)).
      { transitivity (firstn j (firstn (S k) str) ++ skipn j (firstn (S k) str)).
        - symmetry. apply firstn_skipn.
        - rewrite firstn_firstn. replace (Init.Nat.min j (S k)) with j by lia.
          reflexivity. }
      rewrite E. rewrite draw_glyphs_app.
      match goal with
      | |- context [draw_glyphs ?g ?f ?b ?l ?a ?v] =>
          destruct (draw_glyphs_extends g f b l a v) as (_ & _ & _ & Hc)
      end.
      exact Hc.
  - intros Hno.
    assert (Run : jswrap_graphics_drawString str x y w =
                  add_polls (List.length str) (drawn (List.length str))).
    { unfold jswrap_graphics_drawString, graphicsGetFromVar. rewrite Hw.
      rewrite (drawString_loop_undisturbed gfx (fontVars w) y str x w Hno).
      unfold drawn. rewrite firstn_all. reflexivity. }
    split; [exact Run | ].
    rewrite Run. unfold add_polls. cbn [polls]. rewrite Hpolls. reflexivity.
Qed.

(** ** Image blitter *)

(** The mask is [2^bpp - 1] whenever [1L << bpp] fits in [long]. *)
Lemma imageBitMask_spec (imageBpp : Z) :
  32 <= LONG_BITS ->
  0 <= imageBpp < LONG_BITS - 1 ->
  imageBpp <= 32 ->
  imageBitMask imageBpp = Some (2 ^ imageBpp - 1).
Proof.
  intros HL Hb H32. unfold imageBitMask, long_shl.
  destruct (Z.leb_spec 0 imageBpp) as [_ | Lt]; [ | lia].
  destruct (Z.ltb_spec imageBpp LONG_BITS) as [_ | Ge]; [ | lia].
  cbn [andb]. rewrite Z.mul_1_l.
  assert (P : 0 < 2 ^ imageBpp) by (apply Z.pow_pos_nonneg; lia).
  assert (Q : 2 ^ imageBpp < 2 ^ (LONG_BITS - 1)) by (apply Z.pow_lt_mono_r; lia).
  assert (R : 2 ^ imageBpp <= 2 ^ 32) by (apply Z.pow_le_mono_r; lia).
  rewrite (to_signed_small LONG_BITS (2 ^ imageBpp)) by lia.
  rewrite to_signed_small by lia.
  rewrite to_uint_small by lia. reflexivity.
Qed.

(** A shift by the width of [long] or more has no defined result. *)
Lemma imageBitMask_undefined (imageBpp : Z) :
  LONG_BITS <= imageBpp -> imageBitMask imageBpp = None.
Proof.
  intros H. unfold imageBitMask, long_shl.
  destruct (Z.ltb_spec imageBpp LONG_BITS) as [Lt | _]; [lia | ].
  rewrite andb_false_r. reflexivity.
Qed.

(** The rounds given to "Get the data we need" are enough: when it
    returns, a whole sample is in the accumulator. *)
Lemma drawImage_fill_enough (n : nat) (imageBpp : Z) :
  forall it bits colData,
    imageBpp - bits <= 8 * Z.of_nat n ->
    imageBpp <= snd (fst (drawImage_fill n imageBpp (it, bits, colData))).
Proof.
  induction n as [ | n IH]; intros it bits colData H.
  - simpl in *. lia.
  - cbn [drawImage_fill].
    destruct (Z.ltb_spec bits imageBpp) as [Lt | Ge].
    + apply IH. lia.
    + simpl. lia.
Qed.

(** The loop over the pixels ends within the rounds
    [jswrap_graphics_drawImage] gives it. *)
Lemma drawImage_loop_total (gfx : JsGraphicsData)
    (imageWidth imageHeight imageBpp mask : Z)
    (transp : bool) (transpCol xPos yPos : Z) (fuel : nat) :
  0 < imageWidth ->
  forall it x y bits colData w,
    0 <= x < imageWidth ->
    (imageHeight - y) * imageWidth - x <= Z.of_nat fuel ->
    exists w',
      drawImage_loop fuel gfx imageWidth imageHeight imageBpp mask
                     transp transpCol xPos yPos it x y bits colData w = Some w'.
Proof.
  intros Hw. induction fuel as [ | fuel IH]; intros it x y bits colData w Hx Hfuel.
  - cbn [drawImage_loop].
    destruct (Z.ltb_spec y imageHeight) as [Lt | Ge].
    + exfalso. simpl in Hfuel. nia.
    + rewrite andb_false_r. eexists. reflexivity.
  - cbn [drawImage_loop].
    destruct (((bits >=? imageBpp) || iterator_has_char it) && (y <? imageHeight))
      eqn:Cond; [ | eexists; reflexivity].
    apply andb_prop in Cond. destruct Cond as [_ Hy]. apply Z.ltb_lt in Hy.
    destruct (drawImage_fill (Z.to_nat imageBpp) imageBpp (it, bits, colData))
      as [[it' bits'] colData'].
    destruct (Z.geb_spec (x + 1) imageWidth) as [Ge | Lt]; apply IH; nia.
Qed.

(** [drawImage] has a defined result whenever its mask has one. *)
Lemma drawImage_defined (image : option Image) (xPos yPos : Z) (w : World) :
  (forall img, image = Some img -> imageBitMask (to_int (image_bpp img)) <> None) ->
  exists w', jswrap_graphics_drawImage image xPos yPos w = Some w'.
Proof.
  intros Hmask. unfold jswrap_graphics_drawImage.
  destruct (graphicsGetFromVar w) as [gfx | ]; [ | eexists; reflexivity].
  destruct image as [img | ]; [ | eexists; reflexivity].
  specialize (Hmask img eq_refl).
  destruct (image_buffer img) as [buf | ]; [ | eexists; reflexivity].
  destruct (Z.gtb_spec (to_int (image_width img)) 0) as [Hw | _];
    [ | eexists; reflexivity].
  destruct (Z.gtb_spec (to_int (image_height img)) 0) as [Hh | _];
    [ | eexists; reflexivity].
  destruct (Z.gtb_spec (to_int (image_bpp img)) 0) as [Hb | _];
    [ | eexists; reflexivity].
  destruct (Z.leb_spec (to_int (image_bpp img)) 32) as [H32 | _];
    [ | eexists; reflexivity].
  cbn [andb].
  destruct (imageBitMask (to_int (image_bpp img))) as [mask | ]; [ | contradiction].
  apply drawImage_loop_total; lia.
Qed.

(** ** The image blitter as a decoder *)

Lemma add_calls_nil (w : World) : add_calls [] w = w.
Proof. destruct w. unfold add_calls. simpl. rewrite app_nil_r. reflexivity. Qed.

Lemma add_calls_app (l1 l2 : list Call) (w : World) :
  add_calls l2 (add_calls l1 w) = add_calls (l1 ++ l2) w.
Proof. unfold add_calls. simpl. rewrite app_assoc. reflexivity. Qed.

Lemma emit_add_calls (c : Call) (w : World) : emit c w = add_calls [c] w.
Proof. reflexivity. Qed.

(** A field that lies in the low byte of a word is a field of that
    byte. *)
Lemma field_of_low_byte (c s t : Z) :
  0 <= s -> 0 <= t -> s + t <= 8 ->
  (c / 2 ^ s) mod 2 ^ t = ((c mod 2 ^ 8) / 2 ^ s) mod 2 ^ t.
Proof.
  intros Hs Ht Hst. apply Z.bits_inj'. intros i Hi.
  destruct (Z_lt_le_dec i t) as [Lt | Ge].
  - rewrite !Z.mod_pow2_bits_low by lia.
    rewrite !Z.div_pow2_bits by lia.
    rewrite Z.mod_pow2_bits_low by lia. reflexivity.
  - rewrite !Z.mod_pow2_bits_high by lia. reflexivity.
Qed.

Lemma low_samples_of_low_byte (bpp : Z) (m : nat) (c : Z) :
  0 <= bpp -> bpp * Z.of_nat m <= 8 ->
  low_samples bpp m c = low_samples bpp m (c mod 2 ^ 8).
Proof.
  intros Hb. induction m as [ | m IH]; intros Hm; simpl.
  - reflexivity.
  - rewrite IH by lia. f_equal. apply field_of_low_byte; nia.
Qed.

(** The byte shifted into the accumulator is its low byte. *)
Lemma shifted_in_low_byte (colData b : Z) :
  is_byte b ->
  Z.lor (to_uint (Z.shiftl colData 8)) (to_uchar (to_char b)) mod 2 ^ 8 = b.
Proof.
  intros Hb. rewrite to_uchar_to_char by exact Hb.
  rewrite <- (Z.mod_small b (2 ^ 8)) at 2 by (unfold is_byte in Hb; pow_lia).
  apply Z.bits_inj'. intros i Hi.
  destruct (Z_lt_le_dec i 8) as [Lt | Ge].
  - rewrite !Z.mod_pow2_bits_low by lia. rewrite Z.lor_spec.
    unfold to_uint, to_unsigned.
    rewrite Z.mod_pow2_bits_low by lia.
    rewrite Z.shiftl_spec_low by lia. reflexivity.
  - rewrite !Z.mod_pow2_bits_high by lia. reflexivity.
Qed.

Lemma drawImage_fill_ready (n : nat) (imageBpp : Z) (it : list Z) (bits colData : Z) :
  imageBpp <= bits ->
  drawImage_fill n imageBpp (it, bits, colData) = (it, bits, colData).
Proof.
  intros H. destruct n as [ | n]; [reflexivity | ].
  cbn [drawImage_fill]. destruct (Z.ltb_spec bits imageBpp); [lia | reflexivity].
Qed.

Lemma drawImage_fill_one_byte (imageBpp b : Z) (it : list Z) (colData : Z) :
  0 < imageBpp <= 8 ->
  drawImage_fill (Z.to_nat imageBpp) imageBpp (b :: it, 0, colData) =
    (it, 8, Z.lor (to_uint (Z.shiftl colData 8)) (to_uchar (to_char b))).
Proof.
  intros H. destruct (Z.to_nat imageBpp) as [ | n] eqn:E; [lia | ].
  cbn [drawImage_fill]. destruct (Z.ltb_spec 0 imageBpp); [ | lia].
  apply drawImage_fill_ready. lia.
Qed.

Section ImageDecode.

Variable gfx : JsGraphicsData.
Variables imageWidth imageHeight imageBpp : Z.
Variable samples_per_byte : nat.
Variable transparent : option Z.
Variables xPos yPos : Z.

Hypothesis bpp_positive : 0 < imageBpp.
Hypothesis bpp_divides_8 : imageBpp * Z.of_nat samples_per_byte = 8.

Lemma image_calls_cons (x y s : Z) (rest : list (Z * Z * Z)) :
  image_calls gfx imageBpp transparent xPos yPos ((x, y, s) :: rest) =
  (if negb (image_is_transparent transparent) || negb ((image_transparent_col transparent) =? s)
   then [SetPixel (to_short (x + xPos)) (to_short (y + yPos))
                  (if imageBpp =? 1
                   then (if negb (s =? 0) then data_fgColor gfx else data_bgColor gfx)
                   else s)]
   else []) ++
  image_calls gfx imageBpp transparent xPos yPos rest.
Proof.
  unfold image_calls, image_is_transparent, image_transparent_col. cbn [filter snd].
  destruct transparent as [c | ]; cbn [negb orb].
  - destruct (to_uint c =? s); cbn [negb map app]; [reflexivity | ].
    destruct (s =? 0); reflexivity.
  - cbn [map app]. destruct (s =? 0); reflexivity.
Qed.

(** The loop from a state with [m] samples left in the accumulator:
    it writes the pixels still to visit, each with the next sample of
    the stream, and stops at the end of the pixels or of the
    stream. *)
Lemma drawImage_loop_decodes (x y : Z) (l : list (Z * Z)) :
  pixels_from imageWidth imageHeight x y l ->
  forall (fuel : nat) (it : list Z) (m : nat) (colData : Z) (w : World),
    (List.length l <= fuel)%nat ->
    Forall is_byte it ->
    (m <= samples_per_byte)%nat ->
    drawImage_loop fuel gfx imageWidth imageHeight imageBpp (2 ^ imageBpp - 1)
                   (image_is_transparent transparent) (image_transparent_col transparent) xPos yPos
                   it x y (imageBpp * Z.of_nat m) colData w =
    Some (add_calls
            (image_calls gfx imageBpp transparent xPos yPos
               (combine l (low_samples imageBpp m (colData mod 2 ^ 8) ++
                           unpack_samples imageBpp it)))
            w).
Proof.
  assert (Hspb : Z.to_nat (8 / imageBpp) = samples_per_byte).
  { rewrite <- bpp_divides_8. rewrite Z.mul_comm, Z.div_mul by lia. lia. }
  assert (Hmask : forall c s, 0 <= s ->
            Z.land (Z.shiftr c s) (2 ^ imageBpp - 1) = (c / 2 ^ s) mod 2 ^ imageBpp).
  { intros c s Hs. replace (2 ^ imageBpp - 1) with (Z.ones imageBpp)
      by (rewrite Z.ones_equiv; lia).
    rewrite Z.land_ones by lia. rewrite Z.shiftr_div_pow2 by exact Hs. reflexivity. }
  assert (Hunpack : forall b it,
            unpack_samples imageBpp (b :: it) =
            low_samples imageBpp samples_per_byte b ++ unpack_samples imageBpp it).
  { intros b it. unfold unpack_samples. rewrite Hspb. reflexivity. }
  assert (Hsucc : exists p, samples_per_byte = S p).
  { destruct samples_per_byte as [ | p]; [lia | exists p; reflexivity]. }
  (* one round of the loop once a sample is in the accumulator *)
  assert (Round : forall fuel it m colData w x y l,
    y < imageHeight ->
    (S m <= samples_per_byte)%nat ->
    (forall w',
       drawImage_loop fuel gfx imageWidth imageHeight imageBpp (2 ^ imageBpp - 1)
         (image_is_transparent transparent) (image_transparent_col transparent) xPos yPos it
         (if x + 1 >=? imageWidth then 0 else x + 1)
         (if x + 1 >=? imageWidth then y + 1 else y)
         (imageBpp * Z.of_nat m) colData w' =
       Some (add_calls
               (image_calls gfx imageBpp transparent xPos yPos
                  (combine l (low_samples imageBpp m (colData mod 2 ^ 8) ++
                              unpack_samples imageBpp it))) w')) ->
    drawImage_loop (S fuel) gfx imageWidth imageHeight imageBpp (2 ^ imageBpp - 1)
      (image_is_transparent transparent) (image_transparent_col transparent) xPos yPos it x y
      (imageBpp * Z.of_nat (S m)) colData w =
    Some (add_calls
            (image_calls gfx imageBpp transparent xPos yPos
               (combine ((x, y) :: l)
                  (low_samples imageBpp (S m) (colData mod 2 ^ 8) ++
                   unpack_samples imageBpp it))) w)).
  { intros fuel it m colData w x0 y0 l0 Hy Hm Next.
    cbn [drawImage_loop].
    destruct (Z.geb_spec (imageBpp * Z.of_nat (S m)) imageBpp) as [_ | Lt]; [ | nia].
    destruct (Z.ltb_spec y0 imageHeight) as [_ | Ge]; [ | lia].
    cbn [orb andb].
    rewrite drawImage_fill_ready by nia.
    replace (imageBpp * Z.of_nat (S m) - imageBpp) with (imageBpp * Z.of_nat m) by lia.
    rewrite Hmask by nia.
    cbn [low_samples app combine]. rewrite image_calls_cons.
    rewrite <- (field_of_low_byte colData) by nia.
    rewrite <- add_calls_app.
    destruct (Z.geb_spec (x0 + 1) imageWidth);
      rewrite Next; f_equal; f_equal;
      destruct (negb (image_is_transparent transparent) || negb ((image_transparent_col transparent) =? _));
      try (symmetry; apply add_calls_nil); reflexivity. }
  induction 1 as [x y Hy | x y l Hy Hx _ IH | x y l Hy Hx _ IH];
    intros fuel it m colData w Hfuel Hit Hm.
  - (* past the last row *)
    cbn [combine image_calls filter map]. rewrite add_calls_nil.
    destruct fuel; cbn [drawImage_loop];
      destruct (Z.ltb_spec y imageHeight); try lia;
      rewrite andb_false_r; reflexivity.
  - destruct fuel as [ | fuel]; [simpl in Hfuel; lia | ]. simpl in Hfuel.
    destruct m as [ | m].
    + destruct it as [ | b it].
      * (* the stream has ended *)
        cbn [low_samples unpack_samples flat_map app combine image_calls filter map].
        rewrite add_calls_nil. cbn [drawImage_loop].
        rewrite Z.mul_0_r.
        destruct (Z.geb_spec 0 imageBpp); [lia | reflexivity].
      * (* a byte is shifted in *)
        apply Forall_cons_iff in Hit. destruct Hit as [Hb Hit'].
        rewrite Hunpack. cbn [low_samples app].
        destruct Hsucc as [p Ep]. rewrite Ep.
        assert (Step := Round fuel it p
                  (Z.lor (to_uint (Z.shiftl colData 8)) (to_uchar (to_char b)))
                  w x y l Hy ltac:(lia)).
        rewrite shifted_in_low_byte in Step by exact Hb.
        rewrite <- Step.
        -- replace (imageBpp * Z.of_nat (S p)) with 8 by lia.
           change (Z.of_nat 0) with 0. rewrite Z.mul_0_r.
           cbn [drawImage_loop iterator_has_char].
           rewrite drawImage_fill_one_byte by nia.
           rewrite (drawImage_fill_ready _ imageBpp it 8) by nia.
           destruct (Z.ltb_spec y imageHeight) as [_ | Ge]; [ | lia].
           destruct (Z.geb_spec 8 imageBpp) as [_ | Lt]; [ | nia].
           rewrite orb_true_r. reflexivity.
        -- intros w'. destruct (Z.geb_spec (x + 1) imageWidth); [lia | ].
           rewrite <- shifted_in_low_byte with (colData := colData) (b := b) at 2
             by exact Hb.
           apply IH; [lia | exact Hit' | lia].
    + apply Round; [exact Hy | exact Hm | ].
      intros w'. destruct (Z.geb_spec (x + 1) imageWidth); [lia | ].
      apply IH; [lia | exact Hit | lia].
  - destruct fuel as [ | fuel]; [simpl in Hfuel; lia | ]. simpl in Hfuel.
    destruct m as [ | m].
    + destruct it as [ | b it].
      * cbn [low_samples unpack_samples flat_map app combine image_calls filter map].
        rewrite add_calls_nil. cbn [drawImage_loop].
        rewrite Z.mul_0_r.
        destruct (Z.geb_spec 0 imageBpp); [lia | reflexivity].
      * apply Forall_cons_iff in Hit. destruct Hit as [Hb Hit'].
        rewrite Hunpack. cbn [low_samples app].
        destruct Hsucc as [p Ep]. rewrite Ep.
        assert (Step := Round fuel it p
                  (Z.lor (to_uint (Z.shiftl colData 8)) (to_uchar (to_char b)))
                  w x y l Hy ltac:(lia)).
        rewrite shifted_in_low_byte in Step by exact Hb.
        rewrite <- Step.
        -- replace (imageBpp * Z.of_nat (S p)) with 8 by lia.
           change (Z.of_nat 0) with 0. rewrite Z.mul_0_r.
           cbn [drawImage_loop iterator_has_char].
           rewrite drawImage_fill_one_byte by nia.
           rewrite (drawImage_fill_ready _ imageBpp it 8) by nia.
           destruct (Z.ltb_spec y imageHeight) as [_ | Ge]; [ | lia].
           destruct (Z.geb_spec 8 imageBpp) as [_ | Lt]; [ | nia].
           rewrite orb_true_r. reflexivity.
        -- intros w'. destruct (Z.geb_spec (x + 1) imageWidth); [ | lia].
           rewrite <- shifted_in_low_byte with (colData := colData) (b := b) at 2
             by exact Hb.
           apply IH; [lia | exact Hit' | lia].
    + apply Round; [exact Hy | exact Hm | ].
      intros w'. destruct (Z.geb_spec (x + 1) imageWidth); [ | lia].
      apply IH; [lia | exact Hit | lia].
Qed.

End ImageDecode.

Lemma pixels_from_row (imageWidth imageHeight y : Z) (l : list (Z * Z)) (n : nat) :
  forall x,
    (0 < n)%nat -> 0 <= x -> x + Z.of_nat n = imageWidth -> y < imageHeight ->
    pixels_from imageWidth imageHeight 0 (y + 1) l ->
    pixels_from imageWidth imageHeight x y
      (map (fun i => (x + Z.of_nat i, y)) (seq 0 n) ++ l).
Proof.
  induction n as [ | n IH]; intros x Hn Hx Hsum Hy Hl; [lia | ].
  cbn [seq map app]. rewrite <- seq_shift, map_map.
  change (Z.of_nat 0) with 0. rewrite Z.add_0_r.
  destruct n as [ | n].
  - simpl. apply pixels_next_row; [exact Hy | lia | exact Hl].
  - apply pixels_same_row; [exact Hy | lia | ].
    rewrite (map_ext _ (fun i => (x + 1 + Z.of_nat i, y))) by (intros i; f_equal; lia).
    apply IH; try lia; assumption.
Qed.

Lemma pixels_from_rows (w h : nat) (k : nat) :
  forall y : nat,
    (0 < w)%nat -> (y + k = h)%nat ->
    pixels_from (Z.of_nat w) (Z.of_nat h) 0 (Z.of_nat y)
      (flat_map (fun y => map (fun x => (Z.of_nat x, Z.of_nat y)) (seq 0 w)) (seq y k)).
Proof.
  induction k as [ | k IH]; intros y Hw Hy.
  - simpl. apply pixels_done. lia.
  - cbn [seq flat_map].
    rewrite (map_ext _ (fun i => (0 + Z.of_nat i, Z.of_nat y))) by reflexivity.
    apply pixels_from_row; try lia.
    replace (Z.of_nat y + 1) with (Z.of_nat (S y)) by lia.
    apply IH; lia.
Qed.

Lemma row_major_length (w h : nat) : List.length (row_major w h) = (w * h)%nat.
Proof.
  unfold row_major.
  assert (G : forall start,
    List.length (flat_map (fun y => map (fun x => (Z.of_nat x, Z.of_nat y)) (seq 0 w))
                          (seq start h)) = (w * h)%nat).
  { induction h as [ | h IH]; intros start; simpl.
    - lia.
    - rewrite length_app, length_map, length_seq, IH. lia. }
  apply G.
Qed.

(** X1: an image whose depth is 1, 2, 4 or 8 is drawn sample by
    sample: the pixels are visited row after row, the samples are
    taken from the bytes most significant first with no padding
    between rows, the transparent colour is skipped, and at depth 1
    the samples 1 and 0 become the foreground and the background
    colour.  Drawing stops with the last pixel or the last byte,
    whichever comes first. *)
Theorem drawImage_decodes
    (w : World) (gfx : JsGraphicsData) (img : Image) (buf : list Z) (xPos yPos : Z) :
  graphicsVar w = Some gfx ->
  32 <= LONG_BITS ->
  image_buffer img = Some buf ->
  Forall is_byte buf ->
  0 < image_width img < 2 ^ 31 ->
  0 < image_height img < 2 ^ 31 ->
  In (image_bpp img) [1; 2; 4; 8] ->
  jswrap_graphics_drawImage (Some img) xPos yPos w =
    Some (add_calls
            (image_calls gfx (image_bpp img) (image_transparent img) xPos yPos
               (combine (row_major (Z.to_nat (image_width img))
                                   (Z.to_nat (image_height img)))
                        (unpack_samples (image_bpp img) buf)))
            w).
Proof.
  intros Hw HL Hbuf Hbytes Hwd Hht Hbpp.
  assert (Bpp : 0 < image_bpp img <= 8 /\
                exists n : nat, image_bpp img * Z.of_nat n = 8).
  { simpl in Hbpp.
    destruct Hbpp as [E | [E | [E | [E | []]]]]; rewrite <- E;
      (split; [lia | ]);
      [exists 8%nat | exists 4%nat | exists 2%nat | exists 1%nat]; reflexivity. }
  destruct Bpp as [Hb [n Hn]].
  unfold jswrap_graphics_drawImage, graphicsGetFromVar. rewrite Hw, Hbuf.
  rewrite (to_int_small (image_width img)) by (unfold is_int; lia).
  rewrite (to_int_small (image_height img)) by (unfold is_int; lia).
  rewrite (to_int_small (image_bpp img)) by (unfold is_int; pow_lia).
  destruct (Z.gtb_spec (image_width img) 0); [ | lia].
  destruct (Z.gtb_spec (image_height img) 0); [ | lia].
  destruct (Z.gtb_spec (image_bpp img) 0); [ | lia].
  destruct (Z.leb_spec (image_bpp img) 32); [ | lia].
  cbn [andb].
  rewrite imageBitMask_spec by lia.
  assert (P := pixels_from_rows (Z.to_nat (image_width img))
                (Z.to_nat (image_height img)) (Z.to_nat (image_height img)) 0%nat
                ltac:(lia) ltac:(lia)).
  rewrite !Z2Nat.id in P by lia. change (Z.of_nat 0) with 0 in P.
  fold (row_major (Z.to_nat (image_width img)) (Z.to_nat (image_height img))) in P.
  assert (Start := drawImage_loop_decodes gfx (image_width img) (image_height img)
            (image_bpp img) n (image_transparent img) xPos yPos
            ltac:(lia) Hn 0 0 _ P
            (Z.to_nat (image_width img * image_height img)) buf 0%nat 0 w).
  change (Z.of_nat 0) with 0 in Start. rewrite Z.mul_0_r in Start.
  cbn [low_samples app] in Start.
  apply Start.
  - rewrite row_major_length. nia.
  - exact Hbytes.
  - lia.
Qed.

(** ** The image blitter at depths of whole bytes *)

Lemma mod_pow2_mod_pow2 (a m k : Z) :
  0 <= k <= m -> (a mod 2 ^ m) mod 2 ^ k = a mod 2 ^ k.
Proof.
  intros Hk. apply Z.bits_inj'. intros i Hi.
  destruct (Z_lt_le_dec i k).
  - rewrite !Z.mod_pow2_bits_low by lia. reflexivity.
  - rewrite !Z.mod_pow2_bits_high by lia. reflexivity.
Qed.

(** The low [8 (j + 1)] bits of the accumulator after a byte is
    shifted in. *)
Lemma shift_in_low (colData b j : Z) :
  is_byte b -> 0 <= j <= 3 ->
  shift_in colData b mod 2 ^ (8 * (j + 1)) = (colData mod 2 ^ (8 * j)) * 256 + b.
Proof.
  intros Hb Hj. unfold shift_in, to_uint, to_unsigned, is_byte in *.
  rewrite Z.shiftl_mul_pow2 by lia.
  change (2 ^ 32) with (2 ^ 24 * 2 ^ 8).
  rewrite Z.mul_mod_distr_r by pow_lia.
  rewrite <- Z.shiftl_mul_pow2 by lia.
  rewrite Z.lor_comm. rewrite lor_shiftl_add by pow_lia.
  rewrite <- (mod_pow2_mod_pow2 colData 24 (8 * j)) by lia.
  set (u := colData mod 2 ^ 24).
  assert (P : 0 < 2 ^ (8 * j)) by (apply Z.pow_pos_nonneg; lia).
  replace (2 ^ (8 * (j + 1))) with (2 ^ (8 * j) * 256)
    by (replace (8 * (j + 1)) with (8 * j + 8) by lia;
        rewrite Z.pow_add_r by lia; reflexivity).
  change (2 ^ 8) with 256.
  assert (D := Z.div_mod u (2 ^ (8 * j)) ltac:(lia)).
  assert (M := Z.mod_pos_bound u (2 ^ (8 * j)) P).
  symmetry. apply Z.mod_unique with (q := u / 2 ^ (8 * j)); nia.
Qed.

Lemma shift_in_all_low (l : list Z) :
  forall colData j,
    Forall is_byte l -> 0 <= j -> j + Z.of_nat (List.length l) <= 4 ->
    fold_left shift_in l colData mod 2 ^ (8 * (j + Z.of_nat (List.length l))) =
    be_value_from (colData mod 2 ^ (8 * j)) l.
Proof.
  induction l as [ | b t IH]; intros c j Hl Hj Hlen.
  - simpl. rewrite Z.add_0_r. reflexivity.
  - apply Forall_cons_iff in Hl. destruct Hl as [Hb Ht].
    cbn [fold_left be_value_from List.length] in *.
    replace (j + Z.of_nat (S (List.length t)))
      with ((j + 1) + Z.of_nat (List.length t)) by lia.
    rewrite IH by (try assumption; lia).
    rewrite shift_in_low by (try assumption; lia). reflexivity.
Qed.

Lemma firstn_pad (m : nat) :
  forall (t : list Z) (p q : nat),
    (m <= p)%nat -> (m <= q)%nat ->
    firstn m (t ++ repeat 0 p) = firstn m (t ++ repeat 0 q).
Proof.
  induction m as [ | m IH]; intros t p q Hp Hq.
  - reflexivity.
  - destruct t as [ | a t].
    + destruct p as [ | p]; [lia | ]. destruct q as [ | q]; [lia | ].
      cbn [app repeat firstn]. f_equal. apply (IH [] p q); lia.
    + cbn [app firstn]. f_equal. apply IH; lia.
Qed.

(** "Get the data we need" reads [m] bytes, zeros past the end. *)
Lemma drawImage_fill_bytes (imageBpp : Z) (m : nat) :
  forall (n : nat) (it : list Z) (colData : Z),
    Forall is_byte it ->
    (m <= n)%nat -> 8 * Z.of_nat m <= imageBpp ->
    drawImage_fill n imageBpp (it, imageBpp - 8 * Z.of_nat m, colData) =
      (skipn m it, imageBpp,
       fold_left shift_in (firstn m (it ++ repeat 0 m)) colData).
Proof.
  induction m as [ | m IH]; intros n it c Hit Hn Hm.
  - change (Z.of_nat 0) with 0. rewrite Z.mul_0_r, Z.sub_0_r.
    rewrite drawImage_fill_ready by lia. reflexivity.
  - destruct n as [ | n]; [lia | ]. cbn [drawImage_fill].
    destruct (Z.ltb_spec (imageBpp - 8 * Z.of_nat (S m)) imageBpp); [ | lia].
    replace (imageBpp - 8 * Z.of_nat (S m) + 8) with (imageBpp - 8 * Z.of_nat m) by lia.
    assert (Hb : is_byte (hd 0 it)).
    { destruct it; [unfold is_byte; simpl; lia | ].
      apply Forall_cons_iff in Hit. apply Hit. }
    unfold jsvStringIteratorGetChar. rewrite to_uchar_to_char by exact Hb.
    rewrite IH.
    + destruct it as [ | b t]; cbn [tl hd].
      * rewrite !skipn_nil. cbn [app repeat firstn fold_left]. reflexivity.
      * cbn [skipn app firstn fold_left].
        rewrite (firstn_pad m t (S m) m) by lia. reflexivity.
    + destruct it; [constructor | apply Forall_cons_iff in Hit; apply Hit].
    + lia.
    + lia.
Qed.

Section ImageDecodeWide.

Variable gfx : JsGraphicsData.
Variables imageWidth imageHeight imageBpp : Z.
Variable bytes_per_sample : nat.
Variable transparent : option Z.
Variables xPos yPos : Z.

Hypothesis sample_bytes : imageBpp = 8 * Z.of_nat bytes_per_sample.
Hypothesis at_least_one_byte : (0 < bytes_per_sample)%nat.
Hypothesis at_most_four_bytes : (bytes_per_sample <= 4)%nat.

Lemma drawImage_loop_decodes_wide (x y : Z) (l : list (Z * Z)) :
  pixels_from imageWidth imageHeight x y l ->
  forall (fuel n : nat) (it : list Z) (colData : Z) (w : World),
    (List.length l <= fuel)%nat ->
    (List.length it <= n)%nat ->
    Forall is_byte it ->
    drawImage_loop fuel gfx imageWidth imageHeight imageBpp (2 ^ imageBpp - 1)
                   (image_is_transparent transparent)
                   (image_transparent_col transparent) xPos yPos
                   it x y 0 colData w =
    Some (add_calls
            (image_calls gfx imageBpp transparent xPos yPos
               (combine l (wide_samples n bytes_per_sample it)))
            w).
Proof.
  assert (Hmask : forall c,
            Z.land (Z.shiftr c 0) (2 ^ imageBpp - 1) = c mod 2 ^ imageBpp).
  { intros c. replace (2 ^ imageBpp - 1) with (Z.ones imageBpp)
      by (rewrite Z.ones_equiv; lia).
    rewrite Z.land_ones by lia. rewrite Z.shiftr_0_r. reflexivity. }
  assert (Not1 : (imageBpp =? 1) = false) by (apply Z.eqb_neq; lia).
  assert (Round : forall fuel n b t colData w x y l,
    y < imageHeight ->
    (List.length (b :: t) <= S n)%nat ->
    Forall is_byte (b :: t) ->
    (forall c w',
       drawImage_loop fuel gfx imageWidth imageHeight imageBpp (2 ^ imageBpp - 1)
         (image_is_transparent transparent) (image_transparent_col transparent)
         xPos yPos (skipn bytes_per_sample (b :: t))
         (if x + 1 >=? imageWidth then 0 else x + 1)
         (if x + 1 >=? imageWidth then y + 1 else y) 0 c w' =
       Some (add_calls
               (image_calls gfx imageBpp transparent xPos yPos
                  (combine l (wide_samples n bytes_per_sample
                                (skipn bytes_per_sample (b :: t))))) w')) ->
    drawImage_loop (S fuel) gfx imageWidth imageHeight imageBpp (2 ^ imageBpp - 1)
      (image_is_transparent transparent) (image_transparent_col transparent)
      xPos yPos (b :: t) x y 0 colData w =
    Some (add_calls
            (image_calls gfx imageBpp transparent xPos yPos
               (combine ((x, y) :: l) (wide_samples (S n) bytes_per_sample (b :: t))))
            w)).
  { intros fuel n b t colData w x0 y0 l0 Hy Hlen Hit Next.
    cbn [drawImage_loop iterator_has_char wide_samples combine].
    rewrite orb_true_r.
    destruct (Z.ltb_spec y0 imageHeight) as [_ | Ge]; [ | lia]. cbn [andb].
    assert (Fill := drawImage_fill_bytes imageBpp bytes_per_sample
                      (Z.to_nat imageBpp) (b :: t) colData Hit
                      ltac:(lia) ltac:(lia)).
    replace (imageBpp - 8 * Z.of_nat bytes_per_sample) with 0 in Fill by lia.
    rewrite Fill. rewrite Z.sub_diag. rewrite Hmask.
    assert (Value :
      fold_left shift_in (firstn bytes_per_sample ((b :: t) ++ repeat 0 bytes_per_sample))
                colData mod 2 ^ imageBpp =
      be_value_from 0 (firstn bytes_per_sample ((b :: t) ++ repeat 0 bytes_per_sample))).
    { assert (Len : List.length (firstn bytes_per_sample
                                   ((b :: t) ++ repeat 0 bytes_per_sample)) =
                    bytes_per_sample).
      { rewrite length_firstn, length_app, repeat_length. lia. }
      assert (A := shift_in_all_low
                     (firstn bytes_per_sample ((b :: t) ++ repeat 0 bytes_per_sample))
                     colData 0).
      rewrite Len in A. rewrite Z.add_0_l in A. rewrite <- sample_bytes in A.
      rewrite A.
      - change (2 ^ (8 * 0)) with 1. rewrite Z.mod_1_r. reflexivity.
      - apply firstn_is_byte. apply Forall_app. split; [exact Hit | ].
        apply Forall_forall. intros z Hz. apply repeat_spec in Hz. subst z.
        unfold is_byte. lia.
      - lia.
      - lia. }
    rewrite Value. rewrite image_calls_cons. rewrite Not1.
    rewrite <- add_calls_app.
    destruct (Z.geb_spec (x0 + 1) imageWidth);
      rewrite Next; f_equal; f_equal;
      destruct (negb (image_is_transparent transparent) || _);
      try (symmetry; apply add_calls_nil); reflexivity. }
  assert (Skip : forall (b : Z) (t : list Z) (n : nat),
            (List.length (b :: t) <= S n)%nat ->
            (List.length (skipn bytes_per_sample (b :: t)) <= n)%nat).
  { intros b t n H. rewrite length_skipn. cbn [List.length] in *.
    pose proof at_least_one_byte. lia. }
  assert (SkipBytes : forall it : list Z, Forall is_byte it ->
            Forall is_byte (skipn bytes_per_sample it)).
  { intros it H. rewrite <- (firstn_skipn bytes_per_sample it) in H.
    apply Forall_app in H. apply H. }
  induction 1 as [x y Hy | x y l Hy Hx _ IH | x y l Hy Hx _ IH];
    intros fuel n it colData w Hfuel Hn Hit.
  - cbn [combine image_calls filter map]. rewrite add_calls_nil.
    destruct fuel; cbn [drawImage_loop];
      destruct (Z.ltb_spec y imageHeight); try lia;
      rewrite andb_false_r; reflexivity.
  - destruct fuel as [ | fuel]; [simpl in Hfuel; lia | ]. simpl in Hfuel.
    destruct it as [ | b t].
    + replace (wide_samples n bytes_per_sample []) with (@nil Z)
        by (destruct n; reflexivity).
      cbn [combine image_calls filter map]. rewrite add_calls_nil.
      cbn [drawImage_loop iterator_has_char].
      destruct (Z.geb_spec 0 imageBpp); [lia | reflexivity].
    + destruct n as [ | n]; [simpl in Hn; lia | ].
      apply Round; try assumption.
      intros c w'. destruct (Z.geb_spec (x + 1) imageWidth); [lia | ].
      apply IH; [lia | apply Skip; exact Hn | apply SkipBytes; exact Hit].
  - destruct fuel as [ | fuel]; [simpl in Hfuel; lia | ]. simpl in Hfuel.
    destruct it as [ | b t].
    + replace (wide_samples n bytes_per_sample []) with (@nil Z)
        by (destruct n; reflexivity).
      cbn [combine image_calls filter map]. rewrite add_calls_nil.
      cbn [drawImage_loop iterator_has_char].
      destruct (Z.geb_spec 0 imageBpp); [lia | reflexivity].
    + destruct n as [ | n]; [simpl in Hn; lia | ].
      apply Round; try assumption.
      intros c w'. destruct (Z.geb_spec (x + 1) imageWidth); [ | lia].
      apply IH; [lia | apply Skip; exact Hn | apply SkipBytes; exact Hit].
Qed.

End ImageDecodeWide.

(** X16: an image whose depth is 16, 24 or 32 is drawn sample by
    sample, each sample being the next 2, 3 or 4 bytes of the
    buffer, the first byte the most significant.  When the buffer
    ends inside a sample, that sample is completed with zero bytes
    and still drawn; drawing stops with the last pixel or the last
    byte.  (At depth 32 this needs a [long] wider than 33 bits, for
    the mask.) *)
Theorem drawImage_decodes_wide
    (w : World) (gfx : JsGraphicsData) (img : Image) (buf : list Z) (xPos yPos : Z) :
  graphicsVar w = Some gfx ->
  32 <= LONG_BITS ->
  image_bpp img < LONG_BITS - 1 ->
  image_buffer img = Some buf ->
  Forall is_byte buf ->
  0 < image_width img < 2 ^ 31 ->
  0 < image_height img < 2 ^ 31 ->
  In (image_bpp img) [16; 24; 32] ->
  jswrap_graphics_drawImage (Some img) xPos yPos w =
    Some (add_calls
            (image_calls gfx (image_bpp img) (image_transparent img) xPos yPos
               (combine (row_major (Z.to_nat (image_width img))
                                   (Z.to_nat (image_height img)))
                        (wide_samples (List.length buf)
                                      (Z.to_nat (image_bpp img / 8)) buf)))
            w).
Proof.
  intros Hw HL Hlong Hbuf Hbytes Hwd Hht Hbpp.
  assert (Bpp : 16 <= image_bpp img <= 32 /\
                image_bpp img = 8 * Z.of_nat (Z.to_nat (image_bpp img / 8)) /\
                (0 < Z.to_nat (image_bpp img / 8) <= 4)%nat).
  { simpl in Hbpp.
    destruct Hbpp as [E | [E | [E | []]]]; rewrite <- E;
      (split; [lia | split; [reflexivity | simpl; lia]]). }
  destruct Bpp as (Hb & Hk & Hk1 & Hk4).
  unfold jswrap_graphics_drawImage, graphicsGetFromVar. rewrite Hw, Hbuf.
  rewrite (to_int_small (image_width img)) by (unfold is_int; lia).
  rewrite (to_int_small (image_height img)) by (unfold is_int; lia).
  rewrite (to_int_small (image_bpp img)) by (unfold is_int; pow_lia).
  destruct (Z.gtb_spec (image_width img) 0); [ | lia].
  destruct (Z.gtb_spec (image_height img) 0); [ | lia].
  destruct (Z.gtb_spec (image_bpp img) 0); [ | lia].
  destruct (Z.leb_spec (image_bpp img) 32); [ | lia].
  cbn [andb].
  rewrite imageBitMask_spec by lia.
  assert (P := pixels_from_rows (Z.to_nat (image_width img))
                (Z.to_nat (image_height img)) (Z.to_nat (image_height img)) 0%nat
                ltac:(lia) ltac:(lia)).
  rewrite !Z2Nat.id in P by lia. change (Z.of_nat 0) with 0 in P.
  fold (row_major (Z.to_nat (image_width img)) (Z.to_nat (image_height img))) in P.
  apply (drawImage_loop_decodes_wide gfx (image_width img) (image_height img)
           (image_bpp img) (Z.to_nat (image_bpp img / 8)) (image_transparent img)
           xPos yPos Hk Hk1 Hk4 0 0 _ P).
  - rewrite row_major_length. nia.
  - apply le_n.
  - exact Hbytes.
Qed.

(** ** The custom font renderer as a decoder *)

Lemma to_char_testbit_low (b i : Z) :
  is_byte b -> 0 <= i < 8 -> Z.testbit (to_char b) i = Z.testbit b i.
Proof.
  intros Hb Hi. rewrite <- (to_uchar_to_char b Hb) at 2.
  unfold to_uchar, to_unsigned. rewrite Z.mod_pow2_bits_low by lia. reflexivity.
Qed.

(** The test of the renderer reads bit [7 - bmpOffset] of the byte. *)
Lemma glyph_test_is_bit (b off : Z) :
  is_byte b -> 0 <= off < 8 ->
  negb (Z.land (Z.shiftl (to_char b) off) 128 =? 0) = Z.testbit b (7 - off).
Proof.
  intros Hb Hoff. change 128 with (Z.shiftl 1 7).
  rewrite land_flag_eq0 by lia. rewrite negb_involutive.
  rewrite Z.shiftl_spec by lia. apply to_char_testbit_low; [exact Hb | lia].
Qed.

Lemma glyph_calls_app (gfx : JsGraphicsData) (x y : Z) (l1 l2 : list (Z * Z * bool)) :
  glyph_calls gfx x y (l1 ++ l2) = glyph_calls gfx x y l1 ++ glyph_calls gfx x y l2.
Proof. unfold glyph_calls. rewrite filter_app, map_app. reflexivity. Qed.

Lemma combine_app_skipn {A B : Type} (l1 l2 : list A) (r : list B) :
  combine (l1 ++ l2) r = combine l1 r ++ combine l2 (skipn (List.length l1) r).
Proof.
  revert r. induction l1 as [ | a l1 IH]; intros r; simpl.
  - reflexivity.
  - destruct r as [ | b r]; simpl.
    + rewrite combine_nil. reflexivity.
    + rewrite IH. reflexivity.
Qed.

Lemma skipn_byte_bits (b off : Z) :
  0 <= off < 8 ->
  skipn (Z.to_nat off) (byte_bits b) =
  Z.testbit b (7 - off) :: skipn (Z.to_nat (off + 1)) (byte_bits b).
Proof.
  intros H.
  assert (C : off = 0 \/ off = 1 \/ off = 2 \/ off = 3 \/
              off = 4 \/ off = 5 \/ off = 6 \/ off = 7) by lia.
  destruct C as [-> | [-> | [-> | [-> | [-> | [-> | [-> | ->]]]]]]]; reflexivity.
Qed.

(** One bit of the glyph. *)
Lemma glyph_bit_decodes (gfx : JsGraphicsData) (x y cx cy : Z)
    (cit : list Z) (off : Z) (w : World) :
  0 <= off < 8 -> Forall is_byte cit ->
  exists cit' off',
    glyph_bit gfx x y cx cy (cit, off, w) =
      (cit', off',
       add_calls (glyph_calls gfx x y (combine [(cx, cy)] (rest_bits cit off))) w) /\
    0 <= off' < 8 /\ Forall is_byte cit' /\
    rest_bits cit' off' = skipn 1 (rest_bits cit off).
Proof.
  intros Hoff Hcit. unfold glyph_bit.
  destruct cit as [ | b t].
  - (* past the end of the bitmap: the iterator reads 0 *)
    assert (Zero : negb (Z.land (Z.shiftl (jsvStringIteratorGetChar []) off) 128 =? 0)
                   = false).
    { unfold jsvStringIteratorGetChar. cbn [hd].
      rewrite glyph_test_is_bit by (unfold is_byte; lia). apply Z.bits_0. }
    rewrite Zero. cbn [rest_bits combine glyph_calls filter map tl].
    rewrite add_calls_nil.
    destruct (Z.eqb_spec (off + 1) 8).
    + exists (@nil Z), 0. repeat split; try lia; auto.
    + exists (@nil Z), (off + 1). repeat split; try lia; auto.
  - apply Forall_cons_iff in Hcit. destruct Hcit as [Hb Ht].
    unfold jsvStringIteratorGetChar. cbn [hd tl rest_bits].
    rewrite glyph_test_is_bit by assumption.
    rewrite skipn_byte_bits by exact Hoff.
    cbn [app combine skipn].
    assert (Calls : forall bit : bool,
      (if bit
       then graphicsSetPixel (to_short (cx + x)) (to_short (cy + y)) (data_fgColor gfx) w
       else w) =
      add_calls (glyph_calls gfx x y [(cx, cy, bit)]) w).
    { intros [ | ]; cbn [glyph_calls filter snd map].
      - reflexivity.
      - symmetry. apply add_calls_nil. }
    rewrite Calls.
    destruct (Z.eqb_spec (off + 1) 8) as [E | N].
    + exists t, 0. split; [reflexivity | ]. split; [lia | ]. split; [exact Ht | ].
      rewrite E. change (skipn (Z.to_nat 8) (byte_bits b)) with (@nil bool).
      cbn [app]. destruct t; reflexivity.
    + exists (b :: t), (off + 1). split; [reflexivity | ].
      split; [lia | ]. split; [constructor; assumption | reflexivity].
Qed.

(** One column of the glyph, from row [cy] on. *)
Lemma glyph_column_decodes (gfx : JsGraphicsData) (x y cx : Z) (n : nat) :
  forall (cy : nat) (cit : list Z) (off : Z) (w : World),
    0 <= off < 8 -> Forall is_byte cit ->
    exists cit' off',
      glyph_column gfx x y cx n (Z.of_nat cy) (cit, off, w) =
        (cit', off',
         add_calls (glyph_calls gfx x y
                      (combine (map (fun j => (cx, Z.of_nat j)) (seq cy n))
                               (rest_bits cit off))) w) /\
      0 <= off' < 8 /\ Forall is_byte cit' /\
      rest_bits cit' off' = skipn n (rest_bits cit off).
Proof.
  induction n as [ | n IH]; intros cy cit off w Hoff Hcit.
  - exists cit, off. cbn [glyph_column seq map combine glyph_calls filter].
    rewrite add_calls_nil. repeat split; try lia; auto.
  - cbn [glyph_column seq map].
    destruct (glyph_bit_decodes gfx x y cx (Z.of_nat cy) cit off w Hoff Hcit)
      as (cit1 & off1 & E1 & Hoff1 & Hcit1 & R1).
    rewrite E1.
    replace (Z.of_nat cy + 1) with (Z.of_nat (S cy)) by lia.
    destruct (IH (S cy) cit1 off1
                (add_calls (glyph_calls gfx x y
                              (combine [(cx, Z.of_nat cy)] (rest_bits cit off))) w)
                Hoff1 Hcit1)
      as (cit2 & off2 & E2 & Hoff2 & Hcit2 & R2).
    exists cit2, off2. rewrite E2. split; [ | split; [exact Hoff2 | split; [exact Hcit2 | ]]].
    + rewrite add_calls_app, <- glyph_calls_app. rewrite R1.
      change ((cx, Z.of_nat cy) :: map (fun j => (cx, Z.of_nat j)) (seq (S cy) n))
        with ([(cx, Z.of_nat cy)] ++ map (fun j => (cx, Z.of_nat j)) (seq (S cy) n)).
      rewrite combine_app_skipn. reflexivity.
    + rewrite R2, R1. rewrite skipn_skipn. f_equal. lia.
Qed.

(** The columns of the glyph, from column [cx] on. *)
Lemma glyph_columns_decodes (gfx : JsGraphicsData) (x y : Z) (h : nat) (n : nat) :
  forall (cx : nat) (cit : list Z) (off : Z) (w : World),
    0 <= off < 8 -> Forall is_byte cit ->
    exists cit' off',
      glyph_columns gfx x y (Z.of_nat h) n (Z.of_nat cx) (cit, off, w) =
        (cit', off',
         add_calls (glyph_calls gfx x y
                      (combine (flat_map (fun i => map (fun j => (Z.of_nat i, Z.of_nat j))
                                                       (seq 0 h))
                                         (seq cx n))
                               (rest_bits cit off))) w) /\
      0 <= off' < 8 /\ Forall is_byte cit' /\
      rest_bits cit' off' = skipn (n * h) (rest_bits cit off).
Proof.
  induction n as [ | n IH]; intros cx cit off w Hoff Hcit.
  - exists cit, off. cbn [glyph_columns seq flat_map combine glyph_calls filter map].
    rewrite add_calls_nil. repeat split; try lia; auto.
  - cbn [glyph_columns seq flat_map]. rewrite Nat2Z.id.
    destruct (glyph_column_decodes gfx x y (Z.of_nat cx) h 0%nat cit off w Hoff Hcit)
      as (cit1 & off1 & E1 & Hoff1 & Hcit1 & R1).
    change (Z.of_nat 0) with 0 in E1. rewrite E1.
    replace (Z.of_nat cx + 1) with (Z.of_nat (S cx)) by lia.
    match goal with
    | |- context [glyph_columns _ _ _ _ _ _ (_, _, ?w1)] =>
        destruct (IH (S cx) cit1 off1 w1 Hoff1 Hcit1)
          as (cit2 & off2 & E2 & Hoff2 & Hcit2 & R2)
    end.
    exists cit2, off2. rewrite E2. split; [ | split; [exact Hoff2 | split; [exact Hcit2 | ]]].
    + rewrite add_calls_app, <- glyph_calls_app. rewrite R1.
      rewrite combine_app_skipn. rewrite length_map, length_seq. reflexivity.
    + rewrite R2, R1. rewrite skipn_skipn. f_equal. lia.
Qed.

Lemma skipn_stream_bits (q : nat) :
  forall buf, skipn (8 * q) (stream_bits buf) = stream_bits (skipn q buf).
Proof.
  induction q as [ | q IH]; intros buf.
  - reflexivity.
  - destruct buf as [ | b t].
    + rewrite skipn_nil. reflexivity.
    + change (stream_bits (b :: t)) with (byte_bits b ++ stream_bits t).
      rewrite skipn_app.
      rewrite (skipn_all2 (byte_bits b))
        by (change (List.length (byte_bits b)) with 8%nat; lia).
      change (List.length (byte_bits b)) with 8%nat.
      replace (8 * S q - 8)%nat with (8 * q)%nat by lia.
      cbn [app skipn]. apply IH.
Qed.

(** The iterator started at byte [q] with [r] bits used has the
    stream from bit [8 q + r] on. *)
Lemma rest_bits_iterator_at (buf : list Z) (q r : Z) :
  0 <= q -> 0 <= r < 8 ->
  rest_bits (iterator_at buf q) r = skipn (Z.to_nat (8 * q + r)) (stream_bits buf).
Proof.
  intros Hq Hr.
  assert (It : iterator_at buf q = skipn (Z.to_nat q) buf).
  { unfold iterator_at. destruct (Z.ltb_spec q (Z.of_nat (List.length buf))).
    - reflexivity.
    - symmetry. apply skipn_all2. lia. }
  rewrite It.
  replace (Z.to_nat (8 * q + r)) with (Z.to_nat r + 8 * Z.to_nat q)%nat by lia.
  rewrite <- skipn_skipn. rewrite skipn_stream_bits.
  destruct (skipn (Z.to_nat q) buf) as [ | b t].
  - cbn [rest_bits stream_bits flat_map]. rewrite skipn_nil. reflexivity.
  - cbn [rest_bits]. unfold stream_bits at 2. cbn [flat_map].
    rewrite skipn_app.
    replace (Z.to_nat r - List.length (byte_bits b))%nat with 0%nat
      by (change (List.length (byte_bits b)) with 8%nat; lia).
    reflexivity.
Qed.

Lemma glyph_columns_height (gfx : JsGraphicsData) (x y h : Z) (n : nat) :
  forall cx st,
    glyph_columns gfx x y h n cx st =
    glyph_columns gfx x y (Z.of_nat (Z.to_nat h)) n cx st.
Proof.
  induction n as [ | n IH]; intros cx st; cbn [glyph_columns].
  - reflexivity.
  - rewrite Nat2Z.id. apply IH.
Qed.

(** The custom font branch of [drawString] for a character at or
    after the first one: the glyph is the [width] by [height] bits of
    the bitmap from bit [glyph_bit_offset] on, column after column,
    and [x] moves by the width. *)
Lemma drawString_custom_decodes
    (gfx : JsGraphicsData) (font : CustomFont) (ch x y : Z) (w : World) :
  to_int (customFirstChar font) <= ch ->
  0 <= glyph_bit_offset font ch ->
  32 <= SIZE_T_BITS ->
  Forall is_byte (customBitmap font) ->
  drawString_custom gfx font ch x y w =
    (to_int (x + fst (custom_width_offset font ch)),
     add_calls
       (glyph_calls gfx x y
          (combine (column_major (Z.to_nat (fst (custom_width_offset font ch)))
                                 (Z.to_nat (to_int (customHeight font))))
                   (skipn (Z.to_nat (glyph_bit_offset font ch))
                          (stream_bits (customBitmap font)))))
       w).
Proof.
  intros Hch Hoff Hsz Hbmp.
  rewrite drawString_custom_start by exact Hch. f_equal.
  assert (Hlt : glyph_bit_offset font ch < 2 ^ 31)
    by (unfold glyph_bit_offset; apply to_int_range).
  unfold glyph_start_byte, glyph_start_bit.
  rewrite to_size_t_small by (try assumption; lia).
  destruct (shiftr3_land7 (glyph_bit_offset font ch) Hoff) as [-> ->].
  rewrite glyph_columns_height.
  assert (Hq : 0 <= glyph_bit_offset font ch / 8) by (apply Z.div_pos; lia).
  assert (Hr : 0 <= glyph_bit_offset font ch mod 8 < 8)
    by (apply Z.mod_pos_bound; lia).
  destruct (glyph_columns_decodes gfx x y (Z.to_nat (to_int (customHeight font)))
              (Z.to_nat (fst (custom_width_offset font ch))) 0%nat
              (iterator_at (customBitmap font) (glyph_bit_offset font ch / 8))
              (glyph_bit_offset font ch mod 8) w Hr)
    as (cit' & off' & E & _).
  - unfold iterator_at. destruct (_ <? _); [ | constructor].
    clear - Hbmp. revert Hbmp. generalize (customBitmap font) as l.
    induction (Z.to_nat (glyph_bit_offset font ch / 8)) as [ | k IH];
      intros l Hl; [exact Hl | ].
    destruct l as [ | b t]; [constructor | ].
    apply Forall_cons_iff in Hl. apply IH. apply Hl.
  - change (Z.of_nat 0) with 0 in E. rewrite E. cbn [snd].
    rewrite rest_bits_iterator_at by assumption.
    rewrite <- Z.div_mod by lia. reflexivity.
Qed.

(** X2: a string of one character, drawn with a custom font whose
    first character is not after it, sets the pixels of the set bits
    of the glyph: the glyph is [width] by [height] bits of the bitmap
    from the glyph's bit offset on, most significant bit first,
    column after column; bits past the end of the bitmap are clear.
    One interrupt check is made. *)
Theorem drawString_custom_glyph
    (w : World) (gfx : JsGraphicsData) (c x y : Z) :
  graphicsVar w = Some gfx ->
  data_fontSize gfx = JSGRAPHICS_FONTSIZE_CUSTOM ->
  JSGRAPHICS_FONTSIZE_CUSTOM <= 0 ->
  JSGRAPHICS_FONTSIZE_CUSTOM <> JSGRAPHICS_FONTSIZE_4X6 ->
  32 <= SIZE_T_BITS ->
  Forall is_byte (customBitmap (fontVars w)) ->
  to_int (customFirstChar (fontVars w)) <= to_char c ->
  0 <= glyph_bit_offset (fontVars w) (to_char c) ->
  jswrap_graphics_drawString [c] x y w =
    add_polls 1
      (add_calls
         (glyph_calls gfx x y
            (combine
               (column_major
                  (Z.to_nat (fst (custom_width_offset (fontVars w) (to_char c))))
                  (Z.to_nat (to_int (customHeight (fontVars w)))))
               (skipn (Z.to_nat (glyph_bit_offset (fontVars w) (to_char c)))
                      (stream_bits (customBitmap (fontVars w))))))
         w).
Proof.
  intros Hw Hfont Hneg Hne Hsz Hbmp Hch Hoff.
  unfold jswrap_graphics_drawString, graphicsGetFromVar. rewrite Hw.
  cbn [drawString_loop]. unfold drawString_char. rewrite Hfont.
  destruct (Z.gtb_spec JSGRAPHICS_FONTSIZE_CUSTOM 0) as [Gt | _]; [lia | ].
  destruct (Z.eqb_spec JSGRAPHICS_FONTSIZE_CUSTOM JSGRAPHICS_FONTSIZE_4X6)
    as [Eq | _]; [contradiction | ].
  rewrite Z.eqb_refl.
  rewrite drawString_custom_decodes by assumption.
  unfold jspIsInterrupted. destruct (interrupted _); reflexivity.
Qed.

(** ** Text layout *)

Lemma to_signed_mod (w z : Z) : 0 < w -> to_signed w z mod 2 ^ w = z mod 2 ^ w.
Proof.
  intros Hw. unfold to_signed.
  assert (P : 0 < 2 ^ w) by (apply Z.pow_pos_nonneg; lia).
  destruct (z mod 2 ^ w <? 2 ^ (w - 1)).
  - apply Z.mod_mod. lia.
  - replace (z mod 2 ^ w - 2 ^ w) with (z mod 2 ^ w + (-1) * 2 ^ w) by lia.
    rewrite Z.mod_add by lia. apply Z.mod_mod. lia.
Qed.

Lemma to_signed_congruent (w a b : Z) :
  a mod 2 ^ w = b mod 2 ^ w -> to_signed w a = to_signed w b.
Proof. intros H. unfold to_signed. rewrite H. reflexivity. Qed.

Lemma to_int_add_l (a b : Z) : to_int (to_int a + b) = to_int (a + b).
Proof.
  apply to_signed_congruent.
  rewrite Z.add_mod by pow_lia. unfold to_int. rewrite to_signed_mod by lia.
  rewrite <- Z.add_mod by pow_lia. reflexivity.
Qed.

Lemma mod32_mod16 (a : Z) : (a mod 2 ^ 32) mod 2 ^ 16 = a mod 2 ^ 16.
Proof.
  rewrite (Z.div_mod a (2 ^ 32)) at 2 by pow_lia.
  replace (2 ^ 32 * (a / 2 ^ 32) + a mod 2 ^ 32)
    with (a mod 2 ^ 32 + (2 ^ 16 * (a / 2 ^ 32)) * 2 ^ 16).
  - rewrite Z.mod_add by pow_lia. reflexivity.
  - change (2 ^ 32) with (2 ^ 16 * 2 ^ 16). lia.
Qed.

(** A coordinate cast to [short] depends on the [int] only through
    its residue modulo [2^32]. *)
Lemma to_short_congruent (a b : Z) :
  a mod 2 ^ 32 = b mod 2 ^ 32 -> to_short a = to_short b.
Proof.
  intros H. apply to_signed_congruent.
  rewrite <- (mod32_mod16 a), <- (mod32_mod16 b), H. reflexivity.
Qed.

Lemma to_int_is_int_eq (v a : Z) :
  is_int v -> v mod 2 ^ 32 = a mod 2 ^ 32 -> v = to_int a.
Proof.
  intros Hv H. rewrite <- (to_int_small v Hv). apply to_signed_congruent. exact H.
Qed.

Lemma to_int_mod (a : Z) : to_int a mod 2 ^ 32 = a mod 2 ^ 32.
Proof. apply to_signed_mod. lia. Qed.

Lemma to_char_range (b : Z) : -128 <= to_char b <= 255.
Proof.
  unfold to_char, to_signed, to_unsigned.
  assert (H := Z.mod_pos_bound b (2 ^ 8) eq_refl).
  change (2 ^ (8 - 1)) with 128. change (2 ^ 8) with 256 in *.
  destruct char_is_signed; [ | lia].
  destruct (Z.ltb_spec (b mod 256) 128); lia.
Qed.

Lemma iterator_at_skipn (buf : list Z) (q : Z) :
  0 <= q -> iterator_at buf q = skipn (Z.to_nat q) buf.
Proof.
  intros Hq. unfold iterator_at.
  destruct (Z.ltb_spec q (Z.of_nat (List.length buf))).
  - reflexivity.
  - symmetry. apply skipn_all2. lia.
Qed.

(** Where the scan of the width string leaves its iterator. *)
Lemma width_scan_iterator (wit : list Z) :
  forall index limit bmpOffset,
    fst (width_scan wit index limit bmpOffset) = skipn (Z.to_nat (limit - index)) wit.
Proof.
  induction wit as [ | c rest IH]; intros index limit off.
  - simpl. rewrite skipn_nil. reflexivity.
  - cbn [width_scan]. destruct (Z.ltb_spec index limit).
    + rewrite IH.
      replace (Z.to_nat (limit - index)) with (S (Z.to_nat (limit - (index + 1)))) by lia.
      reflexivity.
    + replace (Z.to_nat (limit - index)) with 0%nat by lia. reflexivity.
Qed.

(** With a bitmap font, one character moves [x] in [drawString] and
    the width in [stringWidth] by the same amount. *)
Lemma drawString_char_advance
    (gfx : JsGraphicsData) (font : CustomFont) (c x y : Z) (w : World) :
  data_fontSize gfx <= 0 ->
  fst (drawString_char gfx font (to_char c) x y w) mod 2 ^ 32 =
  (x + char_advance gfx font (to_char c)) mod 2 ^ 32.
Proof.
  intros Hsize. unfold drawString_char, char_advance.
  destruct (Z.gtb_spec (data_fontSize gfx) 0); [lia | ].
  destruct (data_fontSize gfx =? JSGRAPHICS_FONTSIZE_4X6).
  { cbn [fst]. apply to_int_mod. }
  destruct (data_fontSize gfx =? JSGRAPHICS_FONTSIZE_CUSTOM).
  - unfold drawString_custom.
    destruct (custom_width_offset font (to_char c)) as [width bmpOffset].
    cbn [fst]. apply to_int_mod.
  - cbn [fst]. rewrite Z.add_0_r. reflexivity.
Qed.

Lemma stringWidth_char_advance
    (gfx : JsGraphicsData) (font : CustomFont) (c width : Z) :
  data_fontSize gfx <= 0 ->
  32 <= SIZE_T_BITS ->
  stringWidth_char gfx font (to_char c) width mod 2 ^ 32 =
  (width + char_advance gfx font (to_char c)) mod 2 ^ 32.
Proof.
  intros Hsize Hsz. unfold stringWidth_char, char_advance.
  destruct (Z.gtb_spec (data_fontSize gfx) 0); [lia | ].
  destruct (data_fontSize gfx =? JSGRAPHICS_FONTSIZE_4X6).
  { apply to_int_mod. }
  destruct (data_fontSize gfx =? JSGRAPHICS_FONTSIZE_CUSTOM).
  - unfold custom_width_offset.
    destruct (customWidth font) as [n | s].
    + cbn [fst]. apply to_int_mod.
    + destruct (Z.geb_spec (to_char c) (to_int (customFirstChar font))) as [Ge | Lt].
      * rewrite to_int_mod.
        assert (R := to_char_range c).
        assert (I := to_int_range (customFirstChar font)). unfold is_int in I.
        assert (P : 2 ^ 32 <= 2 ^ SIZE_T_BITS) by (apply Z.pow_le_mono_r; lia).
        unfold jsvGetCharInString, to_size_t, to_unsigned.
        rewrite (Z.mod_small (to_char c - to_int (customFirstChar font))
                   (2 ^ SIZE_T_BITS)) by pow_lia.
        rewrite iterator_at_skipn by lia.
        rewrite (surjective_pairing (width_scan s 0 _ 0)).
        rewrite width_scan_iterator. rewrite Z.sub_0_r. reflexivity.
      * cbn [fst]. rewrite Z.add_0_r. reflexivity.
  - rewrite Z.add_0_r. reflexivity.
Qed.

Lemma draw_glyphs_advance (gfx : JsGraphicsData) (font : CustomFont) (y : Z)
    (str : list Z) :
  data_fontSize gfx <= 0 ->
  forall x w,
    fst (draw_glyphs gfx font y str x w) mod 2 ^ 32 =
    (x + sum_widths (map (fun c => char_advance gfx font (to_char c)) str)) mod 2 ^ 32.
Proof.
  intros Hsize. induction str as [ | c rest IH]; intros x w.
  - simpl. rewrite Z.add_0_r. reflexivity.
  - cbn [draw_glyphs map sum_widths fold_right].
    assert (A := drawString_char_advance gfx font c x y w Hsize).
    destruct (drawString_char gfx font (to_char c) x y w) as [x1 w1].
    cbn [fst] in A. rewrite IH.
    fold (sum_widths (map (fun c => char_advance gfx font (to_char c)) rest)).
    rewrite Z.add_mod by pow_lia. rewrite A. rewrite <- Z.add_mod by pow_lia.
    f_equal. lia.
Qed.

Lemma stringWidth_loop_advance (gfx : JsGraphicsData) (font : CustomFont)
    (str : list Z) :
  data_fontSize gfx <= 0 ->
  32 <= SIZE_T_BITS ->
  forall width,
    stringWidth_loop gfx font str width mod 2 ^ 32 =
    (width + sum_widths (map (fun c => char_advance gfx font (to_char c)) str))
      mod 2 ^ 32.
Proof.
  intros Hsize Hsz. induction str as [ | c rest IH]; intros width.
  - simpl. rewrite Z.add_0_r. reflexivity.
  - cbn [stringWidth_loop map sum_widths fold_right]. rewrite IH.
    fold (sum_widths (map (fun c => char_advance gfx font (to_char c)) rest)).
    rewrite Z.add_mod by pow_lia.
    rewrite (stringWidth_char_advance gfx font c width Hsize Hsz).
    rewrite <- Z.add_mod by pow_lia. f_equal. lia.
Qed.

Lemma draw_glyphs_is_int (gfx : JsGraphicsData) (font : CustomFont) (y : Z)
    (str : list Z) :
  data_fontSize gfx <= 0 ->
  forall x w, is_int x -> is_int (fst (draw_glyphs gfx font y str x w)).
Proof.
  intros Hsize. induction str as [ | c rest IH]; intros x w Hx.
  - exact Hx.
  - cbn [draw_glyphs].
    assert (I : is_int (fst (drawString_char gfx font (to_char c) x y w))).
    { unfold drawString_char.
      destruct (Z.gtb_spec (data_fontSize gfx) 0); [lia | ].
      destruct (data_fontSize gfx =? JSGRAPHICS_FONTSIZE_4X6);
        [apply to_int_range | ].
      destruct (data_fontSize gfx =? JSGRAPHICS_FONTSIZE_CUSTOM); [ | exact Hx].
      unfold drawString_custom.
      destruct (custom_width_offset font (to_char c)). apply to_int_range. }
    destruct (drawString_char gfx font (to_char c) x y w) as [x1 w1].
    apply IH. exact I.
Qed.

(** X3: with the 4x6 font or a custom font, an undisturbed
    [drawString] moves [x] by exactly what [stringWidth] returns for
    the same string (as [int]s, modulo [2^32]). *)
Theorem drawString_advances_by_stringWidth
    (w : World) (gfx : JsGraphicsData) (str : list Z) (x y : Z) :
  graphicsVar w = Some gfx ->
  data_fontSize gfx <= 0 ->
  32 <= SIZE_T_BITS ->
  is_int x ->
  (forall j, (j < List.length str)%nat -> interrupted (polls w + j) = false) ->
  fst (drawString_loop gfx (fontVars w) y str x w) =
  to_int (x + jswrap_graphics_stringWidth str w).
Proof.
  intros Hw Hsize Hsz Hx Hno.
  rewrite (drawString_loop_undisturbed gfx (fontVars w) y str x w Hno). cbn [fst].
  unfold jswrap_graphics_stringWidth, graphicsGetFromVar. rewrite Hw.
  apply to_int_is_int_eq.
  - apply draw_glyphs_is_int; assumption.
  - rewrite draw_glyphs_advance by exact Hsize.
    rewrite (Z.add_mod x (stringWidth_loop _ _ _ _)) by pow_lia.
    rewrite stringWidth_loop_advance by assumption.
    rewrite Z.add_0_l. rewrite <- Z.add_mod by pow_lia. reflexivity.
Qed.

Lemma stringWidth_loop_total (gfx : JsGraphicsData) (font : CustomFont)
    (advance : Z -> Z) (str : list Z) :
  (forall c width,
     stringWidth_char gfx font (to_char c) width mod 2 ^ 32 =
     (width + advance c) mod 2 ^ 32) ->
  forall width,
    stringWidth_loop gfx font str width mod 2 ^ 32 =
    (width + sum_widths (map advance str)) mod 2 ^ 32.
Proof.
  intros Hchar. induction str as [ | c rest IH]; intros width.
  - simpl. rewrite Z.add_0_r. reflexivity.
  - cbn [stringWidth_loop map sum_widths fold_right]. rewrite IH.
    fold (sum_widths (map advance rest)).
    rewrite Z.add_mod by pow_lia. rewrite Hchar.
    rewrite <- Z.add_mod by pow_lia. f_equal. lia.
Qed.

Lemma stringWidth_loop_is_int (gfx : JsGraphicsData) (font : CustomFont)
    (str : list Z) :
  data_fontSize gfx <= 0 ->
  forall width, is_int width -> is_int (stringWidth_loop gfx font str width).
Proof.
  intros Hsize. induction str as [ | c rest IH]; intros width Hwd.
  - exact Hwd.
  - cbn [stringWidth_loop]. apply IH. unfold stringWidth_char.
    destruct (Z.gtb_spec (data_fontSize gfx) 0); [lia | ].
    destruct (data_fontSize gfx =? JSGRAPHICS_FONTSIZE_4X6); [apply to_int_range | ].
    destruct (data_fontSize gfx =? JSGRAPHICS_FONTSIZE_CUSTOM); [ | exact Hwd].
    destruct (customWidth font); [apply to_int_range | ].
    destruct (_ >=? _); [apply to_int_range | exact Hwd].
Qed.

Lemma sum_widths_constant (a : Z) (str : list Z) :
  sum_widths (map (fun _ => a) str) = a * Z.of_nat (List.length str).
Proof.
  induction str as [ | c rest IH]; cbn [map sum_widths fold_right List.length].
  - lia.
  - fold (sum_widths (map (fun _ => a) rest)). rewrite IH. lia.
Qed.

Lemma stringWidth_char_4x6 (gfx : JsGraphicsData) (font : CustomFont) (c width : Z) :
  data_fontSize gfx = JSGRAPHICS_FONTSIZE_4X6 ->
  JSGRAPHICS_FONTSIZE_4X6 <= 0 ->
  stringWidth_char gfx font (to_char c) width mod 2 ^ 32 = (width + 4) mod 2 ^ 32.
Proof.
  intros H4 Hneg. unfold stringWidth_char.
  destruct (Z.gtb_spec (data_fontSize gfx) 0); [lia | ].
  rewrite H4, Z.eqb_refl. apply to_int_mod.
Qed.

Lemma stringWidth_char_custom (gfx : JsGraphicsData) (font : CustomFont) (c width : Z) :
  data_fontSize gfx = JSGRAPHICS_FONTSIZE_CUSTOM ->
  JSGRAPHICS_FONTSIZE_CUSTOM <= 0 ->
  JSGRAPHICS_FONTSIZE_CUSTOM <> JSGRAPHICS_FONTSIZE_4X6 ->
  stringWidth_char gfx font (to_char c) width =
  match customWidth font with
  | WidthString s =>
      if to_char c >=? to_int (customFirstChar font)
      then to_int (width + to_uchar (jsvGetCharInString s
              (to_size_t (to_char c - to_int (customFirstChar font)))))
      else width
  | WidthInt n => to_int (width + to_int n)
  end.
Proof.
  intros Hc Hneg Hne. unfold stringWidth_char.
  destruct (Z.gtb_spec (data_fontSize gfx) 0); [lia | ].
  rewrite Hc.
  destruct (Z.eqb_spec JSGRAPHICS_FONTSIZE_CUSTOM JSGRAPHICS_FONTSIZE_4X6);
    [contradiction | ].
  rewrite Z.eqb_refl. reflexivity.
Qed.

Lemma stringWidth_char_custom_int
    (gfx : JsGraphicsData) (font : CustomFont) (n c width : Z) :
  data_fontSize gfx = JSGRAPHICS_FONTSIZE_CUSTOM ->
  JSGRAPHICS_FONTSIZE_CUSTOM <= 0 ->
  JSGRAPHICS_FONTSIZE_CUSTOM <> JSGRAPHICS_FONTSIZE_4X6 ->
  customWidth font = WidthInt n ->
  stringWidth_char gfx font (to_char c) width mod 2 ^ 32 = (width + n) mod 2 ^ 32.
Proof.
  intros Hc Hneg Hne Ew. rewrite stringWidth_char_custom by assumption. rewrite Ew.
  rewrite to_int_mod.
  rewrite Z.add_mod by pow_lia. rewrite to_int_mod.
  rewrite <- Z.add_mod by pow_lia. reflexivity.
Qed.

(** A font whose characters all have the width [a]. *)
Lemma stringWidth_constant_width
    (w : World) (gfx : JsGraphicsData) (a : Z) (str : list Z) :
  graphicsVar w = Some gfx ->
  data_fontSize gfx <= 0 ->
  (forall c width,
     stringWidth_char gfx (fontVars w) (to_char c) width mod 2 ^ 32 =
     (width + a) mod 2 ^ 32) ->
  jswrap_graphics_stringWidth str w = to_int (a * Z.of_nat (List.length str)).
Proof.
  intros Hw Hsize Hchar.
  unfold jswrap_graphics_stringWidth, graphicsGetFromVar. rewrite Hw.
  apply to_int_is_int_eq.
  - apply stringWidth_loop_is_int; [assumption | unfold is_int; lia].
  - rewrite (stringWidth_loop_total gfx (fontVars w) (fun _ => a)).
    + rewrite sum_widths_constant. reflexivity.
    + exact Hchar.
Qed.

(** X4: [stringWidth] is the sum of the widths of the characters, as
    an [int]: 4 for each character with the 4x6 font, the width for
    each character with a custom font of one integer width, and with
    a width string the entry of each character, counting nothing for
    a character before the first one or past the end of the
    string. *)
Theorem stringWidth_sums_widths
    (w : World) (gfx : JsGraphicsData) (str : list Z) :
  graphicsVar w = Some gfx ->
  data_fontSize gfx <= 0 ->
  (data_fontSize gfx = JSGRAPHICS_FONTSIZE_4X6 ->
   jswrap_graphics_stringWidth str w = to_int (4 * Z.of_nat (List.length str))) /\
  (data_fontSize gfx = JSGRAPHICS_FONTSIZE_CUSTOM ->
   JSGRAPHICS_FONTSIZE_CUSTOM <> JSGRAPHICS_FONTSIZE_4X6 ->
   match customWidth (fontVars w) with
   | WidthInt n =>
       jswrap_graphics_stringWidth str w = to_int (n * Z.of_nat (List.length str))
   | WidthString s =>
       Forall is_byte s -> 32 <= SIZE_T_BITS ->
       jswrap_graphics_stringWidth str w =
       to_int (sum_widths
                 (map (fun c => table_width s (to_int (customFirstChar (fontVars w)))
                                            (to_char c)) str))
   end).
Proof.
  intros Hw Hsize.
  split.
  - intros H4. apply (stringWidth_constant_width w gfx 4 str Hw Hsize).
    intros c width. apply stringWidth_char_4x6; [exact H4 | lia].
  - intros Hc Hne.
    assert (Hneg : JSGRAPHICS_FONTSIZE_CUSTOM <= 0) by lia.
    destruct (customWidth (fontVars w)) as [n | s] eqn:Ew.
    + apply (stringWidth_constant_width w gfx n str Hw Hsize).
      intros c width. apply stringWidth_char_custom_int; assumption.
    + intros Hs Hsz.
      unfold jswrap_graphics_stringWidth, graphicsGetFromVar. rewrite Hw.
      apply to_int_is_int_eq.
      * apply stringWidth_loop_is_int; [assumption | unfold is_int; lia].
      * rewrite (stringWidth_loop_total gfx (fontVars w)
                   (fun c => table_width s (to_int (customFirstChar (fontVars w)))
                                         (to_char c))); [reflexivity | ].
        intros c width. rewrite stringWidth_char_custom by assumption. rewrite Ew.
        unfold table_width.
        destruct (Z.geb_spec (to_char c) (to_int (customFirstChar (fontVars w))));
          destruct (Z.ltb_spec (to_char c) (to_int (customFirstChar (fontVars w))));
          try lia.
        -- rewrite to_int_mod.
           assert (R := to_char_range c).
           assert (I := to_int_range (customFirstChar (fontVars w))).
           unfold is_int in I.
           assert (P : 2 ^ 32 <= 2 ^ SIZE_T_BITS) by (apply Z.pow_le_mono_r; lia).
           unfold jsvGetCharInString, to_size_t, to_unsigned.
           rewrite (Z.mod_small (to_char c - to_int (customFirstChar (fontVars w)))
                      (2 ^ SIZE_T_BITS)) by pow_lia.
           rewrite iterator_at_skipn by lia.
           unfold jsvStringIteratorGetChar. rewrite hd_skipn_nth.
           rewrite to_uchar_to_char by (apply nth_is_byte; exact Hs). reflexivity.
        -- rewrite Z.add_0_r. reflexivity.
Qed.

(** The glyphs of the 4x6 font, drawn from a position congruent to
    [x0 + 4 k]. *)
Lemma draw_glyphs_4x6 (gfx : JsGraphicsData) (font : CustomFont) (x0 y : Z)
    (str : list Z) :
  data_fontSize gfx = JSGRAPHICS_FONTSIZE_4X6 ->
  JSGRAPHICS_FONTSIZE_4X6 <= 0 ->
  forall (k : nat) (x : Z) (w : World),
    x mod 2 ^ 32 = (x0 + 4 * Z.of_nat k) mod 2 ^ 32 ->
    snd (draw_glyphs gfx font y str x w) =
    add_calls
      (map (fun p : nat * Z =>
              DrawChar4x6 (to_short (x0 + 4 * Z.of_nat (fst p))) (to_short y)
                          (to_char (snd p)))
           (combine (seq k (List.length str)) str))
      w.
Proof.
  intros H4 Hneg. induction str as [ | c rest IH]; intros k x w Hx.
  - simpl. symmetry. apply add_calls_nil.
  - cbn [draw_glyphs List.length seq combine map fst snd].
    unfold drawString_char.
    destruct (Z.gtb_spec (data_fontSize gfx) 0); [lia | ].
    rewrite H4, Z.eqb_refl.
    rewrite (IH (S k)).
    + rewrite emit_add_calls, add_calls_app.
      rewrite (to_short_congruent x (x0 + 4 * Z.of_nat k) Hx). reflexivity.
    + rewrite to_int_mod. rewrite Z.add_mod by pow_lia. rewrite Hx.
      rewrite <- Z.add_mod by pow_lia. f_equal. lia.
Qed.

(** X5: an undisturbed [drawString] with the 4x6 font draws the
    character at index [i] at [(x + 4 i, y)], both cast to [short],
    in the order of the string, and checks for an interrupt once per
    character. *)
Theorem drawString_4x6_layout
    (w : World) (gfx : JsGraphicsData) (str : list Z) (x y : Z) :
  graphicsVar w = Some gfx ->
  data_fontSize gfx = JSGRAPHICS_FONTSIZE_4X6 ->
  JSGRAPHICS_FONTSIZE_4X6 <= 0 ->
  (forall j, (j < List.length str)%nat -> interrupted (polls w + j) = false) ->
  jswrap_graphics_drawString str x y w =
    add_polls (List.length str)
      (add_calls
         (map (fun p : nat * Z =>
                 DrawChar4x6 (to_short (x + 4 * Z.of_nat (fst p))) (to_short y)
                             (to_char (snd p)))
              (combine (seq 0 (List.length str)) str))
         w).
Proof.
  intros Hw H4 Hneg Hno.
  unfold jswrap_graphics_drawString, graphicsGetFromVar. rewrite Hw.
  rewrite (drawString_loop_undisturbed gfx (fontVars w) y str x w Hno). cbn [snd].
  rewrite (draw_glyphs_4x6 gfx (fontVars w) x y str H4 Hneg 0%nat x w).
  - reflexivity.
  - f_equal. simpl. lia.
Qed.

(** ** Concatenation *)

Lemma stringWidth_char_from_zero
    (gfx : JsGraphicsData) (font : CustomFont) (ch width : Z) :
  stringWidth_char gfx font ch width mod 2 ^ 32 =
  (width + stringWidth_char gfx font ch 0) mod 2 ^ 32.
Proof.
  assert (Shift : forall a,
            to_int (width + a) mod 2 ^ 32 = (width + to_int (0 + a)) mod 2 ^ 32).
  { intros a. rewrite to_int_mod. rewrite (Z.add_mod width (to_int _)) by pow_lia.
    rewrite to_int_mod. rewrite <- Z.add_mod by pow_lia. reflexivity. }
  assert (Same : width mod 2 ^ 32 = (width + 0) mod 2 ^ 32)
    by (rewrite Z.add_0_r; reflexivity).
  unfold stringWidth_char.
  destruct (data_fontSize gfx >? 0).
  { destruct SAVE_ON_FLASH; [exact Same | apply Shift]. }
  destruct (data_fontSize gfx =? JSGRAPHICS_FONTSIZE_4X6); [apply Shift | ].
  destruct (data_fontSize gfx =? JSGRAPHICS_FONTSIZE_CUSTOM); [ | exact Same].
  destruct (customWidth font); [apply Shift | ].
  destruct (_ >=? _); [apply Shift | exact Same].
Qed.

Lemma stringWidth_char_is_int
    (gfx : JsGraphicsData) (font : CustomFont) (ch width : Z) :
  is_int width -> is_int (stringWidth_char gfx font ch width).
Proof.
  intros Hwd. unfold stringWidth_char.
  destruct (data_fontSize gfx >? 0).
  { destruct SAVE_ON_FLASH; [exact Hwd | apply to_int_range]. }
  destruct (data_fontSize gfx =? JSGRAPHICS_FONTSIZE_4X6); [apply to_int_range | ].
  destruct (data_fontSize gfx =? JSGRAPHICS_FONTSIZE_CUSTOM); [ | exact Hwd].
  destruct (customWidth font); [apply to_int_range | ].
  destruct (_ >=? _); [apply to_int_range | exact Hwd].
Qed.

Lemma stringWidth_loop_from_zero (gfx : JsGraphicsData) (font : CustomFont)
    (str : list Z) :
  forall width,
    is_int width ->
    is_int (stringWidth_loop gfx font str width) /\
    stringWidth_loop gfx font str width mod 2 ^ 32 =
    (width + stringWidth_loop gfx font str 0) mod 2 ^ 32.
Proof.
  assert (Zero : is_int 0) by (unfold is_int; lia).
  induction str as [ | c rest IH]; intros width Hwd.
  - split; [exact Hwd | ]. simpl. rewrite Z.add_0_r. reflexivity.
  - cbn [stringWidth_loop].
    destruct (IH (stringWidth_char gfx font (to_char c) width)
                 (stringWidth_char_is_int gfx font (to_char c) width Hwd)) as [I1 E1].
    destruct (IH (stringWidth_char gfx font (to_char c) 0)
                 (stringWidth_char_is_int gfx font (to_char c) 0 Zero)) as [_ E0].
    split; [exact I1 | ].
    rewrite E1. rewrite Z.add_mod by pow_lia.
    rewrite stringWidth_char_from_zero. rewrite <- Z.add_mod by pow_lia.
    rewrite (Z.add_mod width (stringWidth_loop _ _ _ _)) by pow_lia.
    rewrite E0. rewrite <- Z.add_mod by pow_lia. f_equal. lia.
Qed.

Lemma stringWidth_loop_app (gfx : JsGraphicsData) (font : CustomFont)
    (s1 s2 : list Z) :
  forall width,
    stringWidth_loop gfx font (s1 ++ s2) width =
    stringWidth_loop gfx font s2 (stringWidth_loop gfx font s1 width).
Proof.
  induction s1 as [ | c rest IH]; intros width; simpl; [reflexivity | apply IH].
Qed.

(** X17: with any font, [stringWidth] of two strings put together
    is the sum of their widths, as an [int]. *)
Theorem stringWidth_app (w : World) (s1 s2 : list Z) :
  jswrap_graphics_stringWidth (s1 ++ s2) w =
  to_int (jswrap_graphics_stringWidth s1 w + jswrap_graphics_stringWidth s2 w).
Proof.
  unfold jswrap_graphics_stringWidth, graphicsGetFromVar.
  destruct (graphicsVar w) as [gfx | ]; [ | reflexivity].
  assert (Zero : is_int 0) by (unfold is_int; lia).
  rewrite stringWidth_loop_app.
  destruct (stringWidth_loop_from_zero gfx (fontVars w) s1 0 Zero) as [I1 _].
  destruct (stringWidth_loop_from_zero gfx (fontVars w) s2 _ I1) as [I2 E2].
  apply to_int_is_int_eq; assumption.
Qed.

(** X18: with the 4x6 font or a custom font, drawing two strings put
    together is drawing the first and then the second from where
    the first ended, [stringWidth] of the first further right; no
    interrupt is raised meanwhile. *)
Theorem drawString_app
    (w : World) (gfx : JsGraphicsData) (s1 s2 : list Z) (x y : Z) :
  graphicsVar w = Some gfx ->
  data_fontSize gfx <= 0 ->
  32 <= SIZE_T_BITS ->
  is_int x ->
  (forall j, (j < List.length (s1 ++ s2))%nat -> interrupted (polls w + j) = false) ->
  jswrap_graphics_drawString (s1 ++ s2) x y w =
  jswrap_graphics_drawString s2 (to_int (x + jswrap_graphics_stringWidth s1 w)) y
    (jswrap_graphics_drawString s1 x y w).
Proof.
  intros Hw Hsize Hsz Hx Hno. rewrite length_app in Hno.
  assert (X1 : to_int (x + jswrap_graphics_stringWidth s1 w) =
               fst (draw_glyphs gfx (fontVars w) y s1 x w)).
  { symmetry. apply to_int_is_int_eq.
    - apply draw_glyphs_is_int; assumption.
    - unfold jswrap_graphics_stringWidth, graphicsGetFromVar. rewrite Hw.
      rewrite draw_glyphs_advance by exact Hsize.
      rewrite (Z.add_mod x (stringWidth_loop _ _ _ _)) by pow_lia.
      rewrite stringWidth_loop_advance by assumption.
      rewrite Z.add_0_l. rewrite <- Z.add_mod by pow_lia. reflexivity. }
  rewrite X1.
  assert (First : jswrap_graphics_drawString s1 x y w =
            add_polls (List.length s1) (snd (draw_glyphs gfx (fontVars w) y s1 x w))).
  { unfold jswrap_graphics_drawString, graphicsGetFromVar. rewrite Hw.
    rewrite drawString_loop_undisturbed by (intros j Hj; apply Hno; lia).
    reflexivity. }
  rewrite First.
  destruct (draw_glyphs_extends gfx (fontVars w) y s1 x w) as (Hg & Hf & Hp & _).
  unfold jswrap_graphics_drawString at 2. unfold graphicsGetFromVar.
  cbn [add_polls graphicsVar fontVars]. rewrite Hg, Hw, Hf.
  fold (add_polls (List.length s1) (snd (draw_glyphs gfx (fontVars w) y s1 x w))).
  rewrite drawString_loop_undisturbed.
  - cbn [snd]. rewrite draw_glyphs_polls. cbn [snd]. rewrite add_polls_add.
    unfold jswrap_graphics_drawString, graphicsGetFromVar. rewrite Hw.
    rewrite drawString_loop_undisturbed
      by (intros j Hj; apply Hno; rewrite length_app in Hj; lia).
    cbn [snd]. rewrite draw_glyphs_app, length_app.
    f_equal. lia.
  - intros j Hj. cbn [add_polls polls]. rewrite Hp.
    replace (List.length s1 + polls w + j)%nat
      with (polls w + (List.length s1 + j))%nat by lia.
    apply Hno. lia.
Qed.

(** ** Rotation, continued *)

Lemma setRotation_flags_overrides (flags r1 r2 : Z) (b1 b2 : bool) :
  flag_bits_distinct ->
  setRotation_flags (setRotation_flags flags r1 b1) r2 b2 = setRotation_flags flags r2 b2.
Proof.
  intros Hd. apply Z.bits_inj. intros i.
  rewrite !setRotation_flags_testbit by exact Hd.
  eqb_cases; reflexivity.
Qed.

(** X6: [setRotation] does not look at the transform the surface
    had: after any earlier [setRotation], the surface is as if only
    the last one had been called. *)
Theorem setRotation_last_call_wins
    (w : World) (gfx : JsGraphicsData) (r1 r2 : Z) (b1 b2 : bool) :
  flag_bits_distinct ->
  graphicsVar w = Some gfx ->
  jswrap_graphics_setRotation r2 b2 (jswrap_graphics_setRotation r1 b1 w) =
  jswrap_graphics_setRotation r2 b2 w.
Proof.
  intros Hd Hw. unfold jswrap_graphics_setRotation, graphicsGetFromVar. rewrite Hw.
  simpl. rewrite setRotation_flags_overrides by exact Hd. reflexivity.
Qed.

(** X7: the four rotations, each with and without reflection, give
    eight different settings of the three transform flags: two calls
    of [setRotation] with rotations in 0..3 leave the same flags only
    when their arguments are the same. *)
Theorem setRotation_orientations_distinct
    (w : World) (gfx : JsGraphicsData) (r1 r2 : Z) (b1 b2 : bool) :
  flag_bits_distinct ->
  graphicsVar w = Some gfx ->
  0 <= r1 <= 3 ->
  0 <= r2 <= 3 ->
  jswrap_graphics_setRotation r1 b1 w = jswrap_graphics_setRotation r2 b2 w ->
  r1 = r2 /\ b1 = b2.
Proof.
  intros Hd Hw H1 H2. unfold jswrap_graphics_setRotation, graphicsGetFromVar.
  rewrite Hw. intros E. unfold graphicsSetVar in E. injection E as E.
  assert (Es := f_equal (fun f => Z.testbit f swap_xy_bit) E).
  assert (Ex := f_equal (fun f => Z.testbit f invert_x_bit) E).
  assert (Ey := f_equal (fun f => Z.testbit f invert_y_bit) E).
  cbv beta in Es, Ex, Ey.
  rewrite !setRotation_flags_testbit in Es, Ex, Ey by exact Hd.
  destruct Hd as (Hs & Hx & Hy & Hsx & Hsy & Hxy).
  rewrite Z.eqb_refl in Es, Ex, Ey.
  destruct (Z.eqb_spec invert_x_bit swap_xy_bit); [lia | ].
  destruct (Z.eqb_spec invert_y_bit swap_xy_bit); [lia | ].
  destruct (Z.eqb_spec invert_y_bit invert_x_bit); [lia | ].
  assert (C1 : r1 = 0 \/ r1 = 1 \/ r1 = 2 \/ r1 = 3) by lia.
  assert (C2 : r2 = 0 \/ r2 = 1 \/ r2 = 2 \/ r2 = 3) by lia.
  destruct C1 as [-> | [-> | [-> | ->]]]; destruct C2 as [-> | [-> | [-> | ->]]];
    destruct b1, b2; simpl in Es, Ex, Ey;
    try discriminate; split; reflexivity.
Qed.

(** ** Paths *)

Lemma last_cons_default {A : Type} (l : list A) :
  forall (a d d' : A), last (a :: l) d = last (a :: l) d'.
Proof.
  induction l as [ | b l IH]; intros a d d'.
  - reflexivity.
  - change (last (a :: b :: l) d) with (last (b :: l) d).
    change (last (a :: b :: l) d') with (last (b :: l) d'). apply IH.
Qed.

Lemma lineTo_each_path (pts : list (Z * Z)) :
  forall (w : World) (gfx : JsGraphicsData),
    graphicsVar w = Some gfx ->
    calls (lineTo_each pts w) =
      calls w ++ path_segments (data_cursorX gfx) (data_cursorY gfx) pts /\
    option_map (fun g => (data_cursorX g, data_cursorY g))
               (graphicsVar (lineTo_each pts w)) =
      Some (last (map (fun p => (to_short (fst p), to_short (snd p))) pts)
                 (data_cursorX gfx, data_cursorY gfx)).
Proof.
  induction pts as [ | [x y] rest IH]; intros w gfx Hw.
  - simpl. rewrite app_nil_r, Hw. split; reflexivity.
  - cbn [lineTo_each path_segments].
    assert (Step : jswrap_graphics_lineTo x y w =
              graphicsSetVar (set_cursorY (set_cursorX gfx (to_short x)) (to_short y))
                (graphicsDrawLine (data_cursorX gfx) (data_cursorY gfx)
                                  (to_short x) (to_short y) w)).
    { unfold jswrap_graphics_lineTo, graphicsGetFromVar. rewrite Hw. reflexivity. }
    destruct (IH (jswrap_graphics_lineTo x y w)
                 (set_cursorY (set_cursorX gfx (to_short x)) (to_short y)))
      as [Hcalls Hcursor].
    { rewrite Step. reflexivity. }
    split.
    + rewrite Hcalls, Step. simpl. rewrite <- app_assoc. reflexivity.
    + rewrite Hcursor. cbn [map fst snd set_cursorX set_cursorY data_cursorX data_cursorY].
      destruct rest as [ | q rest]; [reflexivity | ].
      cbn [map]. f_equal.
      change (last ((to_short x, to_short y) :: ?l) ?d) with (last l d).
      apply last_cons_default.
Qed.

Lemma drawLine_each_path (pts : list (Z * Z)) :
  forall (w : World) (gfx : JsGraphicsData) (x0 y0 : Z),
    graphicsVar w = Some gfx ->
    calls (drawLine_each x0 y0 pts w) =
      calls w ++ path_segments (to_short x0) (to_short y0) pts.
Proof.
  induction pts as [ | [x y] rest IH]; intros w gfx x0 y0 Hw.
  - simpl. rewrite app_nil_r. reflexivity.
  - cbn [drawLine_each path_segments].
    assert (Step : jswrap_graphics_drawLine x0 y0 x y w =
              graphicsDrawLine (to_short x0) (to_short y0) (to_short x) (to_short y) w).
    { unfold jswrap_graphics_drawLine, graphicsGetFromVar. rewrite Hw. reflexivity. }
    rewrite (IH _ gfx) by (rewrite Step; exact Hw).
    rewrite Step. simpl. rewrite <- app_assoc. reflexivity.
Qed.

(** X8: [moveTo] followed by a [lineTo] for each point of a path
    draws the segments of the path in order, each from the point
    before to the point, with every coordinate cast to [short]; it
    draws what [drawLine] draws for each segment, and leaves the
    cursor at the last point. *)
Theorem moveTo_lineTo_draws_path
    (w : World) (gfx : JsGraphicsData) (x0 y0 : Z) (pts : list (Z * Z)) :
  graphicsVar w = Some gfx ->
  calls (lineTo_each pts (jswrap_graphics_moveTo x0 y0 w)) =
    calls w ++ path_segments (to_short x0) (to_short y0) pts /\
  calls (lineTo_each pts (jswrap_graphics_moveTo x0 y0 w)) =
    calls (drawLine_each x0 y0 pts w) /\
  option_map (fun g => (data_cursorX g, data_cursorY g))
             (graphicsVar (lineTo_each pts (jswrap_graphics_moveTo x0 y0 w))) =
    Some (last (map (fun p => (to_short (fst p), to_short (snd p))) pts)
               (to_short x0, to_short y0)).
Proof.
  intros Hw.
  assert (Move : jswrap_graphics_moveTo x0 y0 w =
            graphicsSetVar (set_cursorY (set_cursorX gfx (to_short x0)) (to_short y0)) w).
  { unfold jswrap_graphics_moveTo, graphicsGetFromVar. rewrite Hw. reflexivity. }
  destruct (lineTo_each_path pts (jswrap_graphics_moveTo x0 y0 w)
              (set_cursorY (set_cursorX gfx (to_short x0)) (to_short y0)))
    as [Hcalls Hcursor].
  { rewrite Move. reflexivity. }
  assert (Same : calls (jswrap_graphics_moveTo x0 y0 w) = calls w)
    by (rewrite Move; reflexivity).
  rewrite Same in Hcalls.
  split; [exact Hcalls | split; [ | exact Hcursor]].
  rewrite Hcalls. symmetry. apply (drawLine_each_path pts w gfx). exact Hw.
Qed.

(** ** Reading a colour back *)

Lemma mod32_mod_pow2 (a k : Z) :
  0 <= k <= 32 -> (a mod 2 ^ 32) mod 2 ^ k = a mod 2 ^ k.
Proof.
  intros Hk. apply Z.bits_inj'. intros i Hi.
  destruct (Z_lt_le_dec i k).
  - rewrite !Z.mod_pow2_bits_low by lia. reflexivity.
  - rewrite !Z.mod_pow2_bits_high by lia. reflexivity.
Qed.

(** What [getColor] and [getBgColor] return for a stored colour, at
    a depth of at most 30. *)
Lemma getColorX_masks (w : World) (gfx : JsGraphicsData) (isForeground : bool) :
  graphicsVar w = Some gfx ->
  32 <= LONG_BITS -> 32 <= JSVARINT_BITS ->
  0 <= data_bpp gfx <= 30 ->
  0 <= (if isForeground then data_fgColor gfx else data_bgColor gfx) < 2 ^ 32 ->
  jswrap_graphics_getColorX isForeground w =
    Some ((if isForeground then data_fgColor gfx else data_bgColor gfx)
          mod 2 ^ data_bpp gfx).
Proof.
  intros Hw HL HJ Hb Hc.
  unfold jswrap_graphics_getColorX, graphicsGetFromVar, long_shl. rewrite Hw.
  set (color := if isForeground then data_fgColor gfx else data_bgColor gfx) in *.
  set (bpp := data_bpp gfx) in *.
  destruct (Z.leb_spec 0 bpp); [ | lia].
  destruct (Z.ltb_spec bpp LONG_BITS); [ | lia]. cbn [andb]. rewrite Z.mul_1_l.
  assert (P : 0 < 2 ^ bpp) by (apply Z.pow_pos_nonneg; lia).
  assert (Q : 2 ^ bpp <= 2 ^ 30) by (apply Z.pow_le_mono_r; lia).
  assert (R : 2 ^ 31 <= 2 ^ (LONG_BITS - 1)) by (apply Z.pow_le_mono_r; lia).
  assert (S : 2 ^ 31 <= 2 ^ (JSVARINT_BITS - 1)) by (apply Z.pow_le_mono_r; lia).
  assert (T : 2 ^ 32 <= 2 ^ LONG_BITS) by (apply Z.pow_le_mono_r; lia).
  rewrite (to_signed_small LONG_BITS (2 ^ bpp)) by pow_lia.
  rewrite (to_signed_small LONG_BITS (2 ^ bpp - 1)) by pow_lia.
  assert (Masked : Z.land color (2 ^ bpp - 1) = color mod 2 ^ bpp).
  { replace (2 ^ bpp - 1) with (Z.ones bpp) by (rewrite Z.ones_equiv; lia).
    apply Z.land_ones. lia. }
  assert (Small : 0 <= color mod 2 ^ bpp < 2 ^ bpp) by (apply Z.mod_pos_bound; lia).
  destruct (LONG_BITS <=? 32).
  - unfold to_unsigned. rewrite (Z.mod_small color) by pow_lia.
    rewrite (Z.mod_small (2 ^ bpp - 1)) by pow_lia.
    rewrite Masked. rewrite to_signed_small by pow_lia. reflexivity.
  - rewrite Masked. rewrite to_signed_small by pow_lia. reflexivity.
Qed.

(** X9: a colour set as one integer is read back reduced to the
    depth of the surface: at a depth of at most 30, [getColor] after
    [setColor(c)] is [c mod 2^bpp], and so [c] itself when [c] fits
    the depth; likewise for the background colour.  Setting one of
    the two colours leaves what is read for the other. *)
Theorem getColor_after_setColor
    (w : World) (gfx : JsGraphicsData) (c : Z) (isForeground : bool) :
  graphicsVar w = Some gfx ->
  32 <= LONG_BITS -> 32 <= JSVARINT_BITS ->
  0 <= data_bpp gfx <= 30 ->
  exists w',
    jswrap_graphics_setColorX (JsNumber (inject_Z c)) JsUndefined JsUndefined
                              isForeground w = Some w' /\
    jswrap_graphics_getColorX isForeground w' = Some (c mod 2 ^ data_bpp gfx) /\
    (0 <= c < 2 ^ data_bpp gfx -> jswrap_graphics_getColorX isForeground w' = Some c) /\
    jswrap_graphics_getColorX (negb isForeground) w' =
      jswrap_graphics_getColorX (negb isForeground) w.
Proof.
  intros Hw HL HJ Hb.
  unfold jswrap_graphics_setColorX, graphicsGetFromVar, setColorX_color. rewrite Hw.
  cbn [jsvIsUndefined negb andb jsvGetInteger].
  assert (Tr : truncate (inject_Z c) = c) by (unfold truncate; simpl; apply Z.quot_1_r).
  rewrite Tr. eexists. split; [reflexivity | ].
  assert (U : 0 <= to_uint c < 2 ^ 32)
    by (unfold to_uint, to_unsigned; apply Z.mod_pos_bound; pow_lia).
  assert (Get : jswrap_graphics_getColorX isForeground
                  (graphicsSetVar (if isForeground then set_fgColor gfx (to_uint c)
                                   else set_bgColor gfx (to_uint c)) w) =
                Some (c mod 2 ^ data_bpp gfx)).
  { rewrite (getColorX_masks _ (if isForeground then set_fgColor gfx (to_uint c)
                                else set_bgColor gfx (to_uint c)));
      try assumption; destruct isForeground; try reflexivity; try assumption;
      cbn [set_fgColor set_bgColor data_fgColor data_bgColor data_bpp];
      unfold to_uint, to_unsigned; rewrite mod32_mod_pow2 by lia; reflexivity. }
  split; [exact Get | split].
  - intros Hc. rewrite Get. rewrite Z.mod_small by exact Hc. reflexivity.
  - unfold jswrap_graphics_getColorX, graphicsGetFromVar. rewrite Hw.
    destruct isForeground; reflexivity.
Qed.

(** X19: after [setRotation] with rotation 1 or 3, [getWidth] gives
    the stored height and [getHeight] the stored width; after any
    other rotation they give the stored width and height.  The
    reflection changes neither. *)
Theorem getWidth_getHeight_after_setRotation
    (w : World) (gfx : JsGraphicsData) (rotation : Z) (reflect : bool) :
  flag_bits_distinct ->
  graphicsVar w = Some gfx ->
  let w' := jswrap_graphics_setRotation rotation reflect w in
  (rotation = 1 \/ rotation = 3 ->
   jswrap_graphics_getWidthOrHeight false w' = data_height gfx /\
   jswrap_graphics_getWidthOrHeight true w' = data_width gfx) /\
  (rotation <> 1 -> rotation <> 3 ->
   jswrap_graphics_getWidthOrHeight false w' = data_width gfx /\
   jswrap_graphics_getWidthOrHeight true w' = data_height gfx).
Proof.
  intros Hd Hw w'. subst w'.
  rewrite !(getWidthOrHeight_after_setRotation w gfx rotation reflect) by assumption.
  unfold table_swap_xy. split.
  - intros [-> | ->]; split; reflexivity.
  - intros N1 N3.
    destruct (Z.eqb_spec rotation 1); [contradiction | ].
    destruct (Z.eqb_spec rotation 3); [contradiction | ].
    split; reflexivity.
Qed.

(** ** Selecting a font *)


(** X11: after a [setFontCustom] with an integer width that is
    accepted, [stringWidth] of a string is that width times the
    length of the string, as an [int]. *)
Theorem stringWidth_after_setFontCustom
    (w : World) (gfx : JsGraphicsData)
    (bmp : list Z) (firstChar n height : Z) (str : list Z) :
  graphicsVar w = Some gfx ->
  JSGRAPHICS_FONTSIZE_CUSTOM <= 0 ->
  JSGRAPHICS_FONTSIZE_CUSTOM <> JSGRAPHICS_FONTSIZE_4X6 ->
  0 <= firstChar <= 255 ->
  0 < height <= 255 ->
  jswrap_graphics_stringWidth str
    (jswrap_graphics_setFontCustom (ArgString bmp) firstChar (ArgInt n) height w) =
  to_int (n * Z.of_nat (List.length str)).
Proof.
  intros Hw Hneg Hne Hfc Hh.
  assert (Run : jswrap_graphics_setFontCustom (ArgString bmp) firstChar (ArgInt n)
                  height w =
                mkWorld (Some (set_fontSize gfx JSGRAPHICS_FONTSIZE_CUSTOM))
                        (mkFont bmp (WidthInt n) height firstChar)
                        (calls w) (polls w)).
  { unfold jswrap_graphics_setFontCustom, graphicsGetFromVar. rewrite Hw.
    destruct (Z.ltb_spec firstChar 0); [lia | ].
    destruct (Z.gtb_spec firstChar 255); [lia | ].
    destruct (Z.leb_spec height 0); [lia | ].
    destruct (Z.gtb_spec height 255); [lia | ].
    reflexivity. }
  rewrite Run.
  apply (stringWidth_constant_width _ (set_fontSize gfx JSGRAPHICS_FONTSIZE_CUSTOM));
    [reflexivity | exact Hneg | ].
  intros c width. apply stringWidth_char_custom_int; solve [reflexivity | assumption].
Qed.

(** X12: [setFontVector] selects a vector font whose size is the
    argument clamped to 1..1023, and [setFontBitmap] selects the 4x6
    font; both remove the custom font data when the custom font was
    selected and keep it otherwise, and draw nothing.  After
    [setFontBitmap], [stringWidth] is 4 times the length of the
    string, as an [int]. *)
Theorem setFontSizeX_selects
    (w : World) (gfx : JsGraphicsData) (size : Z) (str : list Z) :
  graphicsVar w = Some gfx ->
  is_short JSGRAPHICS_FONTSIZE_4X6 ->
  JSGRAPHICS_FONTSIZE_4X6 <= 0 ->
  let kept :=
    if data_fontSize gfx =? JSGRAPHICS_FONTSIZE_CUSTOM
    then no_custom_font else fontVars w in
  jswrap_graphics_setFontVector size w =
    mkWorld (Some (set_fontSize gfx (Z.max 1 (Z.min 1023 size)))) kept
            (calls w) (polls w) /\
  jswrap_graphics_setFontBitmap w =
    mkWorld (Some (set_fontSize gfx JSGRAPHICS_FONTSIZE_4X6)) kept
            (calls w) (polls w) /\
  jswrap_graphics_stringWidth str (jswrap_graphics_setFontBitmap w) =
    to_int (4 * Z.of_nat (List.length str)).
Proof.
  intros Hw Hshort Hneg kept.
  assert (Vector : jswrap_graphics_setFontVector size w =
            mkWorld (Some (set_fontSize gfx (Z.max 1 (Z.min 1023 size)))) kept
                    (calls w) (polls w)).
  { unfold jswrap_graphics_setFontVector, jswrap_graphics_setFontSizeX,
      graphicsGetFromVar, kept.
    rewrite Hw.
    assert (Clamp : (if (if size <? 1 then 1 else size) >? 1023 then 1023
                     else (if size <? 1 then 1 else size)) = Z.max 1 (Z.min 1023 size)).
    { destruct (Z.ltb_spec size 1);
        match goal with |- context [?a >? 1023] => destruct (Z.gtb_spec a 1023) end;
        lia. }
    rewrite Clamp. rewrite to_short_small by (unfold is_short; pow_lia).
    destruct (data_fontSize gfx =? JSGRAPHICS_FONTSIZE_CUSTOM); reflexivity. }
  assert (Bitmap : jswrap_graphics_setFontBitmap w =
            mkWorld (Some (set_fontSize gfx JSGRAPHICS_FONTSIZE_4X6)) kept
                    (calls w) (polls w)).
  { unfold jswrap_graphics_setFontBitmap, jswrap_graphics_setFontSizeX,
      graphicsGetFromVar, kept.
    rewrite Hw. rewrite to_short_small by exact Hshort.
    destruct (data_fontSize gfx =? JSGRAPHICS_FONTSIZE_CUSTOM); reflexivity. }
  split; [exact Vector | split; [exact Bitmap | ]].
  rewrite Bitmap.
  apply (stringWidth_constant_width _ (set_fontSize gfx JSGRAPHICS_FONTSIZE_4X6));
    [reflexivity | exact Hneg | ].
  intros c width. apply stringWidth_char_4x6; solve [reflexivity | assumption].
Qed.

(** ** Creating a surface *)

Lemma isValidBPP_spec (bpp : Z) :
  isValidBPP bpp = true <-> In bpp [1; 2; 4; 8; 16; 24; 32].
Proof using.
  clear - bpp. unfold isValidBPP. simpl. rewrite !orb_true_iff, !Z.eqb_eq. intuition lia.
Qed.

Lemma size_check (width height : Z) :
  ((width <=? 0) || (height <=? 0) || (width >? 1023) || (height >? 1023)) = false <->
  1 <= width <= 1023 /\ 1 <= height <= 1023.
Proof using.
  clear - width height. rewrite !orb_false_iff, !Z.leb_gt.
  destruct (Z.gtb_spec width 1023); destruct (Z.gtb_spec height 1023);
    intuition (try lia; try discriminate).
Qed.

Lemma set_geometry_valid (d : JsGraphicsData) (width height bpp : Z) :
  1 <= width <= 1023 -> 1 <= height <= 1023 -> In bpp [1; 2; 4; 8; 16; 24; 32] ->
  data_width (set_geometry d width height bpp) = width /\
  data_height (set_geometry d width height bpp) = height /\
  data_bpp (set_geometry d width height bpp) = bpp.
Proof using.
  intros Hw Hh Hb. clear - Hw Hh Hb. unfold set_geometry. cbn [data_width data_height data_bpp].
  unfold to_unsigned, to_uchar, to_unsigned.
  rewrite !Z.mod_small; try pow_lia; auto.
  simpl in Hb. intuition (subst; pow_lia).
Qed.

(** X13: every way of creating a surface checks the size and the
    depth first.  [createArrayBuffer], [createCallback] and
    [createSDL] give a surface only for a width and a height in
    1..1023 and (for the first two) a depth of 1, 2, 4, 8, 16, 24 or
    32, and the surface has that width, height and depth (32 for
    SDL); a size outside 1..1023 is answered with the warning
    "Invalid Size", whatever the other arguments. *)
Theorem created_surface_is_valid
    (width height bpp : Z) (options : option (bool * bool))
    (callback : CallbackArg) (memory : bool)
    (warnings : list string) (data : JsGraphicsData) :
  (jswrap_graphics_createArrayBuffer width height bpp options memory =
     CreateOk warnings data \/
   jswrap_graphics_createCallback width height bpp callback memory =
     CreateOk warnings data ->
   1 <= width <= 1023 /\ 1 <= height <= 1023 /\
   In bpp [1; 2; 4; 8; 16; 24; 32] /\
   data_width data = width /\ data_height data = height /\ data_bpp data = bpp) /\
  (jswrap_graphics_createSDL width height memory = CreateOk warnings data ->
   1 <= width <= 1023 /\ 1 <= height <= 1023 /\
   data_width data = width /\ data_height data = height /\ data_bpp data = 32) /\
  (~ (1 <= width <= 1023 /\ 1 <= height <= 1023) ->
   jswrap_graphics_createArrayBuffer width height bpp options memory =
     CreateWarned "Invalid Size" /\
   jswrap_graphics_createCallback width height bpp callback memory =
     CreateWarned "Invalid Size" /\
   jswrap_graphics_createSDL width height memory = CreateWarned "Invalid Size").
Proof using graphicsStructInit JSGRAPHICSFLAGS_NONE
  JSGRAPHICSFLAGS_ARRAYBUFFER_ZIGZAG JSGRAPHICSFLAGS_ARRAYBUFFER_VERTICAL_BYTE.
  unfold jswrap_graphics_createArrayBuffer, jswrap_graphics_createCallback,
    jswrap_graphics_createSDL.
  destruct ((width <=? 0) || (height <=? 0) || (width >? 1023) || (height >? 1023))
    eqn:Size.
  { split; [intros [H | H]; discriminate | ].
    split; [intros H; discriminate | ].
    intros _. repeat split. }
  apply size_check in Size. destruct Size as [Hw Hh].
  split; [ | split; [ | intros N; exfalso; apply N; split; assumption]].
  - destruct (isValidBPP bpp) eqn:Valid; cbn [negb];
      [ | intros [H | H]; discriminate].
    apply isValidBPP_spec in Valid.
    destruct (set_geometry_valid (set_flags graphicsStructInit JSGRAPHICSFLAGS_NONE)
                width height bpp Hw Hh Valid) as (Gw & Gh & Gb).
    destruct (set_geometry_valid graphicsStructInit width height bpp Hw Hh Valid)
      as (Cw & Ch & Cb).
    intros [H | H].
    + destruct memory; cbn [negb] in H; [ | discriminate].
      destruct options as [[zigzag vertical] | ].
      * destruct zigzag, vertical; cbn [set_flags data_bpp] in H;
          try (destruct (_ =? 1) in H); injection H as _ <-;
          cbn [set_flags data_width data_height data_bpp];
          cbn [set_flags data_width data_height data_bpp] in Gw, Gh, Gb;
          auto 10.
      * injection H as _ <-. auto 10.
    + destruct callback as [sp fr | v].
      * destruct sp; cbn [jsvIsFunction negb] in H; try discriminate.
        destruct fr; cbn [jsvIsFunction negb andb] in H; try discriminate;
          (destruct memory; cbn [negb] in H; [ | discriminate]);
          injection H as _ <-; auto 10.
      * destruct v; cbn [jsvIsFunction negb andb] in H; try discriminate.
        destruct memory; cbn [negb] in H; [ | discriminate].
        injection H as _ <-. auto 10.
  - destruct memory; cbn [negb]; [ | intros H; discriminate].
    intros H. injection H as _ <-.
    cbn [set_geometry data_width data_height data_bpp].
    unfold to_unsigned. rewrite !Z.mod_small by pow_lia. auto 10.
Qed.

(** ** What no operation does *)

Lemma drawImage_loop_graphicsVar (gfx : JsGraphicsData)
    (imageWidth imageHeight imageBpp mask : Z)
    (transp : bool) (transpCol xPos yPos : Z) (fuel : nat) :
  forall it x y bits colData w w',
    drawImage_loop fuel gfx imageWidth imageHeight imageBpp mask
                   transp transpCol xPos yPos it x y bits colData w = Some w' ->
    graphicsVar w' = graphicsVar w.
Proof.
  induction fuel as [ | fuel IH]; intros it x y bits colData w w'; cbn [drawImage_loop].
  - destruct (_ && _); [discriminate | ]. intros H. injection H as <-. reflexivity.
  - destruct (_ && _); [ | intros H; injection H as <-; reflexivity].
    destruct (drawImage_fill (Z.to_nat imageBpp) imageBpp (it, bits, colData))
      as [[it' bits'] colData'].
    destruct (x + 1 >=? imageWidth); intros H; apply IH in H; rewrite H;
      destruct (negb transp || _); reflexivity.
Qed.

Lemma drawString_loop_graphicsVar (gfx : JsGraphicsData) (font : CustomFont) (y : Z)
    (str : list Z) :
  forall x w, graphicsVar (snd (drawString_loop gfx font y str x w)) = graphicsVar w.
Proof.
  induction str as [ | c rest IH]; intros x w; cbn [drawString_loop].
  - reflexivity.
  - assert (E := drawString_char_extends gfx font (to_char c) x y w).
    destruct (drawString_char gfx font (to_char c) x y w) as [x1 w1].
    destruct E as (Hg & _). cbn [snd] in Hg.
    unfold jspIsInterrupted. destruct (interrupted (polls w1)).
    + cbn [snd graphicsVar]. exact Hg.
    + rewrite IH. cbn [graphicsVar]. exact Hg.
Qed.

(** X14: no drawing or state operation changes the width, the
    height or the depth of a surface: [setPixel], [moveTo],
    [lineTo], [drawLine], [setColor] and [setBgColor], [fillPoly],
    [setRotation], [setFontCustom], [setFontBitmap] and
    [setFontVector], [drawString] and [drawImage] all leave them as
    they were. *)
Theorem operations_keep_geometry (w : World) :
  (forall x y color,
     surface_geometry (jswrap_graphics_setPixel x y color w) = surface_geometry w) /\
  (forall x y, surface_geometry (jswrap_graphics_moveTo x y w) = surface_geometry w) /\
  (forall x y, surface_geometry (jswrap_graphics_lineTo x y w) = surface_geometry w) /\
  (forall x1 y1 x2 y2,
     surface_geometry (jswrap_graphics_drawLine x1 y1 x2 y2 w) = surface_geometry w) /\
  (forall r g b isForeground w',
     jswrap_graphics_setColorX r g b isForeground w = Some w' ->
     surface_geometry w' = surface_geometry w) /\
  (forall poly, surface_geometry (jswrap_graphics_fillPoly poly w) = surface_geometry w) /\
  (forall rotation reflect,
     surface_geometry (jswrap_graphics_setRotation rotation reflect w) =
     surface_geometry w) /\
  (forall bitmap firstChar width height,
     surface_geometry (jswrap_graphics_setFontCustom bitmap firstChar width height w) =
     surface_geometry w) /\
  (forall size checkValid,
     surface_geometry (jswrap_graphics_setFontSizeX size checkValid w) =
     surface_geometry w) /\
  (forall str x y,
     surface_geometry (jswrap_graphics_drawString str x y w) = surface_geometry w) /\
  (forall image xPos yPos w',
     jswrap_graphics_drawImage image xPos yPos w = Some w' ->
     surface_geometry w' = surface_geometry w).
Proof.
  unfold surface_geometry.
  repeat split.
  - intros x y color. rewrite setPixel_leaves_graphicsVar. reflexivity.
  - intros x y. unfold jswrap_graphics_moveTo, graphicsGetFromVar.
    destruct (graphicsVar w) eqn:E; [reflexivity | rewrite E; reflexivity].
  - intros x y. unfold jswrap_graphics_lineTo, graphicsGetFromVar.
    destruct (graphicsVar w) eqn:E; [reflexivity | rewrite E; reflexivity].
  - intros x1 y1 x2 y2. unfold jswrap_graphics_drawLine, graphicsGetFromVar.
    destruct (graphicsVar w) eqn:E; cbn [graphicsDrawLine emit graphicsVar];
      rewrite E; reflexivity.
  - intros r g b fg w'. unfold jswrap_graphics_setColorX, graphicsGetFromVar.
    destruct (graphicsVar w) as [gfx | ] eqn:E.
    + destruct (setColorX_color (data_bpp gfx) r g b); [ | discriminate].
      intros H. injection H as <-. destruct fg; reflexivity.
    + intros H. injection H as <-. rewrite E. reflexivity.
  - intros poly. unfold jswrap_graphics_fillPoly, graphicsGetFromVar.
    destruct (graphicsVar w) as [gfx | ] eqn:E; [ | rewrite E; reflexivity].
    destruct poly as [items | ]; [ | rewrite E; reflexivity].
    destruct (fillPoly_collect items 0 []) as [idx verts].
    destruct (idx =? maxVerts); cbn [emit graphicsVar]; rewrite E; reflexivity.
  - intros rotation reflect. unfold jswrap_graphics_setRotation, graphicsGetFromVar.
    destruct (graphicsVar w) eqn:E; [reflexivity | rewrite E; reflexivity].
  - intros bitmap firstChar width height.
    unfold jswrap_graphics_setFontCustom, graphicsGetFromVar.
    destruct (graphicsVar w) as [gfx | ] eqn:E; [ | rewrite E; reflexivity].
    destruct bitmap; cbn [emit graphicsVar]; try (rewrite E; reflexivity).
    destruct ((firstChar <? 0) || (firstChar >? 255));
      cbn [emit graphicsVar]; try (rewrite E; reflexivity).
    destruct width; cbn [emit graphicsVar]; try (rewrite E; reflexivity);
      destruct ((height <=? 0) || (height >? 255));
      cbn [emit graphicsVar]; try (rewrite E; reflexivity); reflexivity.
  - intros size checkValid. unfold jswrap_graphics_setFontSizeX, graphicsGetFromVar.
    destruct (graphicsVar w) eqn:E; [reflexivity | rewrite E; reflexivity].
  - intros str x y. unfold jswrap_graphics_drawString, graphicsGetFromVar.
    destruct (graphicsVar w) as [gfx | ] eqn:E; [ | rewrite E; reflexivity].
    rewrite drawString_loop_graphicsVar, E. reflexivity.
  - intros image xPos yPos w'. unfold jswrap_graphics_drawImage, graphicsGetFromVar.
    destruct (graphicsVar w) as [gfx | ] eqn:E.
    + destruct image as [img | ].
      * destruct (image_buffer img);
          [ | intros H; injection H as <-; cbn [emit graphicsVar]; rewrite E; reflexivity].
        destruct (_ && _);
          [ | intros H; injection H as <-; cbn [emit graphicsVar]; rewrite E; reflexivity].
        destruct (imageBitMask _); [ | discriminate].
        intros H. apply drawImage_loop_graphicsVar in H. rewrite H, E. reflexivity.
      * intros H. injection H as <-. cbn [emit graphicsVar]. rewrite E. reflexivity.
    + intros H. injection H as <-. rewrite E. reflexivity.
Qed.

(** X15: when the object does not resolve to a surface, every
    operation returns at once: nothing is drawn, warned or stored,
    no interrupt check is made, and the functions with a result
    return 0. *)
Theorem no_surface_no_effect (w : World) :
  graphicsVar w = None ->
  (forall x y color, jswrap_graphics_setPixel x y color w = w) /\
  (forall x y, jswrap_graphics_moveTo x y w = w) /\
  (forall x y, jswrap_graphics_lineTo x y w = w) /\
  (forall x1 y1 x2 y2, jswrap_graphics_drawLine x1 y1 x2 y2 w = w) /\
  (forall r g b isForeground,
     jswrap_graphics_setColorX r g b isForeground w = Some w) /\
  (forall isForeground, jswrap_graphics_getColorX isForeground w = Some 0) /\
  (forall poly, jswrap_graphics_fillPoly poly w = w) /\
  (forall rotation reflect, jswrap_graphics_setRotation rotation reflect w = w) /\
  (forall height, jswrap_graphics_getWidthOrHeight height w = 0) /\
  (forall bitmap firstChar width height,
     jswrap_graphics_setFontCustom bitmap firstChar width height w = w) /\
  (forall size checkValid, jswrap_graphics_setFontSizeX size checkValid w = w) /\
  (forall str x y, jswrap_graphics_drawString str x y w = w) /\
  (forall str, jswrap_graphics_stringWidth str w = 0) /\
  (forall image xPos yPos, jswrap_graphics_drawImage image xPos yPos w = Some w).
Proof.
  intros Hw.
  unfold jswrap_graphics_setPixel, jswrap_graphics_moveTo, jswrap_graphics_lineTo,
    jswrap_graphics_drawLine, jswrap_graphics_setColorX, jswrap_graphics_getColorX,
    jswrap_graphics_fillPoly, jswrap_graphics_setRotation,
    jswrap_graphics_getWidthOrHeight, jswrap_graphics_setFontCustom,
    jswrap_graphics_setFontSizeX, jswrap_graphics_drawString,
    jswrap_graphics_stringWidth, jswrap_graphics_drawImage, graphicsGetFromVar.
  rewrite Hw. repeat split.
Qed.

End Graphics.

(** * Instances

    The statements above at one choice of what the headers and the
    build decide: swap-xy, invert-x and invert-y in bits 2, 3 and 4
    of the flags, font size codes -1 (4x6) and -2 (custom), an
    unsigned [char] and a [size_t] of 32 bits. *)

Lemma setRotation_sets_table_flags_witness :
  exists flags',
    jswrap_graphics_setRotation 2 3 4 1 true sample_world =
      graphicsSetVar (set_flags sample_gfx flags') sample_world /\
    Z.testbit flags' 2 = true /\ Z.testbit flags' 3 = true /\
    Z.testbit flags' 4 = true /\
    exists gfx',
      graphicsVar (jswrap_graphics_setRotation 2 3 4 1 true sample_world) = Some gfx' /\
      data_flags gfx' = flags' /\
      Z.testbit (data_flags gfx') 2 = true /\
      Z.testbit (data_flags gfx') 3 = true /\
      Z.testbit (data_flags gfx') 4 = true /\
      Z.testbit (data_flags gfx') 0 = Z.testbit (data_flags sample_gfx) 0.
Proof.
  destruct (setRotation_sets_table_flags 2 3 4 sample_world sample_gfx 1 true)
    as (_ & f & E & Hs & Hx & Hy & _ & g & Eg & Ef & Gs & Gx & Gy & Go & _).
  - unfold flag_bits_distinct. lia.
  - reflexivity.
  - lia.
  - exists f. repeat (split; [assumption | ]).
    exists g. repeat (split; [assumption | ]).
    apply Go; lia.
Defined.

Lemma setRotation_twice_is_once_witness :
  jswrap_graphics_setRotation 2 3 4 0 true
    (jswrap_graphics_setRotation 2 3 4 0 true sample_world) =
  jswrap_graphics_setRotation 2 3 4 0 true sample_world.
Proof.
  apply (setRotation_twice_is_once 2 3 4 sample_world sample_gfx 0 true).
  - unfold flag_bits_distinct. lia.
  - reflexivity.
Defined.

(** C4 as stated fails: on a surface with no flag set,
    [setRotation(0, true)] twice leaves invert-x set (flags 8), while
    [setRotation(0, false)] leaves no flag set (flags 0). *)
Lemma setRotation_reflect_twice_counterexample :
  option_map data_flags
    (graphicsVar (jswrap_graphics_setRotation 2 3 4 0 true
                    (jswrap_graphics_setRotation 2 3 4 0 true sample_world))) = Some 8 /\
  option_map data_flags
    (graphicsVar (jswrap_graphics_setRotation 2 3 4 0 false sample_world)) = Some 0 /\
  jswrap_graphics_setRotation 2 3 4 0 true
    (jswrap_graphics_setRotation 2 3 4 0 true sample_world) <>
  jswrap_graphics_setRotation 2 3 4 0 false sample_world.
Proof. repeat split. discriminate. Qed.



(** C8 at the failing input: on a surface whose cursor is at (0,0),
    [setPixel(3,4)] draws the pixel and leaves the persisted cursor at
    (0,0), where [moveTo(3,4)] and [lineTo(3,4)] persist (3,4). *)
Lemma setPixel_cursor_not_persisted :
  calls (jswrap_graphics_setPixel 3 4 JsUndefined sample_world) = [SetPixel 3 4 1] /\
  option_map (fun gfx => (data_cursorX gfx, data_cursorY gfx))
    (graphicsVar (jswrap_graphics_setPixel 3 4 JsUndefined sample_world)) = Some (0, 0) /\
  option_map (fun gfx => (data_cursorX gfx, data_cursorY gfx))
    (graphicsVar (jswrap_graphics_moveTo 3 4 sample_world)) = Some (3, 4) /\
  option_map (fun gfx => (data_cursorX gfx, data_cursorY gfx))
    (graphicsVar (jswrap_graphics_lineTo 3 4 sample_world)) = Some (3, 4).
Proof. repeat split; reflexivity. Qed.

Lemma fillPoly_truncates_and_draws_witness :
  calls (jswrap_graphics_fillPoly (Some (repeat 7 150)) sample_world) =
    [Warn "Maximum number of points (%d) exceeded for fillPoly" 64;
     FillPoly 64 (repeat 7 128)].
Proof.
  destruct (fillPoly_truncates_and_draws sample_world sample_gfx (repeat 7 150))
    as (_ & _ & H).
  - reflexivity.
  - destruct (H eq_refl) as [_ E]. exact E.
Defined.

Lemma custom_char_below_first_witness :
  drawString_char (-1) (-2) false 32 false no_vector_char
                  sample_gfx sample_font_widths 10 0 0 sample_world = (0, sample_world) /\
  stringWidth_char (-1) (-2) false 32 false no_vector_width
                   sample_gfx sample_font_widths 10 0 = 0.
Proof.
  apply (custom_char_below_first (-1) (-2) false 32 false no_vector_char no_vector_width
           sample_gfx sample_font_widths 10 0 0 0 sample_world).
  - reflexivity.
  - lia.
  - lia.
  - vm_compute. reflexivity.
  - unfold is_int. lia.
  - unfold is_int. lia.
Defined.

(** C1 as stated fails for an integer width: with the uniform width 5
    and the first character 32, the character 10 moves [x] from 0 to
    5 and [stringWidth] counts 5 for it; with the one-glyph font of
    'A', the string of the characters 10 and 65 drawn at (0,0) sets
    the pixel of 'A' at x = 1. *)
Lemma custom_char_below_first_counterexample :
  drawString_char (-1) (-2) false 32 false no_vector_char
                  sample_gfx sample_font 10 0 0 sample_world = (5, sample_world) /\
  jswrap_graphics_stringWidth (-1) (-2) false 32 false no_vector_width
                              [10] sample_world = 5 /\
  calls (jswrap_graphics_drawString (-1) (-2) false 32 false no_vector_char
           (fun _ => false) [10; 65] 0 0 sample_world_A) = [SetPixel 1 0 1].
Proof. repeat split; reflexivity. Qed.

Lemma glyph_offset_is_height_times_width_prefix_witness :
  glyph_bit_offset false sample_font 65 = 5 * (65 - 32) * 7 /\
  glyph_start_byte false 32 sample_font 65 = 144 /\
  glyph_start_bit false sample_font 65 = 3.
Proof.
  destruct (glyph_offset_is_height_times_width_prefix false 32 sample_font 65)
    as (Hoff & Hstart & _).
  - cbn. lia.
  - cbn. lia.
  - cbn. lia.
  - lia.
  - cbn [customWidth sample_font customFirstChar customHeight] in Hoff.
    destruct Hoff as [_ Hoff]; try (unfold is_int; lia).
    split; [exact Hoff | ].
    destruct Hstart as [Hbyte Hbit].
    + rewrite Hoff. lia.
    + rewrite Hbyte, Hbit, Hoff. split; reflexivity.
Defined.

Lemma drawString_stops_at_interrupt_witness :
  calls (jswrap_graphics_drawString (-1) (-2) false 32 false no_vector_char
           interrupt_at_second_check [65; 66; 67] 0 0 sample_world_4x6) =
    [DrawChar4x6 0 0 65; DrawChar4x6 4 0 66] /\
  polls (jswrap_graphics_drawString (-1) (-2) false 32 false no_vector_char
           interrupt_at_second_check [65; 66; 67] 0 0 sample_world_4x6) = 2%nat.
Proof.
  destruct (drawString_stops_at_interrupt (-1) (-2) false 32 false no_vector_char
              interrupt_at_second_check sample_world_4x6 sample_gfx_4x6
              [65; 66; 67] 0 0) as [Stop _].
  - reflexivity.
  - destruct (Stop 1%nat) as (Run & Polls & _).
    + simpl. lia.
    + reflexivity.
    + intros j Hj. destruct j; [reflexivity | lia].
    + rewrite Run. split; reflexivity.
Defined.

(** C2, as amended: the 2 by 2 image of depth 1 with the bytes
    0b10000000 and 0b01000000 and no transparent colour writes four
    pixels, in this order: the foreground colour at (0,0) and the
    background colour at (1,0), (0,1) and (1,1), all relative to the
    offset.  Rows are not padded to bytes: the four samples are the
    top four bits of the first byte and the second byte is not read.
    The bytes of the picture with the foreground colour at (0,0) and
    (1,1) are the single byte 0b10010000. *)
Theorem drawImage_two_by_two
    (char_is_signed : bool) (LONG_BITS : Z)
    (w : World) (gfx : JsGraphicsData) (xPos yPos : Z) :
  graphicsVar w = Some gfx ->
  32 <= LONG_BITS ->
  let at_offset x y col := SetPixel (to_short (x + xPos)) (to_short (y + yPos)) col in
  jswrap_graphics_drawImage char_is_signed LONG_BITS (Some (mkImage 2 2 1 None (Some [0x80; 0x40]))) xPos yPos w =
    Some (mkWorld (graphicsVar w) (fontVars w)
            (calls w ++ [at_offset 0 0 (data_fgColor gfx); at_offset 1 0 (data_bgColor gfx);
                         at_offset 0 1 (data_bgColor gfx); at_offset 1 1 (data_bgColor gfx)])
            (polls w)) /\
  jswrap_graphics_drawImage char_is_signed LONG_BITS (Some (mkImage 2 2 1 None (Some [0x90]))) xPos yPos w =
    Some (mkWorld (graphicsVar w) (fontVars w)
            (calls w ++ [at_offset 0 0 (data_fgColor gfx); at_offset 1 0 (data_bgColor gfx);
                         at_offset 0 1 (data_bgColor gfx); at_offset 1 1 (data_fgColor gfx)])
            (polls w)).
Proof.
  intros Hw HL at_offset.
  assert (M : imageBitMask LONG_BITS (to_int 1) = Some 1).
  { change (to_int 1) with 1. rewrite imageBitMask_spec by lia. reflexivity. }
  destruct w as [g f c p]. cbn [graphicsVar] in Hw. subst g.
  set (w := mkWorld (Some gfx) f c p).
  unfold jswrap_graphics_drawImage, graphicsGetFromVar.
  cbn [graphicsVar image_width image_height image_bpp image_transparent image_buffer].
  rewrite M.
  assert (Flat : forall a1 a2 a3 a4,
    emit a4 (emit a3 (emit a2 (emit a1 w))) =
    mkWorld (graphicsVar w) (fontVars w) (calls w ++ [a1; a2; a3; a4]) (polls w)).
  { intros. unfold emit. cbn [graphicsVar fontVars calls polls w].
    repeat rewrite <- app_assoc. reflexivity. }
  split; rewrite <- Flat; destruct char_is_signed; reflexivity.
Qed.


Lemma drawImage_two_by_two_witness :
  option_map calls
    (jswrap_graphics_drawImage false 32 (Some (mkImage 2 2 1 None (Some [0x80; 0x40])))
       0 0 sample_world) =
  Some [SetPixel 0 0 1; SetPixel 1 0 0; SetPixel 0 1 0; SetPixel 1 1 0].
Proof.
  destruct (drawImage_two_by_two false 32 sample_world sample_gfx 0 0) as [Run _].
  - reflexivity.
  - lia.
  - rewrite Run. reflexivity.
Defined.

(** C2 as stated fails: on a surface whose foreground colour is 1 and
    background colour is 0, the pixel at (1,1) is written with the
    background colour. *)
Lemma drawImage_two_by_two_counterexample :
  option_map calls
    (jswrap_graphics_drawImage false 32 (Some (mkImage 2 2 1 None (Some [0x80; 0x40])))
       0 0 sample_world) =
  Some [SetPixel 0 0 1; SetPixel 1 0 0; SetPixel 0 1 0; SetPixel 1 1 0] /\
  data_fgColor sample_gfx = 1 /\ data_bgColor sample_gfx = 0.
Proof. repeat split; reflexivity. Qed.

(** The mask where [long] has 32 bits, for the depths below 32. *)
Lemma imageBitMask_long32 (imageBpp : Z) :
  1 <= imageBpp <= 31 -> imageBitMask 32 imageBpp = Some (2 ^ imageBpp - 1).
Proof.
  intros H. destruct (Z.eq_dec imageBpp 31) as [-> | N].
  - reflexivity.
  - apply imageBitMask_spec; lia.
Qed.

(** The mask where [long] has 64 bits, for every depth the image
    check lets through. *)
Lemma imageBitMask_long64 (imageBpp : Z) :
  1 <= imageBpp <= 32 -> imageBitMask 64 imageBpp = Some (2 ^ imageBpp - 1).
Proof. intros H. apply imageBitMask_spec; lia. Qed.

(** C7 at the failing input: with a [long] of 32 bits the mask of
    depth 32 is the undefined [1L << 32], and [drawImage] of an image
    of depth 32 has no defined result; with a [long] of 64 bits the
    mask is [2^32 - 1] and the image is drawn. *)
Theorem drawImage_mask_depth32 :
  imageBitMask 32 32 = None /\
  jswrap_graphics_drawImage false 32 (Some sample_image32) 0 0 sample_world32 = None /\
  imageBitMask 64 32 = Some (2 ^ 32 - 1) /\
  option_map calls
    (jswrap_graphics_drawImage false 64 (Some sample_image32) 0 0 sample_world32) =
    Some [SetPixel 0 0 0x01020304].
Proof. repeat split; reflexivity. Qed.

(** ** Decoding, layout and selection at the sample data *)

Lemma drawImage_decodes_witness :
  jswrap_graphics_drawImage false 32 (Some sample_image2) 10 20 sample_world =
  Some (add_calls [SetPixel 11 20 1; SetPixel 12 20 2; SetPixel 13 20 3] sample_world).
Proof.
  rewrite (drawImage_decodes false 32 sample_world sample_gfx sample_image2 [0x1B] 10 20).
  - reflexivity.
  - reflexivity.
  - lia.
  - reflexivity.
  - repeat constructor; unfold is_byte; lia.
  - cbn. lia.
  - cbn. lia.
  - cbn. tauto.
Defined.

Lemma drawImage_decodes_wide_witness :
  jswrap_graphics_drawImage false 32 (Some sample_image16) 0 0 sample_world =
  Some (add_calls [SetPixel 0 0 0x1234; SetPixel 1 0 0x5678] sample_world).
Proof.
  rewrite (drawImage_decodes_wide false 32 sample_world sample_gfx sample_image16
             [0x12; 0x34; 0x56; 0x78] 0 0).
  - reflexivity.
  - reflexivity.
  - lia.
  - cbn. lia.
  - reflexivity.
  - repeat constructor; unfold is_byte; lia.
  - cbn. lia.
  - cbn. lia.
  - cbn. tauto.
Defined.

Lemma drawString_custom_glyph_witness :
  jswrap_graphics_drawString (-1) (-2) false 32 false no_vector_char never_interrupted
    [33] 0 0 sample_world_widths =
  add_polls 1
    (add_calls [SetPixel 1 0 1; SetPixel 1 1 1; SetPixel 2 0 1;
                SetPixel 2 1 1; SetPixel 3 0 1; SetPixel 3 1 1]
       sample_world_widths).
Proof.
  rewrite (drawString_custom_glyph (-1) (-2) false 32 false no_vector_char
             never_interrupted sample_world_widths sample_gfx 33 0 0).
  - reflexivity.
  - reflexivity.
  - reflexivity.
  - lia.
  - lia.
  - lia.
  - repeat constructor; unfold is_byte; lia.
  - vm_compute. discriminate.
  - vm_compute. discriminate.
Defined.

Lemma drawString_advances_by_stringWidth_witness :
  fst (drawString_loop (-1) (-2) false 32 false no_vector_char never_interrupted
         sample_gfx (fontVars sample_world_widths) 0 [32; 33; 34] 10
         sample_world_widths) = 22.
Proof.
  rewrite (drawString_advances_by_stringWidth (-1) (-2) false 32 false no_vector_char
             no_vector_width never_interrupted sample_world_widths sample_gfx
             [32; 33; 34] 10 0).
  - reflexivity.
  - reflexivity.
  - cbn. lia.
  - lia.
  - unfold is_int. lia.
  - intros j _. reflexivity.
Defined.

Lemma stringWidth_sums_widths_witness :
  jswrap_graphics_stringWidth (-1) (-2) false 32 false no_vector_width
    [32; 33; 34; 31; 40] sample_world_widths = 12.
Proof.
  destruct (stringWidth_sums_widths (-1) (-2) false 32 false no_vector_width
              sample_world_widths sample_gfx [32; 33; 34; 31; 40]) as [_ Custom].
  - reflexivity.
  - cbn. lia.
  - refine (eq_trans (Custom eq_refl _ _ _) _).
    + lia.
    + repeat constructor; unfold is_byte; lia.
    + lia.
    + reflexivity.
Defined.

Lemma drawString_4x6_layout_witness :
  jswrap_graphics_drawString (-1) (-2) false 32 false no_vector_char never_interrupted
    [72; 105] 3 5 sample_world_4x6 =
  add_polls 2 (add_calls [DrawChar4x6 3 5 72; DrawChar4x6 7 5 105] sample_world_4x6).
Proof.
  rewrite (drawString_4x6_layout (-1) (-2) false 32 false no_vector_char
             never_interrupted sample_world_4x6 sample_gfx_4x6 [72; 105] 3 5).
  - reflexivity.
  - reflexivity.
  - reflexivity.
  - lia.
  - intros j _. reflexivity.
Defined.

Lemma stringWidth_app_witness :
  jswrap_graphics_stringWidth (-1) (-2) false 32 false no_vector_width
    ([32; 33] ++ [34]) sample_world_widths = 12.
Proof.
  rewrite (stringWidth_app (-1) (-2) false 32 false no_vector_width
             sample_world_widths [32; 33] [34]).
  reflexivity.
Defined.

Lemma drawString_app_witness :
  jswrap_graphics_drawString (-1) (-2) false 32 false no_vector_char never_interrupted
    ([32] ++ [33; 34]) 0 0 sample_world_widths =
  jswrap_graphics_drawString (-1) (-2) false 32 false no_vector_char never_interrupted
    [33; 34] 3 0
    (jswrap_graphics_drawString (-1) (-2) false 32 false no_vector_char
       never_interrupted [32] 0 0 sample_world_widths).
Proof.
  rewrite (drawString_app (-1) (-2) false 32 false no_vector_char no_vector_width
             never_interrupted sample_world_widths sample_gfx [32] [33; 34] 0 0).
  - reflexivity.
  - reflexivity.
  - cbn. lia.
  - lia.
  - unfold is_int. lia.
  - intros j _. reflexivity.
Defined.

Lemma setRotation_last_call_wins_witness :
  jswrap_graphics_setRotation 2 3 4 1 false
    (jswrap_graphics_setRotation 2 3 4 2 true sample_world) =
  jswrap_graphics_setRotation 2 3 4 1 false sample_world.
Proof.
  apply (setRotation_last_call_wins 2 3 4 sample_world sample_gfx 2 1 true false).
  - unfold flag_bits_distinct. lia.
  - reflexivity.
Defined.

Lemma setRotation_orientations_distinct_witness : 1 = 1 /\ true = true.
Proof.
  apply (setRotation_orientations_distinct 2 3 4 sample_world sample_gfx 1 1 true true).
  - unfold flag_bits_distinct. lia.
  - reflexivity.
  - lia.
  - lia.
  - reflexivity.
Defined.

Lemma moveTo_lineTo_draws_path_witness :
  calls (lineTo_each [(3, 4); (5, 6)] (jswrap_graphics_moveTo 1 2 sample_world)) =
    [DrawLine 1 2 3 4; DrawLine 3 4 5 6] /\
  calls (lineTo_each [(3, 4); (5, 6)] (jswrap_graphics_moveTo 1 2 sample_world)) =
    calls (drawLine_each 1 2 [(3, 4); (5, 6)] sample_world) /\
  option_map (fun g => (data_cursorX g, data_cursorY g))
    (graphicsVar (lineTo_each [(3, 4); (5, 6)] (jswrap_graphics_moveTo 1 2 sample_world))) =
    Some (5, 6).
Proof.
  apply (moveTo_lineTo_draws_path sample_world sample_gfx 1 2 [(3, 4); (5, 6)]).
  reflexivity.
Defined.

Lemma getColor_after_setColor_witness :
  exists w',
    jswrap_graphics_setColorX (JsNumber (inject_Z 0x12345)) JsUndefined JsUndefined
      true sample_world16 = Some w' /\
    jswrap_graphics_getColorX 32 32 true w' = Some 0x2345.
Proof.
  destruct (getColor_after_setColor 32 32 sample_world16 sample_gfx16 0x12345 true)
    as (w' & Hset & Hget & _).
  - reflexivity.
  - lia.
  - lia.
  - cbn. lia.
  - exists w'. split; [exact Hset | exact Hget].
Defined.


Lemma stringWidth_after_setFontCustom_witness :
  jswrap_graphics_stringWidth (-1) (-2) false 32 false no_vector_width [65; 66; 67]
    (jswrap_graphics_setFontCustom (-2) (ArgString []) 32 (ArgInt 5) 7 sample_world_4x6) =
  15.
Proof.
  rewrite (stringWidth_after_setFontCustom (-1) (-2) false 32 false no_vector_width
             sample_world_4x6 sample_gfx_4x6 [] 32 5 7 [65; 66; 67]).
  - reflexivity.
  - reflexivity.
  - lia.
  - lia.
  - lia.
  - lia.
Defined.

Lemma setFontSizeX_selects_witness :
  jswrap_graphics_setFontVector (-2) 2000 sample_world =
    mkWorld (Some (set_fontSize sample_gfx 1023)) no_custom_font [] 0 /\
  jswrap_graphics_setFontBitmap (-1) (-2) sample_world =
    mkWorld (Some (set_fontSize sample_gfx (-1))) no_custom_font [] 0 /\
  jswrap_graphics_stringWidth (-1) (-2) false 32 false no_vector_width [65; 66]
    (jswrap_graphics_setFontBitmap (-1) (-2) sample_world) = 8.
Proof.
  apply (setFontSizeX_selects (-1) (-2) false 32 false no_vector_width
           sample_world sample_gfx 2000 [65; 66]).
  - reflexivity.
  - unfold is_short. lia.
  - lia.
Defined.

Lemma created_surface_is_valid_witness :
  jswrap_graphics_createArrayBuffer sample_gfx 0 1 2 128 64 1 None true =
    CreateOk [] (mkData 128 64 1 0 1 0 0 0 (-2)) /\
  1 <= 128 <= 1023 /\ 1 <= 64 <= 1023 /\ In 1 [1; 2; 4; 8; 16; 24; 32] /\
  data_width (mkData 128 64 1 0 1 0 0 0 (-2)) = 128 /\
  data_height (mkData 128 64 1 0 1 0 0 0 (-2)) = 64 /\
  data_bpp (mkData 128 64 1 0 1 0 0 0 (-2)) = 1.
Proof.
  split; [reflexivity | ].
  apply (created_surface_is_valid sample_gfx 0 1 2 128 64 1 None
           (CallbackValue KindUndefined) true [] (mkData 128 64 1 0 1 0 0 0 (-2))).
  left. reflexivity.
Defined.

Lemma no_surface_no_effect_witness :
  jswrap_graphics_drawString (-1) (-2) false 32 false no_vector_char never_interrupted
    [65] 0 0 sample_world_none = sample_world_none /\
  jswrap_graphics_getColorX 32 32 true sample_world_none = Some 0 /\
  jswrap_graphics_drawImage false 32 (Some sample_image2) 0 0 sample_world_none =
    Some sample_world_none.
Proof.
  destruct (no_surface_no_effect 2 3 4 (-1) (-2) false 32 32 false no_vector_char
              no_vector_width never_interrupted 32 sample_world_none eq_refl)
    as (_ & _ & _ & _ & _ & Get & _ & _ & _ & _ & _ & Draw & _ & Image).
  split; [apply Draw | split; [apply Get | apply Image]].
Defined.

Lemma getWidth_getHeight_after_setRotation_witness :
  jswrap_graphics_getWidthOrHeight 2 false
    (jswrap_graphics_setRotation 2 3 4 3 true sample_world) = 64 /\
  jswrap_graphics_getWidthOrHeight 2 true
    (jswrap_graphics_setRotation 2 3 4 3 true sample_world) = 128.
Proof.
  destruct (getWidth_getHeight_after_setRotation 2 3 4 sample_world sample_gfx 3 true)
    as [Swapped _].
  - unfold flag_bits_distinct. lia.
  - reflexivity.
  - apply Swapped. right. reflexivity.
Defined.

